(** * Browser pool of the car-parts scraper: sessions, leases, reaper, watchdog

    Shallow embedding of [src/temp/app.py]: the classes [BrowserInstance]
    and [BrowserPool], the [/scrape] handler [scrape_barcode] and the
    [lifespan] hook; then the helpers of the two scrapers: the image
    folder, the image URLs and downloads and [get_image], the search
    result link, [_kill_orphaned_chromedrivers], [_wait_for_cloudflare],
    the warm-up, [scrape_realoem_barcode] and the two branches of
    [_run_scrape].

    Conventions of the model.
    - Every [BrowserInstance] object lives in a store ([heap]) and is named
      by a reference; the registry [pool._instances] is a list of
      references, so that a session handed to a caller, kept in [to_kill]
      or captured by a background thread is the same object as the one in
      the registry.
    - [time.time()] readings, the behaviour of Chrome (does [Driver(...)]
      start, does [driver.title] answer) and the steps of the other threads
      are inputs of the functions.
    - A block [with self._lock:] is one atomic step.  The steps of other
      threads are placed between the turns of a caller's loop; the health
      check of acquire() (lines 221-230) and each method of a session run
      without a step of another thread in between.
    - Exceptions are the subclasses of [Exception]; request strings are
      ASCII text.
    - Calls that reach the outside world ([driver.quit()], [kill -9],
      thread starts) and the lock/unlock of the registry lock are recorded
      in a chronological [trace]. *)

From Stdlib Require Import QArith Ascii.
From stdpp Require Import gmap strings list fin_maps pretty.

Set Warnings "-clear-no-such-hyp".

Open Scope Q_scope.
Open Scope nat_scope.

(** ** Exceptions *)

Inductive exn :=
| PoolTimeout
    (* RuntimeError("BrowserPool: no instance available within timeout") *)
| ReleaseUnlocked
    (* RuntimeError("release unlocked lock"), from threading.Lock.release *)
| ValueError
    (* ValueError("list.remove(x): x not in list") *)
| External (is_runtime_error : bool) (msg : string).
    (* an Exception raised inside seleniumbase / selenium / the scrapers *)

Definition isinstance_RuntimeError (e : exn) : bool :=
  match e with
  | PoolTimeout | ReleaseUnlocked => true
  | ValueError => false
  | External b _ => b
  end.

(* str(e) *)
Definition str (e : exn) : string :=
  match e with
  | PoolTimeout => "BrowserPool: no instance available within timeout"
  | ReleaseUnlocked => "release unlocked lock"
  | ValueError => "list.remove(x): x not in list"
  | External _ msg => msg
  end.

Inductive result (A : Type) :=
| Return (a : A)
| Raise (e : exn).
Arguments Return {A} a.
Arguments Raise {A} e.

(** ** Configuration (app.py, lines 24-31) *)

Definition AUTODOC_TIMEOUT : nat := 120.
Definition REALOEM_TIMEOUT : nat := 300.
Definition POOL_MAX_INSTANCES : nat := 3.
Definition IDLE_KILL_AFTER : Q := 300%Q.
Definition IDLE_CHECK_EVERY : Q := 60%Q.

(** ** The outside world *)

(* a Chrome session started by seleniumbase's Driver(...) *)
Definition Driver := nat.

(* what Driver(uc=True, headless=False) does: a new session, or an
   exception of the driver library *)
Inductive launch_outcome :=
| Launched (d : Driver)
| LaunchFailed (is_runtime_error : bool) (msg : string).

(* one call of Driver(uc=True, headless=False) and the read of
   driver.service.process.pid that follows it *)
Record chrome_launch := {
  launch_driver : launch_outcome;
  launch_pid : option nat   (* None: reading the pid raised *)
}.

Definition ref := nat.

Inductive thread :=
| T_warmup_perm (r : ref)       (* _warmup_perm, closure over perm *)
| T_start_instance (r : ref)    (* self._start_instance(new_inst) *)
| T_idle_reaper.                (* self._idle_reaper *)

Inductive event :=
| EvDriverQuit (d : Driver)        (* driver.quit() called *)
| EvKill (pid : nat)               (* subprocess.run(["kill", "-9", pid]) *)
| EvLaunch (c : chrome_launch)     (* Driver(uc=True, headless=False) called *)
| EvRevive (inst_id : nat)         (* revive() entered *)
| EvKillOrphans                    (* _kill_orphaned_chromedrivers() *)
| EvRegistryLock                   (* self._lock acquired *)
| EvRegistryUnlock                 (* self._lock released *)
| EvAppend (r : ref)               (* self._instances.append *)
| EvRemove (r : ref)               (* self._instances.remove *)
| EvQuit (r : ref)                 (* inst.quit() entered *)
| EvThread (t : thread).           (* threading.Thread(...).start() *)

(** ** threading.Lock, as a flag: [true] is locked *)

(* lock.acquire(blocking=False): (acquired?, lock afterwards) *)
Definition lock_try_acquire (l : bool) : bool * bool :=
  if l then (false, true) else (true, true).

(* lock.release() *)
Definition lock_release (l : bool) : result bool :=
  if l then Return false else Raise ReleaseUnlocked.

(** ** BrowserInstance *)

Record BrowserInstance := mkBrowserInstance {
  id : nat;
  permanent : bool;
  lock : bool;
  driver : option Driver;
  wait : option Driver;              (* WebDriverWait(self.driver, 15) *)
  autodoc_cookie_handled : bool;
  realoem_cookie_handled : bool;
  last_used : Q;
  _alive : bool;
  _service_pid : option nat          (* absent and None read alike (getattr) *)
}.

Definition set_lock (b : bool) (i : BrowserInstance) : BrowserInstance :=
  mkBrowserInstance (id i) (permanent i) b (driver i) (wait i)
    (autodoc_cookie_handled i) (realoem_cookie_handled i) (last_used i)
    (_alive i) (_service_pid i).

Definition set_driver (d w : option Driver) (i : BrowserInstance) : BrowserInstance :=
  mkBrowserInstance (id i) (permanent i) (lock i) d w
    (autodoc_cookie_handled i) (realoem_cookie_handled i) (last_used i)
    (_alive i) (_service_pid i).

Definition set_cookies (a r : bool) (i : BrowserInstance) : BrowserInstance :=
  mkBrowserInstance (id i) (permanent i) (lock i) (driver i) (wait i)
    a r (last_used i) (_alive i) (_service_pid i).

Definition set_last_used (t : Q) (i : BrowserInstance) : BrowserInstance :=
  mkBrowserInstance (id i) (permanent i) (lock i) (driver i) (wait i)
    (autodoc_cookie_handled i) (realoem_cookie_handled i) t
    (_alive i) (_service_pid i).

Definition set_alive (b : bool) (i : BrowserInstance) : BrowserInstance :=
  mkBrowserInstance (id i) (permanent i) (lock i) (driver i) (wait i)
    (autodoc_cookie_handled i) (realoem_cookie_handled i) (last_used i)
    b (_service_pid i).

Definition set_service_pid (p : option nat) (i : BrowserInstance) : BrowserInstance :=
  mkBrowserInstance (id i) (permanent i) (lock i) (driver i) (wait i)
    (autodoc_cookie_handled i) (realoem_cookie_handled i) (last_used i)
    (_alive i) p.

(* __init__: [n] is the value drawn from _id_counter, [now] is time.time() *)
Definition BrowserInstance_init (n : nat) (perm : bool) (now : Q) : BrowserInstance :=
  mkBrowserInstance n perm false None None false false now false None.

(* start(): if Driver(...) raises, nothing has been assigned yet *)
Definition start (c : chrome_launch) (self : BrowserInstance)
  : result unit * BrowserInstance * list event :=
  match launch_driver c with
  | LaunchFailed b msg => (Raise (External b msg), self, [EvLaunch c])
  | Launched d =>
      (Return tt,
       set_service_pid (launch_pid c) (set_alive true (set_driver (Some d) (Some d) self)),
       [EvLaunch c])
  end.

(* quit(): exceptions of driver.quit() and of kill are swallowed *)
Definition quit (self : BrowserInstance) : BrowserInstance * list event :=
  let self0 := set_alive false self in
  let service_pid := _service_pid self0 in
  let '(self1, ev1) :=
    match driver self0 with
    | Some d => (set_driver None None self0, [EvDriverQuit d])
    | None => (self0, [])
    end in
  match service_pid with
  | Some (S p) => (set_service_pid None self1, ev1 ++ [EvKill (S p)])
  | _ => (self1, ev1)
  end.

(* is_alive(): [title_ok] tells whether reading driver.title succeeds *)
Definition is_alive (title_ok : bool) (self : BrowserInstance) : bool * BrowserInstance :=
  if negb (_alive self) || negb (bool_decide (is_Some (driver self))) then (false, self)
  else if title_ok then (true, self)
  else (false, set_alive false self).

(* revive() *)
Definition revive (c : chrome_launch) (self : BrowserInstance)
  : result unit * BrowserInstance * list event :=
  let '(self1, ev1) := quit self in
  let self2 := set_cookies false false self1 in
  let '(res, self3, ev3) := start c self2 in
  (res, self3, EvRevive (id self) :: ev1 ++ ev3).

(* touch() *)
Definition touch (now : Q) (self : BrowserInstance) : BrowserInstance :=
  set_last_used now self.


(** ** The store and the pool singleton *)

Record World := mkWorld {
  heap : gmap ref BrowserInstance;   (* the BrowserInstance objects *)
  _id_counter : nat;                 (* BrowserInstance._id_counter *)
  _instances : list ref;             (* pool._instances *)
  _stopped : bool;                   (* pool._stopped *)
  trace : list event
}.

(* the module has just been imported: pool = BrowserPool() *)
Definition fresh_world : World := mkWorld ∅ 0 [] false [].

Definition set_heap (h : gmap ref BrowserInstance) (w : World) : World :=
  mkWorld h (_id_counter w) (_instances w) (_stopped w) (trace w).

Definition set_instances (l : list ref) (w : World) : World :=
  mkWorld (heap w) (_id_counter w) l (_stopped w) (trace w).

Definition set_stopped (b : bool) (w : World) : World :=
  mkWorld (heap w) (_id_counter w) (_instances w) b (trace w).

Definition emit (evs : list event) (w : World) : World :=
  mkWorld (heap w) (_id_counter w) (_instances w) (_stopped w) (trace w ++ evs).

Definition store (r : ref) (i : BrowserInstance) (w : World) : World :=
  set_heap (<[r := i]> (heap w)) w.

(* BrowserInstance(permanent=perm): a new object, named by its id *)
Definition new_BrowserInstance (perm : bool) (now : Q) (w : World) : ref * World :=
  let n := S (_id_counter w) in
  (n, mkWorld (<[n := BrowserInstance_init n perm now]> (heap w)) n
        (_instances w) (_stopped w) (trace w)).

(* inst.lock.locked() *)
Definition locked (h : gmap ref BrowserInstance) (r : ref) : bool :=
  match h !! r with Some i => lock i | None => false end.

(* inst.permanent *)
Definition is_permanent (h : gmap ref BrowserInstance) (r : ref) : bool :=
  match h !! r with Some i => permanent i | None => false end.

(* inst.quit() on the object behind [r] *)
Definition inst_quit (r : ref) (w : World) : World :=
  match heap w !! r with
  | Some i => let '(i', evs) := quit i in emit (EvQuit r :: evs) (store r i' w)
  | None => w
  end.

(* inst.start() on the object behind [r] *)
Definition inst_start (r : ref) (c : chrome_launch) (w : World) : result unit * World :=
  match heap w !! r with
  | Some i => let '(res, i', evs) := start c i in (res, emit evs (store r i' w))
  | None => (Return tt, w)
  end.

(* try: inst.lock.release()  except RuntimeError: pass *)
Definition release_quietly (r : ref) (w : World) : result unit * World :=
  match heap w !! r with
  | Some i =>
      match lock_release (lock i) with
      | Return l => (Return tt, store r (set_lock l i) w)
      | Raise e => if isinstance_RuntimeError e then (Return tt, w) else (Raise e, w)
      end
  | None => (Return tt, w)
  end.

(** ** BrowserPool *)

(* start() *)
Definition pool_start (c : chrome_launch) (now : Q) (w : World) : result unit * World :=
  let w := emit [EvKillOrphans] w in
  let '(perm, w) := new_BrowserInstance true now w in
  match inst_start perm c w with
  | (Raise e, w) => (Raise e, w)
  | (Return _, w) =>
      let w := match heap w !! perm with
               | Some i => store perm (set_lock true i) w
               | None => w
               end in
      let w := emit [EvRegistryLock; EvAppend perm; EvRegistryUnlock]
                 (set_instances (_instances w ++ [perm]) w) in
      (Return tt, emit [EvThread (T_warmup_perm perm); EvThread T_idle_reaper] w)
  end.

(* the thread _warmup_perm: [warm] tells whether the cookie banner was
   handled (perm.warmup_autodoc() reached _handle_cookies); the lock is
   released in the finally clause *)
Definition _warmup_perm (perm : ref) (warm : bool) (w : World) : result unit * World :=
  let w := match heap w !! perm with
           | Some i => store perm (set_cookies (autodoc_cookie_handled i || warm)
                                     (realoem_cookie_handled i) i) w
           | None => w
           end in
  release_quietly perm w.

(* shutdown() *)
Definition shutdown (w : World) : World :=
  let w := emit [EvRegistryLock] w in
  if _stopped w then emit [EvRegistryUnlock] w
  else
    let w := set_stopped true w in
    let instances := _instances w in
    let w := emit [EvRegistryUnlock] w in
    let w := foldl (λ w r, inst_quit r w) w instances in
    let w := emit [EvRegistryLock] w in
    let w := set_instances [] w in
    let w := emit [EvRegistryUnlock] w in
    emit [EvKillOrphans] w.

(* for candidate in self._instances:
       if candidate.lock.acquire(blocking=False): inst = candidate; break *)
Fixpoint scan (cands : list ref) (h : gmap ref BrowserInstance)
  : option ref * gmap ref BrowserInstance :=
  match cands with
  | [] => (None, h)
  | r :: rest =>
      match h !! r with
      | Some i =>
          let '(ok, l) := lock_try_acquire (lock i) in
          if ok then (Some r, <[r := set_lock l i]> h) else scan rest h
      | None => scan rest h
      end
  end.

(* what one pass through [with self._lock:] of acquire() yields *)
Record locked_pass := {
  inst : option ref;        (* the candidate whose lock was taken *)
  spawned_after : bool;     (* the local variable spawned *)
  new_inst : option ref;    (* the temporary instance created in this pass *)
  world_after : World
}.

(* acquire(), lines 198-218: one pass of the loop body under the registry
   lock; [now] is read by BrowserInstance.__init__ *)
Definition acquire_locked (spawned : bool) (now : Q) (w : World) : locked_pass :=
  let w := emit [EvRegistryLock] w in
  let pool_size := length (_instances w) in
  let '(inst, h) := scan (_instances w) (heap w) in
  let w := set_heap h w in
  if bool_decide (inst = None) && negb spawned
     && bool_decide (pool_size < POOL_MAX_INSTANCES) then
    let '(new_inst, w) := new_BrowserInstance false now w in
    let w := store new_inst (set_lock true (BrowserInstance_init new_inst false now)) w in
    let w := emit [EvAppend new_inst] (set_instances (_instances w ++ [new_inst]) w) in
    let w := emit [EvThread (T_start_instance new_inst)] w in
    Build_locked_pass inst true (Some new_inst) (emit [EvRegistryUnlock] w)
  else
    Build_locked_pass inst spawned None (emit [EvRegistryUnlock] w).

(* acquire(), lines 221-230: health check, revive and touch of the session
   whose lock was taken; runs outside the registry lock *)
Definition acquire_checked (r : ref) (title_ok : bool) (c : chrome_launch) (now : Q)
    (w : World) : result ref * World :=
  match heap w !! r with
  | Some i =>
      let '(alive, i1) := is_alive title_ok i in
      if alive then (Return r, store r (touch now i1) w)
      else
        match revive c i1 with
        | (Raise e, i2, evs) => (Raise e, emit evs (store r i2 w))
        | (Return _, i2, evs) =>
            (Return r, emit evs (store r (touch now (set_cookies false false i2)) w))
        end
  | None => (Return r, w)
  end.

(* release() *)
Definition release (r : ref) (now : Q) (w : World) : result unit * World :=
  match heap w !! r with
  | Some i => release_quietly r (store r (touch now i) w)
  | None => (Return tt, w)
  end.

(* list.remove(x): the first occurrence; ValueError when there is none *)
Fixpoint list_remove_first (x : ref) (l : list ref) : result (list ref) :=
  match l with
  | [] => Raise ValueError
  | y :: l' =>
      if bool_decide (x = y) then Return l'
      else match list_remove_first x l' with
           | Return l'' => Return (y :: l'')
           | Raise e => Raise e
           end
  end.

(* _start_instance(inst): the thread that starts a temporary instance *)
Definition _start_instance (r : ref) (c : chrome_launch) (w : World) : result unit * World :=
  let w :=
    match inst_start r c w with
    | (Return _, w) => w
    | (Raise e, w) =>
        let w := emit [EvRegistryLock] w in
        let w :=
          if bool_decide (r ∈ _instances w) then
            match list_remove_first r (_instances w) with
            | Return l => emit [EvRemove r] (set_instances l w)
            | Raise _ => w
            end
          else w in
        let w := emit [EvRegistryUnlock] w in
        inst_quit r w
    end in
  release_quietly r w.

Definition Qltb (x y : Q) : bool := if Qlt_le_dec x y then true else false.

(* the condition of the comprehension in _idle_reaper *)
Definition reapable (now : Q) (h : gmap ref BrowserInstance) (r : ref) : bool :=
  match h !! r with
  | Some i =>
      negb (permanent i) && negb (lock i)
      && Qltb IDLE_KILL_AFTER (now - last_used i)%Q
  | None => false
  end.

(* for inst in to_kill: self._instances.remove(inst) *)
Fixpoint remove_all (to_kill : list ref) (w : World) : result unit * World :=
  match to_kill with
  | [] => (Return tt, w)
  | r :: rest =>
      match list_remove_first r (_instances w) with
      | Return l => remove_all rest (emit [EvRemove r] (set_instances l w))
      | Raise e => (Raise e, w)
      end
  end.

(* _idle_reaper(): one turn of the while loop, after the sleep; [now] is
   the time.time() reading.  Yields to_kill with the new state. *)
Definition _idle_reaper (now : Q) (w : World) : result (list ref) * World :=
  let w := emit [EvRegistryLock] w in
  let to_kill := List.filter (reapable now (heap w)) (_instances w) in
  match remove_all to_kill w with
  | (Raise e, w) => (Raise e, emit [EvRegistryUnlock] w)
  | (Return _, w) =>
      let w := emit [EvRegistryUnlock] w in
      (Return to_kill, foldl (λ w r, inst_quit r w) w to_kill)
  end.

(** ** What the other threads do between two steps of a caller *)

Inductive action :=
| A_acquire_locked (spawned : bool) (now : Q)
    (* another caller of acquire() passes through the registry lock *)
| A_acquire_checked (r : ref) (title_ok : bool) (c : chrome_launch) (now : Q)
    (* another caller of acquire() checks the session it locked *)
| A_release (r : ref) (now : Q)            (* pool.release(inst) *)
| A_start_instance (r : ref) (c : chrome_launch)   (* thread _start_instance *)
| A_warmup_perm (r : ref) (warm : bool)    (* thread _warmup_perm *)
| A_idle_reaper (now : Q)                  (* one turn of the reaper *)
| A_shutdown                               (* pool.shutdown() *)
| A_watchdog (r : ref)                     (* the timer thread: inst.quit() *)
| A_cookies (r : ref) (autodoc realoem : bool).
    (* _handle_cookies / handle_realoem_cookie set a flag to True *)

Definition cookies_handled (r : ref) (a b : bool) (w : World) : World :=
  match heap w !! r with
  | Some i => store r (set_cookies (autodoc_cookie_handled i || a)
                         (realoem_cookie_handled i || b) i) w
  | None => w
  end.

Definition run_action (a : action) (w : World) : World :=
  match a with
  | A_acquire_locked spawned now => world_after (acquire_locked spawned now w)
  | A_acquire_checked r ok c now => (acquire_checked r ok c now w).2
  | A_release r now => (release r now w).2
  | A_start_instance r c => (_start_instance r c w).2
  | A_warmup_perm r warm => (_warmup_perm r warm w).2
  | A_idle_reaper now => (_idle_reaper now w).2
  | A_shutdown => shutdown w
  | A_watchdog r => inst_quit r w
  | A_cookies r a b => cookies_handled r a b w
  end.

Definition run_actions (l : list action) (w : World) : World :=
  foldl (λ w a, run_action a w) w l.

(** ** status() *)

(* whether a step passes through [with self._lock:]; such a step waits
   while another thread holds the registry lock.  _start_instance takes the
   registry lock only when Chrome fails. *)
Definition takes_registry_lock (a : action) : bool :=
  match a with
  | A_acquire_locked _ _ | A_idle_reaper _ | A_shutdown => true
  | A_start_instance _ c =>
      match launch_driver c with
      | Launched _ => false
      | LaunchFailed _ _ => true
      end
  | A_acquire_checked _ _ _ _ | A_release _ _ | A_warmup_perm _ _
  | A_watchdog _ | A_cookies _ _ _ => false
  end.

(* one generator expression of status(), sum(1 for i in self._instances if
   test(i)): the sessions are read one after the other; [k] numbers the
   reads of the whole call, and before read [k] the other threads take the
   steps [others k] *)
Fixpoint count_reads (test : gmap ref BrowserInstance → ref → bool) (l : list ref)
    (others : nat → list action) (k : nat) (w : World) : nat * World :=
  match l with
  | [] => (0, w)
  | r :: l' =>
      let w1 := run_actions (others k) w in
      let '(n, w2) := count_reads test l' others (S k) w1 in
      ((if test (heap w1) r then 1 else 0) + n, w2)
  end.

(* status(): the dict and the state at the return.  The registry lock is
   held throughout, the locks of the sessions are not: [others] are the
   steps of the threads that do not wait for the registry lock. *)
Definition status (others : nat → list action) (w : World) : gmap string nat * World :=
  let w := emit [EvRegistryLock] w in
  let l := _instances w in
  let total := length l in
  let '(busy, w) := count_reads locked l others 0 w in
  let '(idle, w) := count_reads (λ h r, negb (locked h r)) l others total w in
  let '(perm, w) := count_reads is_permanent l others (2 * total) w in
  let '(temp, w) :=
    count_reads (λ h r, negb (is_permanent h r)) l others (3 * total) w in
  (<["total" := total]>
   (<["busy" := busy]>
   (<["idle" := idle]>
   (<["permanent" := perm]>
   (<["temp" := temp]> ∅)))),
   emit [EvRegistryUnlock] w).

(* no other thread moves *)
Definition no_steps : nat → list action := λ _, [].

(* between the two counts of locks, at the read number 1 of the call, the
   thread _warmup_perm of session 1 ends and frees the lock *)
Definition racing_steps : nat → list action :=
  λ k, if k =? 1 then [A_warmup_perm 1 true] else [].

(** ** acquire() *)

(* what one turn of the while loop of acquire() observes *)
Record tick := {
  others : list action;     (* steps of other threads since the last turn *)
  t_while : Q;              (* time.time() in the loop test *)
  t_init : Q;               (* time.time() in BrowserInstance.__init__ *)
  title_ok : bool;          (* does driver.title answer in is_alive() *)
  relaunch : chrome_launch; (* Driver(...) in revive() *)
  t_touch : Q               (* time.time() in touch() *)
}.

(* the while loop; [None] when the schedule ends before the loop does.
   The list in the answer holds the instances this call created. *)
Fixpoint acquire_loop (deadline : Q) (spawned : bool) (sched : list tick) (w : World)
  : option (result ref * list ref * World) :=
  match sched with
  | [] => None
  | e :: rest =>
      let w := run_actions (others e) w in
      if Qltb (t_while e) deadline then
        let p := acquire_locked spawned (t_init e) w in
        match inst p with
        | Some r =>
            let '(res, w') :=
              acquire_checked r (title_ok e) (relaunch e) (t_touch e) (world_after p) in
            Some (res, option_list (new_inst p), w')
        | None =>
            match acquire_loop deadline (spawned_after p) rest (world_after p) with
            | Some (res, created, w') => Some (res, option_list (new_inst p) ++ created, w')
            | None => None
            end
        end
      else Some (Raise PoolTimeout, [], w)
  end.

(* acquire(timeout); [t0] is the time.time() reading of line 194 *)
Definition acquire (timeout : Q) (t0 : Q) (sched : list tick) (w : World)
  : option (result ref * list ref * World) :=
  acquire_loop (t0 + timeout)%Q false sched w.

(** ** The /scrape handler *)

Record BarcodeRequest := {
  request_barcode : string;
  request_scraper : string
}.

(* the scraped fields *)
Definition Dict := list (string * string).

Record ProductResponse := mkProductResponse {
  success : bool;
  barcode : string;
  scraper : string;
  data : option Dict;
  error : option string
}.

Inductive http :=
| Ok (p : ProductResponse)                          (* 200 *)
| HTTPException (status_code : nat) (detail : string)
| Unhandled (e : exn).                              (* left to the framework *)

(* str.isspace() on an ASCII character *)
Definition isspace (c : ascii) : bool :=
  let n := nat_of_ascii c in
  (9 <=? n) && (n <=? 13) || (28 <=? n) && (n <=? 32).

Fixpoint lstrip (s : string) : string :=
  match s with
  | String c s' => if isspace c then lstrip s' else s
  | EmptyString => EmptyString
  end.

(* str.strip(), for ASCII text *)
Definition strip (s : string) : string :=
  String.rev (lstrip (String.rev (lstrip s))).

Definition lower_char (c : ascii) : ascii :=
  let n := nat_of_ascii c in
  if (65 <=? n) && (n <=? 90) then ascii_of_nat (n + 32) else c.

(* str.lower(), for ASCII text *)
Fixpoint lower (s : string) : string :=
  match s with
  | String c s' => String (lower_char c) (lower s')
  | EmptyString => EmptyString
  end.

(* when the watchdog timer of a lease runs, seen from the handler *)
Inductive watchdog :=
| Cancelled      (* timer.cancel() came first: _watchdog never runs *)
| FiredBefore    (* timed_out was set before the handler tests it *)
| FiredAfter.    (* _watchdog started before cancel() but set timed_out
                    only after the handler had tested it *)

Record scrape_env := {
  t_call : Q;                       (* time.time() on entry of acquire() *)
  sched : list tick;                (* the turns of acquire() *)
  cookies : bool * bool;            (* flags set to True by the scrapers *)
  run : result ProductResponse;     (* what _run_scrape(...) answers *)
  timer : watchdog;
  t_release : Q                     (* time.time() in release() *)
}.

Definition timeout_of (scraper : string) : nat :=
  if bool_decide (scraper = "realoem") then REALOEM_TIMEOUT else AUTODOC_TIMEOUT.

Definition timeout_response (barcode scraper : string) (timeout : nat) : ProductResponse :=
  mkProductResponse false barcode scraper None
    (Some ("Scrape timed out after " +:+ pretty timeout +:+ "s")).

(* scrape_barcode(), lines 1025-1051: from the answer of _run_scrape and
   the state of timed_out to the value returned *)
Definition watched_response (barcode scraper : string) (timeout : nat)
    (run : result ProductResponse) (timed_out : bool) : ProductResponse :=
  match run with
  | Return result =>
      if negb (success result) && timed_out
      then timeout_response barcode scraper timeout
      else result
  | Raise e =>
      if timed_out then timeout_response barcode scraper timeout
      else mkProductResponse false barcode scraper None (Some (str e))
  end.

(* scrape_barcode(request) *)
Definition scrape_barcode (request : BarcodeRequest) (env : scrape_env) (w : World)
  : option (http * World) :=
  let barcode := strip (request_barcode request) in
  let scraper := lower (request_scraper request) in
  if bool_decide (barcode = "") then
    Some (HTTPException 400 "Barcode cannot be empty", w)
  else if negb (bool_decide (scraper ∈ ["autodoc"; "realoem"])) then
    Some (HTTPException 400 "Scraper must be 'autodoc' or 'realoem'", w)
  else
    let timeout := timeout_of scraper in
    match acquire 30 (t_call env) (sched env) w with
    | None => None
    | Some (Raise e, _, w) =>
        if isinstance_RuntimeError e
        then Some (HTTPException 503 "All scrapers busy, please retry in a moment", w)
        else Some (Unhandled e, w)
    | Some (Return inst, _, w) =>
        let w := cookies_handled inst (cookies env).1 (cookies env).2 w in
        let timed_out := match timer env with FiredBefore => true | _ => false end in
        let w := if timed_out then inst_quit inst w else w in
        let response := watched_response barcode scraper timeout (run env) timed_out in
        let '(released, w) := release inst (t_release env) w in
        let w := match timer env with FiredAfter => inst_quit inst w | _ => w end in
        match released with
        | Return _ => Some (Ok response, w)
        | Raise e => Some (Unhandled e, w)
        end
    end.

(** ** The states the server goes through *)

(* lifespan(): pool.start() runs once, on the pool of the fresh module,
   before any request is served; from then on the threads take steps *)
Inductive reachable : World → Prop :=
| reach_startup c now res w :
    pool_start c now fresh_world = (res, w) → reachable w
| reach_step a w :
    reachable w → reachable (run_action a w).

(** ** Auxiliary notions used in the statements *)

(* what the steps that do not take the registry lock can do to a state:
   the registry stays, a lock is at most freed, the kinds stay *)
Definition lock_free_step (w w' : World) : Prop :=
  _instances w' = _instances w ∧
  (∀ r, locked (heap w') r = true → locked (heap w) r = true) ∧
  (∀ r, is_permanent (heap w') r = is_permanent (heap w) r).

(* the pass through the registry lock of the turn [e] of acquire(), begun in
   the state [w] with the flag [spawned]: the other threads move first *)
Definition turn_pass (spawned : bool) (e : tick) (w : World) : locked_pass :=
  acquire_locked spawned (t_init e) (run_actions (others e) w).

(* the flag [spawned] and the state after the turns [sched] of acquire(),
   for turns that obtained no session *)
Fixpoint after_turns (spawned : bool) (sched : list tick) (w : World) : bool * World :=
  match sched with
  | [] => (spawned, w)
  | e :: rest =>
      let p := turn_pass spawned e w in
      after_turns (spawned_after p) rest (world_after p)
  end.


(* release(inst) called once per time reading, one call after the other *)
Definition releases (r : ref) (nows : list Q) (w : World) : World :=
  foldl (λ w now, (release r now w).2) w nows.

(* the calls inst.quit() makes: nothing that touches the registry *)
Definition teardown_event (e : event) : bool :=
  match e with
  | EvQuit _ | EvDriverQuit _ | EvKill _ => true
  | _ => false
  end.

(* every session of the registry is leased: no lock.acquire(blocking=False)
   of a scan can succeed *)
Definition all_busy (w : World) : Prop :=
  ∀ r i, r ∈ _instances w → heap w !! r = Some i → lock i = true.

(* "no session's lock is obtained before the deadline": turn after turn the
   clock reads less than the deadline and the turn finds every session busy
   (and may spawn), until a turn reads the deadline or more.  The last
   argument is the state at that moment. *)
Inductive starved (deadline : Q) : bool → list tick → World → World → Prop :=
| starved_deadline sp e rest w :
    (deadline <= t_while e)%Q →
    starved deadline sp (e :: rest) w (run_actions (others e) w)
| starved_turn sp e rest w w' :
    (t_while e < deadline)%Q →
    all_busy (run_actions (others e) w) →
    starved deadline
      (spawned_after (acquire_locked sp (t_init e) (run_actions (others e) w)))
      rest
      (world_after (acquire_locked sp (t_init e) (run_actions (others e) w)))
      w' →
    starved deadline sp (e :: rest) w w'.

(* a request that passes the two checks at the top of scrape_barcode() *)
Definition well_formed (request : BarcodeRequest) : Prop :=
  strip (request_barcode request) ≠ "" ∧
  lower (request_scraper request) ∈ ["autodoc"; "realoem"].

(** ** Sample inputs *)

Definition chrome_ok (d : Driver) : chrome_launch :=
  {| launch_driver := Launched d; launch_pid := Some (100 + d) |}.

Definition chrome_fails : chrome_launch :=
  {| launch_driver := LaunchFailed false "session not created";
     launch_pid := None |}.

(* a temporary session that was started and is leased *)
Definition sample_instance : BrowserInstance :=
  mkBrowserInstance 2 false true (Some 7) (Some 7) true true 5%Q true (Some 107).

(* the server after start-up with a working Chrome *)
Definition started_world : World := (pool_start (chrome_ok 1) 0%Q fresh_world).2.

(* a turn of acquire() during which no other thread moves *)
Definition quiet_tick (t : Q) : tick :=
  {| others := []; t_while := t; t_init := t; title_ok := true;
     relaunch := chrome_ok 9; t_touch := t |}.

(* a turn before which the starter thread of session [r] has run *)
Definition tick_after_start (t : Q) (r : ref) : tick :=
  {| others := [A_start_instance r (chrome_ok r)]; t_while := t; t_init := t;
     title_ok := true; relaunch := chrome_ok 9; t_touch := t |}.

Definition sample_request : BarcodeRequest :=
  {| request_barcode := " 34116860912 "; request_scraper := "RealOEM" |}.

Definition sample_product : ProductResponse :=
  mkProductResponse true "34116860912" "realoem"
    (Some [("part_number", "34116860912")]) None.

(* every session stays busy for the 30 s the handler waits *)
Definition env_busy : scrape_env :=
  {| t_call := 0; sched := [quiet_tick 1; quiet_tick 2; quiet_tick 31];
     cookies := (false, false); run := Return sample_product;
     timer := Cancelled; t_release := 40 |}.

(* the scrape succeeds and the watchdog fires all the same *)
Definition env_late_watchdog : scrape_env :=
  {| t_call := 0; sched := [quiet_tick 1; tick_after_start 2 2];
     cookies := (false, true); run := Return sample_product;
     timer := FiredBefore; t_release := 310 |}.

(* the world a call of acquire() leaves, whatever it answers *)
Definition world_of (o : option (result ref * list ref * World)) (w : World) : World :=
  match o with Some (_, _, w') => w' | None => w end.

(* capacity 3, one permanent session: two callers have each spawned and
   leased a temporary session, and the permanent one is still warming up *)
Definition two_leased : World :=
  world_of (acquire 30 0 [quiet_tick 1; tick_after_start 2 2] started_world)
    started_world.
Definition pool_full : World :=
  world_of (acquire 30 2 [quiet_tick 3; tick_after_start 4 3] two_leased) two_leased.

(* a turn before which session 2 is released *)
Definition tick_after_release (t : Q) : tick :=
  {| others := [A_release 2 t]; t_while := t; t_init := t; title_ok := true;
     relaunch := chrome_ok 9; t_touch := t |}.

(** ** Notions for the pool as a whole *)

(* two states of one session object: the same id and the same kind *)
Definition same_identity (i i' : BrowserInstance) : Prop :=
  id i' = id i ∧ permanent i' = permanent i.

(* no object is created or lost, and each keeps its identity *)
Definition keeps_identity (w w' : World) : Prop :=
  _id_counter w' = _id_counter w ∧
  ∀ r : ref, match heap w !! r, heap w' !! r with
       | Some i, Some i' => same_identity i i'
       | None, None => True
       | _, _ => False
       end.

(* ids name the objects, only the first object is permanent, and the
   registry lists existing objects without repetition *)
Definition consistent (w : World) : Prop :=
  (∀ (r : ref) i, heap w !! r = Some i →
          id i = r ∧ 1 ≤ r ≤ _id_counter w ∧ (permanent i = true → r = 1)) ∧
  (∀ r : ref, r ∈ _instances w → is_Some (heap w !! r)) ∧
  NoDup (_instances w).

(** ** Text helpers of the scrapers and of /images (ASCII text) *)

Fixpoint all_chars (P : ascii → bool) (s : string) : bool :=
  match s with
  | EmptyString => true
  | String c s' => P c && all_chars P s'
  end.

(* an ASCII digit *)
Definition is_digit (c : ascii) : bool :=
  let n := nat_of_ascii c in (48 <=? n) && (n <=? 57).

(* c in s, for a character c *)
Fixpoint contains_char (c : ascii) (s : string) : bool :=
  match s with
  | EmptyString => false
  | String a s' => bool_decide (a = c) || contains_char c s'
  end.

(* s.replace(old, new) for one-character old and new *)
Fixpoint replace_char (old new : ascii) (s : string) : string :=
  match s with
  | EmptyString => EmptyString
  | String c s' =>
      String (if bool_decide (c = old) then new else c) (replace_char old new s')
  end.

(* s.split(c)[0] *)
Fixpoint before_first (c : ascii) (s : string) : string :=
  match s with
  | EmptyString => EmptyString
  | String a s' => if bool_decide (a = c) then EmptyString else String a (before_first c s')
  end.

(* s.split(c)[-1], which is also s.rsplit(c, 1)[-1] *)
Fixpoint after_last (c : ascii) (s : string) : string :=
  match s with
  | EmptyString => EmptyString
  | String a s' =>
      if contains_char c s' then after_last c s'
      else if bool_decide (a = c) then s' else s
  end.

(* s.endswith(c) *)
Fixpoint ends_with_char (c : ascii) (s : string) : bool :=
  match s with
  | EmptyString => false
  | String a EmptyString => bool_decide (a = c)
  | String _ s' => ends_with_char c s'
  end.

(* os.path.join(a, b) of posixpath *)
Definition path_join (a b : string) : string :=
  if String.prefix "/" b then b
  else if bool_decide (a = "") || ends_with_char "/" a then a +:+ b
  else a +:+ "/" +:+ b.

(* barcode.replace(" ", "_").replace("/", "-").replace("\\", "-"), in
   get_image and in scrape_product_details *)
Definition sanitize_barcode (barcode : string) : string :=
  replace_char "\" "-" (replace_char "/" "-" (replace_char " " "_" barcode)).

Definition images_folder_of (barcode : string) : string :=
  "images/" +:+ sanitize_barcode barcode.

(** ** GET /images/{barcode}/{image_number} *)

Inductive file_answer :=
| FileResponse (path : string)
| FileError (status_code : nat) (detail : string).

Definition IMAGE_EXTENSIONS : list string := [".jpg"; ".jpeg"; ".png"; ".webp"].

(* os.path.join(image_folder, f"image_{image_number}{ext}") *)
Definition image_path (image_folder : string) (image_number : Z) (ext : string) : string :=
  path_join image_folder ("image_" +:+ pretty image_number +:+ ext).

(* the for loop of get_image; [path_exists] is os.path.exists *)
Fixpoint first_image (path_exists : string → bool) (image_folder : string)
    (image_number : Z) (exts : list string) : file_answer :=
  match exts with
  | [] => FileError 404 "Image not found"
  | ext :: rest =>
      if path_exists (image_path image_folder image_number ext)
      then FileResponse (image_path image_folder image_number ext)
      else first_image path_exists image_folder image_number rest
  end.

(* get_image(barcode, image_number) *)
Definition get_image (path_exists : string → bool) (barcode : string)
    (image_number : Z) : file_answer :=
  first_image path_exists (images_folder_of barcode) image_number IMAGE_EXTENSIONS.

(** ** The image downloads of scrape_product_details (lines 699-722) *)

(* the extension chosen for the file of an image URL *)
Definition image_extension (img_url : string) : string :=
  let url_path := before_first "?" img_url in
  let path_basename := after_last "/" url_path in
  if contains_char "." path_basename
  then "." +:+ after_last "." path_basename
  else ".jpg".

(* for idx, img_url in enumerate(image_urls, 1): ...
   [fetch] is requests.get(img_url, timeout=10): the status code or an
   exception; [write] tells whether open() and f.write() succeed.
   Yields the files written, oldest first, with downloaded_count. *)
Fixpoint download_images (images_folder : string) (fetch : string → result nat)
    (write : string → bool) (image_urls : list string) (downloaded_count : nat)
  : list string * nat :=
  match image_urls with
  | [] => ([], downloaded_count)
  | img_url :: rest =>
      match fetch img_url with
      | Return 200 =>
          let ext := image_extension img_url in
          let filename :=
            images_folder +:+ "/image_" +:+ pretty (downloaded_count + 1) +:+ ext in
          if write filename then
            let '(files, n) :=
              download_images images_folder fetch write rest (downloaded_count + 1) in
            (filename :: files, n)
          else download_images images_folder fetch write rest downloaded_count
      | _ => download_images images_folder fetch write rest downloaded_count
      end
  end.

(** ** The image URLs of scrape_product_details (lines 671-695) *)

(* s.split(sep) for a one-character separator *)
Fixpoint split_on (sep : ascii) (s : string) : list string :=
  match s with
  | EmptyString => [EmptyString]
  | String c s' =>
      if bool_decide (c = sep) then EmptyString :: split_on sep s'
      else match split_on sep s' with
           | p :: ps => String c p :: ps
           | [] => [String c EmptyString]
           end
  end.

(* s.split(): the maximal runs of characters that are not white space *)
Fixpoint split_ws (s : string) : list string :=
  match s with
  | EmptyString => []
  | String c s' =>
      if isspace c then split_ws s'
      else match s' with
           | EmptyString => [String c EmptyString]
           | String d _ =>
               if isspace d then String c EmptyString :: split_ws s'
               else match split_ws s' with
                    | w :: ws => String c w :: ws
                    | [] => [String c EmptyString]
                    end
           end
  end.

(* for part in reversed(parts): tokens = part.split(); if tokens: return tokens[0] *)
Fixpoint first_token (parts : list string) : option string :=
  match parts with
  | [] => None
  | part :: rest =>
      match split_ws part with
      | t :: _ => Some t
      | [] => first_token rest
      end
  end.

(* _best_url_from_srcset(srcset_str); None is Python's None *)
Definition _best_url_from_srcset (srcset_str : option string) : option string :=
  match srcset_str with
  | None => None
  | Some s =>
      if bool_decide (s = "") then None
      else
        let parts :=
          List.filter (λ p, negb (bool_decide (p = ""))) (strip <$> split_on "," s) in
        first_token (rev parts)
  end.

(* the three attributes read from an <img> element *)
Record img_elem := {
  attr_srcset : option string;
  attr_data_srcset : option string;
  attr_src : option string
}.

(* a or b, on values that are None or a string *)
Definition py_or (a b : option string) : option string :=
  match a with
  | Some (String _ _) => a
  | _ => b
  end.

Definition img_url_of (e : img_elem) : option string :=
  py_or (py_or (_best_url_from_srcset (attr_srcset e))
               (_best_url_from_srcset (attr_data_srcset e)))
        (attr_src e).

(* the loop that fills image_urls, given seen_urls *)
Fixpoint collect_image_urls (img_elems : list img_elem) (seen_urls : gset string)
  : list string :=
  match img_elems with
  | [] => []
  | e :: rest =>
      match img_url_of e with
      | Some img_url =>
          if negb (bool_decide (img_url = "")) && String.prefix "http" img_url
             && negb (bool_decide (img_url ∈ seen_urls))
          then img_url :: collect_image_urls rest ({[img_url]} ∪ seen_urls)
          else collect_image_urls rest seen_urls
      | None => collect_image_urls rest seen_urls
      end
  end.

(** ** get_first_product_link (lines 467-505) *)

(* the element whose link is read; get_attribute answers None or a string *)
Record link_elem := {
  attr_href : result (option string);
  attr_data_link : result (option string)
}.

(* what find_element answers inside one listing item *)
Record listing_item := {
  find_name : result link_elem;     (* .listing-item__name *)
  find_alt : result link_elem;      (* a.listing-item__name, [data-link] *)
  find_a : result link_elem         (* the first <a> *)
}.

(* what find_elements answers on the page of search results *)
Record search_page := {
  listing_items : result (list listing_item);   (* .listing-item__wrap *)
  alt_items : result (list listing_item)        (* .listing-item, [data-product-id] *)
}.

(* the nested try/except that looks for the link of an item *)
Definition title_link_of (first_item : listing_item) : result link_elem :=
  match find_name first_item with
  | Return t => Return t
  | Raise _ =>
      match find_alt first_item with
      | Return t => Return t
      | Raise _ => find_a first_item
      end
  end.

(* href = get_attribute("href") or get_attribute("data-link") *)
Definition href_of (title_link : link_elem) : result (option string) :=
  match attr_href title_link with
  | Raise e => Raise e
  | Return (Some (String a h)) => Return (Some (String a h))
  | Return _ => attr_data_link title_link
  end.

(* if href and "#" in href: href = href.split("#")[0] *)
Definition drop_fragment (href : option string) : option string :=
  match href with
  | Some h =>
      if negb (bool_decide (h = "")) && contains_char "#" h
      then Some (before_first "#" h) else Some h
  | None => None
  end.

(* what follows first_item = listing_items[0]; an exception is caught by the
   outer handler, which returns None *)
Definition link_of_first (items : list listing_item) : option string :=
  match items with
  | [] => None
  | first_item :: _ =>
      match title_link_of first_item with
      | Raise _ => None
      | Return title_link =>
          match href_of title_link with
          | Raise _ => None
          | Return href => drop_fragment href
          end
      end
  end.

Definition get_first_product_link (page : search_page) : option string :=
  match listing_items page with
  | Raise _ => None
  | Return [] =>
      match alt_items page with
      | Raise _ => None
      | Return [] => None
      | Return alt => link_of_first alt
      end
  | Return items => link_of_first items
  end.

(** ** _kill_orphaned_chromedrivers (lines 316-340) *)

Definition KILL_TARGETS : list string :=
  ["chromedriver"; "Google Chrome for Testing"].

(* pids of one target: the tokens of pgrep's output, without the pid of
   this process *)
Definition orphan_pids (stdout current_pid : string) : list string :=
  let pids := List.filter (λ p, negb (bool_decide (p = ""))) (split_ws (strip stdout)) in
  List.filter (λ p, negb (bool_decide (p = current_pid))) pids.

(* the kill -9 commands run, as (target, pid), in order; [pgrep target] is
   the output of pgrep -f target, or the exception of subprocess.run, which
   is logged *)
Definition _kill_orphaned_chromedrivers (pgrep : string → result string)
    (current_pid : string) : list (string * string) :=
  flat_map (λ target,
              match pgrep target with
              | Return stdout => (λ pid, (target, pid)) <$> orphan_pids stdout current_pid
              | Raise _ => []
              end) KILL_TARGETS.

(** ** The RealOEM scraper (lines 821-935) and its branch of _run_scrape *)

Set Warnings "-register-all".

(* the Python values the scraper builds *)
Inductive pyval :=
| PyNone
| PyBool (b : bool)
| PyInt (n : nat)
| PyStr (s : string)
| PyDict (items : list (string * pyval)).

Fixpoint assoc_get (k : string) (items : list (string * pyval)) : option pyval :=
  match items with
  | [] => None
  | (k', v) :: rest => if bool_decide (k' = k) then Some v else assoc_get k rest
  end.

(* d.get(k, dflt) *)
Definition py_get (k : string) (dflt : pyval) (d : pyval) : pyval :=
  match d with
  | PyDict items => default dflt (assoc_get k items)
  | _ => dflt
  end.

(* bool(v) *)
Definition truthy (v : pyval) : bool :=
  match v with
  | PyNone => false
  | PyBool b => b
  | PyInt n => negb (n =? 0)
  | PyStr s => negb (bool_decide (s = ""))
  | PyDict items => negb (bool_decide (items = []))
  end.

(* v == False *)
Definition py_eq_False (v : pyval) : bool :=
  match v with
  | PyBool false => true
  | PyInt 0 => true
  | _ => false
  end.

(* s or None *)
Definition str_or_none (s : option string) : pyval :=
  match s with
  | Some (String a r) => PyStr (String a r)
  | _ => PyNone
  end.

(* a character of the ASCII range *)
Definition is_ascii_char (c : ascii) : bool := nat_of_ascii c <? 128.

(* re.sub(r'\D', '', s) on a string of ASCII characters: the digits 0 to 9
   are kept, in their order.  [None] on a string with any other character:
   \D spares every Unicode decimal digit, and such strings are left out of
   the model. *)
Fixpoint digits_of (s : string) : option string :=
  match s with
  | EmptyString => Some EmptyString
  | String c s' =>
      if is_ascii_char c then
        match digits_of s' with
        | Some d => Some (if is_digit c then String c d else d)
        | None => None
        end
      else None
  end.

(* needle in s *)
Fixpoint contains_sub (needle s : string) : bool :=
  String.prefix needle s ||
  match s with
  | EmptyString => false
  | String _ s' => contains_sub needle s'
  end.

(* an exception that reaches the outer handler: type(e).__name__ and str(e) *)
Inductive raised := Raised (type_name msg : string).

(* what the browser answers during one scrape *)
Record realoem_page := {
  navigate_search : option raised;   (* inst.driver.get(url): None when it returns *)
  error_banner : option string;      (* text of div.error.vs2; None when the lookup raises *)
  heading : option (string * string);
      (* texts of div.content h1 and h2; None when a lookup raises *)
  part_details : gmap string string; (* the dict as the dt/dd loop left it *)
  vehicle_links : list (string * option string);
      (* text and href of the links, as far as the loop got *)
  navigate_vehicle : option raised;  (* inst.driver.get(first_vehicle_url) *)
  first_vehicle_text : option string
      (* text of the first entry of partSearchResults; None when the wait
         or a lookup raises *)
}.

Definition error_dict (msg : string) : pyval :=
  PyDict [("success", PyBool false); ("error", PyStr msg)].

(* f"{error_type}: {error_msg}" with error_msg = str(e).split('\n')[0][:200] *)
Definition outer_error (e : raised) : string :=
  match e with
  | Raised type_name msg =>
      type_name +:+ ": " +:+ String.substring 0 200 (before_first "010" msg)
  end.

Definition not_found_dict (error_text : string) : pyval :=
  PyDict [("product", PyDict [("part_number", PyStr "NOT FOUND");
                              ("description", PyStr error_text)]);
          ("pricing", PyDict [("price", PyNone)]);
          ("details", PyDict [("from_date", PyNone); ("to_date", PyNone);
                              ("weight", PyNone)]);
          ("compatibility", PyDict [("vehicle_count", PyInt 0);
                                    ("first_vehicle_tags", PyNone)])].

Definition data_dict (page : realoem_page) (part_number description vehicle_tags : string)
  : pyval :=
  PyDict [("product", PyDict [("part_number", PyStr part_number);
                              ("description", PyStr description)]);
          ("pricing", PyDict [("price", str_or_none (part_details page !! "Price"))]);
          ("details", PyDict [("from_date", str_or_none (part_details page !! "From"));
                              ("to_date", str_or_none (part_details page !! "To"));
                              ("weight", str_or_none (part_details page !! "Weight"))]);
          ("compatibility",
           PyDict [("vehicle_count", PyInt (length (vehicle_links page)));
                   ("first_vehicle_tags", str_or_none (Some vehicle_tags))])].

(* the "not found" banner, stripped, when the page shows one *)
Definition not_found_banner (page : realoem_page) : option string :=
  match error_banner page with
  | Some text =>
      let error_text := strip text in
      if contains_sub "not found" (lower error_text) then Some error_text else None
  | None => None
  end.

(* vehicle_tags after the second page was loaded *)
Definition vehicle_tags_of (page : realoem_page) : string :=
  match first_vehicle_text page with
  | Some text =>
      let full_text := strip text in
      if contains_char ":" full_text then strip (before_first ":" full_text)
      else full_text
  | None => "N/A"
  end.

(* scrape_realoem_barcode(inst, barcode) from numeric_barcode on: the dict
   returned and the arguments of inst.driver.get, in order *)
Definition scrape_realoem_numeric (page : realoem_page) (numeric_barcode : string)
  : pyval * list (option string) :=
  if bool_decide (numeric_barcode = "")
  then (error_dict "Invalid barcode - no numeric digits found", [])
  else
    let url := "https://www.realoem.com/bmw/enUS/partxref?q=" +:+ numeric_barcode in
    match navigate_search page with
    | Some e => (error_dict (outer_error e), [Some url])
    | None =>
        match not_found_banner page with
        | Some error_text => (not_found_dict error_text, [Some url])
        | None =>
            match heading page with
            | None =>
                (error_dict "Content failed to load (timeout or popup blocking)",
                 [Some url])
            | Some (part_number, description) =>
                match vehicle_links page with
                | [] => (data_dict page part_number description "", [Some url])
                | (_, first_vehicle_url) :: _ =>
                    match navigate_vehicle page with
                    | Some e =>
                        (error_dict (outer_error e), [Some url; first_vehicle_url])
                    | None =>
                        (data_dict page part_number description (vehicle_tags_of page),
                         [Some url; first_vehicle_url])
                    end
                end
            end
        end
    end.

(* scrape_realoem_barcode(inst, barcode), for a barcode of ASCII characters *)
Definition scrape_realoem_barcode (page : realoem_page) (barcode : string)
  : option (pyval * list (option string)) :=
  match digits_of barcode with
  | Some numeric_barcode => Some (scrape_realoem_numeric page numeric_barcode)
  | None => None
  end.

(* the arguments of ProductResponse(...) as _run_scrape passes them *)
Record Response := mkResponse {
  r_success : bool;
  r_barcode : string;
  r_scraper : string;
  r_data : option pyval;
  r_error : pyval
}.

(* _run_scrape(inst, barcode, "realoem") *)
Definition _run_scrape_realoem (page : realoem_page) (barcode : string)
  : option Response :=
  match scrape_realoem_barcode page barcode with
  | None => None
  | Some (result, _) =>
      if py_eq_False (py_get "success" PyNone result)
         || truthy (py_get "error" PyNone result)
      then Some (mkResponse false barcode "realoem" None
                   (py_get "error" (PyStr "Failed to scrape RealOEM") result))
      else Some (mkResponse true barcode "realoem" (Some result) PyNone)
  end.

(** ** _wait_for_cloudflare (lines 343-360) *)

(* one turn of the loop: the time.time() of the loop test and what
   inst.driver.title answers *)
Record poll := {
  poll_now : Q;
  poll_title : result string
}.

(* "Just a moment" in title or "Checking your browser" in title *)
Definition challenge (title : string) : bool :=
  contains_sub "Just a moment" title || contains_sub "Checking your browser" title.

(* the turn goes on to the next one: the title cannot be read or shows
   the challenge *)
Definition blocked (p : poll) : bool :=
  match poll_title p with
  | Raise _ => true
  | Return title => challenge title
  end.

Definition in_time (start max_wait : Q) (p : poll) : bool :=
  Qltb (poll_now p - start) max_wait.

(* [start] is the first time.time(); [None] when the turns end before the
   loop does *)
Fixpoint _wait_for_cloudflare (start max_wait : Q) (polls : list poll) : option bool :=
  match polls with
  | [] => None
  | p :: rest =>
      if Qltb (poll_now p - start) max_wait then
        match poll_title p with
        | Raise _ => _wait_for_cloudflare start max_wait rest
        | Return title =>
            if challenge title then _wait_for_cloudflare start max_wait rest
            else Some true
        end
      else Some false
  end.

(** ** _handle_cookies (lines 363-379) and warmup_autodoc (lines 117-126) *)

(* what is asked of the browser, title reads apart *)
Inductive browser_op :=
| OpGet (url : string)        (* driver.get(url) *)
| OpCookieButton.             (* waiting for the consent button and clicking it *)

(* _handle_cookies(inst); [click] is the outcome of the try block *)
Definition _handle_cookies (click : result unit) (inst : BrowserInstance)
  : BrowserInstance * list browser_op :=
  if autodoc_cookie_handled inst then (inst, [])
  else
    match click with
    | Return _ => (set_cookies true (realoem_cookie_handled inst) inst, [OpCookieButton])
    | Raise _ => (set_cookies true (realoem_cookie_handled inst) inst, [OpCookieButton])
    end.

(* self.warmup_autodoc(), under self._warmup_lock; [get] is what
   self.driver.get(...) does, [start] and [polls] are the clock and the
   titles seen by _wait_for_cloudflare(self) *)
Definition warmup_autodoc (get : result unit) (start : Q) (polls : list poll)
    (click : result unit) (self : BrowserInstance)
  : option (result unit * BrowserInstance * list browser_op) :=
  if autodoc_cookie_handled self then Some (Return tt, self, [])
  else
    match get with
    | Raise e => Some (Raise e, self, [OpGet "https://www.autodoc.co.uk/"])
    | Return _ =>
        match _wait_for_cloudflare start 60 polls with
        | None => None
        | Some _ =>
            let '(self', ops) := _handle_cookies click self in
            Some (Return tt, self', OpGet "https://www.autodoc.co.uk/" :: ops)
        end
    end.

(** ** The autodoc branch of _run_scrape (lines 1067-1091) *)

(* what the browser and the clock answer during one run *)
Record autodoc_run := {
  warm_get : result unit;          (* driver.get of the home page, in warmup_autodoc *)
  warm_start : Q;
  warm_polls : list poll;
  warm_click : result unit;
  search_get : result unit;        (* inst.driver.get(url) *)
  body_wait : result unit;         (* inst.wait.until(presence of body) *)
  cf_start : Q;
  cf_polls : list poll;
  cookie_click : result unit;
  results : search_page;
  product_details : string → result pyval
      (* scrape_product_details(inst, product_link, barcode), which begins
         with inst.driver.get(product_link) *)
}.

(* the handler of _run_scrape *)
Definition failed_response (barcode scraper : string) (e : exn) : Response :=
  mkResponse false barcode scraper None (PyStr (str e)).

(* _run_scrape(inst, barcode, scraper) for scraper != "realoem"; [None]
   when the turns of a wait for Cloudflare end before the loop does *)
Definition _run_scrape_autodoc (env : autodoc_run) (barcode scraper : string)
    (inst : BrowserInstance) : option (Response * BrowserInstance * list browser_op) :=
  match warmup_autodoc (warm_get env) (warm_start env) (warm_polls env)
          (warm_click env) inst with
  | None => None
  | Some (Raise e, inst1, ops1) => Some (failed_response barcode scraper e, inst1, ops1)
  | Some (Return _, inst1, ops1) =>
      let url := "https://www.autodoc.co.uk/spares-search?keyword=" +:+ barcode in
      match search_get env with
      | Raise e => Some (failed_response barcode scraper e, inst1, ops1 ++ [OpGet url])
      | Return _ =>
          match body_wait env with
          | Raise e => Some (failed_response barcode scraper e, inst1, ops1 ++ [OpGet url])
          | Return _ =>
              match _wait_for_cloudflare (cf_start env) 60 (cf_polls env) with
              | None => None
              | Some _ =>
                  let '(inst2, ops2) := _handle_cookies (cookie_click env) inst1 in
                  match get_first_product_link (results env) with
                  | Some (String a l) =>
                      let product_link := String a l in
                      let ops := ops1 ++ [OpGet url] ++ ops2 ++ [OpGet product_link] in
                      match product_details env product_link with
                      | Return product_data =>
                          Some (mkResponse true barcode scraper (Some product_data) PyNone,
                                inst2, ops)
                      | Raise e => Some (failed_response barcode scraper e, inst2, ops)
                      end
                  | _ =>
                      Some (mkResponse false barcode scraper None
                              (PyStr "No product found for this barcode"),
                            inst2, ops1 ++ [OpGet url] ++ ops2)
                  end
              end
          end
      end
  end.

(* a run on a warm session: the first result links to a product page *)
Definition sample_autodoc_run : autodoc_run :=
  {| warm_get := Return tt; warm_start := 0; warm_polls := []; warm_click := Return tt;
     search_get := Return tt; body_wait := Return tt;
     cf_start := 0;
     cf_polls := [ {| poll_now := 1; poll_title := Return "Autodoc" |} ];
     cookie_click := Return tt;
     results :=
       {| listing_items :=
            Return [ {| find_name :=
                          Return {| attr_href :=
                                      Return (Some "https://www.autodoc.co.uk/p/1#top");
                                    attr_data_link := Return None |};
                        find_alt := Raise (External false "no such element");
                        find_a := Raise (External false "no such element") |} ];
          alt_items := Return [] |};
     product_details := λ _, Return (PyDict []) |}.

(* requests that fail a check at the top of scrape_barcode() *)
Definition blank_request : BarcodeRequest :=
  {| request_barcode := "   "; request_scraper := "nothing" |}.

Definition unknown_scraper_request : BarcodeRequest :=
  {| request_barcode := "34116860912"; request_scraper := "ebay" |}.

(* a result page of RealOEM for a part it does not know *)
Definition sample_realoem_page : realoem_page :=
  {| navigate_search := None; error_banner := Some "Part not found";
     heading := None; part_details := ∅; vehicle_links := [];
     navigate_vehicle := None; first_vehicle_text := None |}.

(** * Properties *)

(** ** BrowserInstance *)

Lemma start_ok c d self :
  launch_driver c = Launched d →
  start c self =
    (Return tt,
     set_service_pid (launch_pid c) (set_alive true (set_driver (Some d) (Some d) self)),
     [EvLaunch c]).
Proof. intros H. unfold start. by rewrite H. Qed.

Lemma start_raises c b msg self :
  launch_driver c = LaunchFailed b msg →
  start c self = (Raise (External b msg), self, [EvLaunch c]).
Proof. intros H. unfold start. by rewrite H. Qed.

Lemma quit_state self :
  _alive (quit self).1 = false ∧ driver (quit self).1 = None ∧
  _service_pid (quit self).1 = match _service_pid self with
                               | Some 0 => Some 0 | _ => None end.
Proof.
  destruct self as [n p l d w a r t al sp]; unfold quit; simpl.
  destruct d as [d|], sp as [[|pid]|]; done.
Qed.

Lemma quit_frame self :
  id (quit self).1 = id self ∧ permanent (quit self).1 = permanent self ∧
  lock (quit self).1 = lock self ∧ last_used (quit self).1 = last_used self ∧
  autodoc_cookie_handled (quit self).1 = autodoc_cookie_handled self ∧
  realoem_cookie_handled (quit self).1 = realoem_cookie_handled self.
Proof.
  destruct self as [n p l d w a r t al sp]; unfold quit; simpl.
  destruct d as [d|], sp as [[|pid]|]; done.
Qed.

Lemma quit_calls_driver_quit self d :
  driver self = Some d → EvDriverQuit d ∈ (quit self).2.
Proof.
  destruct self as [n p l d' w a r t al sp]; unfold quit; simpl. intros ->.
  destruct sp as [[|pid]|]; simpl; set_solver.
Qed.

Lemma is_alive_true ok self :
  (is_alive ok self).1 = true →
  (is_alive ok self).2 = self ∧ _alive self = true ∧ is_Some (driver self).
Proof.
  unfold is_alive. destruct (_alive self) eqn:Ha; simpl; [|done].
  case_bool_decide as Hd; simpl; [|done].
  destruct ok; simpl; done.
Qed.

Lemma is_alive_frame ok self :
  let i := (is_alive ok self).2 in
  id i = id self ∧ permanent i = permanent self ∧ lock i = lock self ∧
  driver i = driver self ∧ last_used i = last_used self ∧
  autodoc_cookie_handled i = autodoc_cookie_handled self ∧
  realoem_cookie_handled i = realoem_cookie_handled self.
Proof.
  unfold is_alive. destruct (_alive self); simpl; [|done].
  case_bool_decide; simpl; [|done]. by destruct ok.
Qed.

Lemma is_alive_dead ok self :
  _alive self = false → is_alive ok self = (false, self).
Proof. intros H. unfold is_alive. by rewrite H. Qed.



(** C6, as the code has it.  revive() keeps the id, the permanent flag, the
    lock and last_used; it calls quit() on the old driver and clears both
    cookie flags.  When Driver(...) returns, revive() returns with the new
    driver bound (with its wait object and service pid) and [_alive] set.
    When Driver(...) raises, revive() raises the same exception and leaves
    the session as quit() left it, flags cleared: no driver, [_alive]
    False. *)
Theorem revive_resets_session (c : chrome_launch) (self : BrowserInstance) :
  ∃ res self' evs,
    revive c self = (res, self', evs) ∧
    id self' = id self ∧ permanent self' = permanent self ∧
    lock self' = lock self ∧ last_used self' = last_used self ∧
    autodoc_cookie_handled self' = false ∧
    realoem_cookie_handled self' = false ∧
    (∀ old, driver self = Some old → EvDriverQuit old ∈ evs) ∧
    EvLaunch c ∈ evs ∧
    match launch_driver c with
    | Launched d =>
        res = Return tt ∧
        _alive self' = true ∧
        driver self' = Some d ∧ wait self' = Some d ∧
        _service_pid self' = launch_pid c
    | LaunchFailed b msg =>
        res = Raise (External b msg) ∧
        _alive self' = false ∧
        driver self' = None ∧
        self' = set_cookies false false (quit self).1
    end.
Proof.
  unfold revive.
  destruct (quit self) as [s1 ev1] eqn:Hq.
  destruct (quit_frame self) as (Hid & Hp & Hl & Ht & _).
  assert (Hold : ∀ old, driver self = Some old → EvDriverQuit old ∈ ev1).
  { intros old Hold. pose proof (quit_calls_driver_quit self old Hold) as Hin.
    by rewrite Hq in Hin. }
  assert (Hdead : _alive s1 = false ∧ driver s1 = None).
  { clear -Hq. unfold quit in Hq. destruct self as [n p l [d|] wt a b t al pid];
      simpl in Hq; destruct pid as [[|pid]|]; injection Hq as <- _; done. }
  rewrite Hq in Hid, Hp, Hl, Ht; simpl in *.
  unfold start. destruct (launch_driver c) as [d|b msg] eqn:Hc.
  - eexists _, _, _. split; [done|]. simpl.
    split_and!; try done; [|set_solver].
    intros old Ho. specialize (Hold old Ho). set_solver.
  - eexists _, _, _. split; [done|]. simpl.
    destruct Hdead as (Ha & Hd).
    split_and!; try done; [|set_solver].
    intros old Ho. specialize (Hold old Ho). set_solver.
Qed.

(** C6, as stated, fails when Chrome does not start: the session that held
    driver 7 is left without a driver and with [_alive] False, and revive()
    raises. *)
Lemma revive_without_chrome_leaves_no_driver :
  driver sample_instance = Some 7 ∧
  (revive chrome_fails sample_instance).1.1
    = Raise (External false "session not created") ∧
  driver (revive chrome_fails sample_instance).1.2 = None ∧
  _alive (revive chrome_fails sample_instance).1.2 = false.
Proof. by vm_compute. Qed.

(** ** The store *)

Lemma set_lock_same i : set_lock (lock i) i = i.
Proof. by destruct i. Qed.

Lemma store_same r i w : heap w !! r = Some i → store r i w = w.
Proof.
  intros H. destruct w as [h n l s t]; unfold store, set_heap; simpl in *.
  by rewrite insert_id.
Qed.

Lemma store_store r i j w : store r i (store r j w) = store r i w.
Proof. unfold store, set_heap; simpl. by rewrite insert_insert_eq. Qed.

Lemma heap_store r i w : heap (store r i w) !! r = Some i.
Proof. simpl. apply lookup_insert_eq. Qed.

Lemma heap_store_ne r r' i w : r ≠ r' → heap (store r i w) !! r' = heap w !! r'.
Proof. intros. simpl. by apply lookup_insert_ne. Qed.

(** ** release() *)

Lemma release_quietly_eq r i w :
  heap w !! r = Some i →
  release_quietly r w = (Return tt, store r (set_lock false i) w).
Proof.
  intros H. unfold release_quietly. rewrite H.
  destruct (lock i) eqn:Hl; simpl; [done|].
  rewrite <- Hl, set_lock_same. by rewrite store_same.
Qed.

Lemma release_eq r i now w :
  heap w !! r = Some i →
  release r now w = (Return tt, store r (set_lock false (touch now i)) w).
Proof.
  intros H. unfold release. rewrite H.
  rewrite (release_quietly_eq r (touch now i)); [|apply heap_store].
  by rewrite store_store.
Qed.

Lemma releases_eq r nows : ∀ i now w,
  heap w !! r = Some i →
  releases r (nows ++ [now]) w = store r (set_lock false (touch now i)) w.
Proof.
  induction nows as [|n ns IH]; intros i now w H.
  - unfold releases; simpl. by rewrite (release_eq r i).
  - change (releases r ((n :: ns) ++ [now]) w)
      with (releases r (ns ++ [now]) (release r n w).2).
    rewrite (release_eq r i n w H); simpl.
    rewrite (IH (set_lock false (touch n i))); [|apply heap_store].
    by rewrite store_store.
Qed.

(** C4.  release() never raises, whether the lock is held or already free.
    It first sets last_used to the time of the call, the lock being still as
    it was, and then leaves the lock free: after release() the session reads
    last_used = now and lock free, and nothing else of it has changed.  On a
    lock that is already free only last_used changes.  After any run of
    release() calls the lock is free, last_used is the time of the last call,
    a non-blocking acquire takes the lock, and neither the registry nor
    another session has changed. *)
Theorem release_is_idempotent (r : ref) (i : BrowserInstance) (w : World) :
  heap w !! r = Some i →
  (∀ now,
     release r now w = release_quietly r (store r (touch now i) w) ∧
     last_used (touch now i) = now ∧ lock (touch now i) = lock i ∧
     release r now w = (Return tt, store r (set_lock false (touch now i)) w) ∧
     (lock i = false → release r now w = (Return tt, store r (touch now i) w)) ∧
     ∃ i', heap (release r now w).2 !! r = Some i' ∧
           last_used i' = now ∧ lock i' = false ∧
           id i' = id i ∧ permanent i' = permanent i ∧
           driver i' = driver i ∧ wait i' = wait i ∧
           autodoc_cookie_handled i' = autodoc_cookie_handled i ∧
           realoem_cookie_handled i' = realoem_cookie_handled i ∧
           _alive i' = _alive i ∧ _service_pid i' = _service_pid i) ∧
  (∀ nows now,
     let w' := releases r (nows ++ [now]) w in
     heap w' !! r = Some (set_lock false (touch now i)) ∧
     (∃ i', heap w' !! r = Some i' ∧ last_used i' = now ∧ lock i' = false) ∧
     locked (heap w') r = false ∧
     (scan [r] (heap w')).1 = Some r ∧
     _instances w' = _instances w ∧
     (∀ r', r ≠ r' → heap w' !! r' = heap w !! r')).
Proof.
  intros H. split.
  - intros now. split_and!.
    + unfold release. by rewrite H.
    + done.
    + done.
    + by apply release_eq.
    + intros Hl. rewrite (release_eq r i now w H). do 2 f_equal.
      destruct i; simpl in *; by subst.
    + rewrite (release_eq r i now w H). eexists. split; [apply heap_store|]. done.
  - intros nows now w'. subst w'. rewrite (releases_eq r nows i now w H).
    split_and!.
    + apply heap_store.
    + eexists. split; [apply heap_store|]. done.
    + unfold locked. by rewrite heap_store.
    + simpl. by rewrite lookup_insert_eq.
    + done.
    + intros r' Hne. by apply heap_store_ne.
Qed.

Lemma release_is_idempotent_witness :
  let w := releases 1 [3%Q; 4%Q] started_world in
  locked (heap started_world) 1 = true ∧
  locked (heap w) 1 = false ∧ (scan [1] (heap w)).1 = Some 1 ∧
  ∃ i', heap w !! 1 = Some i' ∧ last_used i' = 4%Q ∧ lock i' = false.
Proof.
  assert (H : heap started_world !! 1 =
              Some (set_lock true
                      (set_service_pid (Some 101)
                         (set_alive true
                            (set_driver (Some 1) (Some 1)
                               (BrowserInstance_init 1 true 0%Q))))))
    by (vm_compute; reflexivity).
  destruct (release_is_idempotent 1 _ started_world H) as [_ Hseq].
  destruct (Hseq [3%Q] 4%Q) as (_ & Hlast & Hfree & Hscan & _).
  split; [vm_compute; reflexivity|].
  split; [exact Hfree|]. split; [exact Hscan | exact Hlast].
Defined.

Lemma filter_split_length {A} (f : A → bool) (l : list A) :
  length (List.filter f l) + length (List.filter (λ x, negb (f x)) l) = length l.
Proof.
  induction l as [|x l IH]; simpl; [done|].
  destruct (f x); simpl; lia.
Qed.

(** ** The idle reaper *)

Lemma Qltb_lt x y : Qltb x y = true ↔ (x < y)%Q.
Proof.
  unfold Qltb. destruct (Qlt_le_dec x y) as [Hlt|Hle]; split; try done.
  intros Hlt. exfalso. by apply (Qlt_not_le x y).
Qed.

Lemma reapable_spec now h r :
  reapable now h r = true ↔
  ∃ i, h !! r = Some i ∧ permanent i = false ∧ lock i = false ∧
       (IDLE_KILL_AFTER < now - last_used i)%Q.
Proof.
  unfold reapable. destruct (h !! r) as [i|]; [|naive_solver].
  rewrite !andb_true_iff, !negb_true_iff, Qltb_lt. naive_solver.
Qed.

Lemma list_remove_first_middle x pre l :
  x ∉ pre → list_remove_first x (pre ++ x :: l) = Return (pre ++ l).
Proof.
  induction pre as [|y pre IH]; intros Hx; simpl.
  - by rewrite bool_decide_eq_true_2.
  - rewrite bool_decide_eq_false_2 by set_solver.
    rewrite IH by set_solver. done.
Qed.

Lemma list_remove_first_length x l l' :
  list_remove_first x l = Return l' → S (length l') = length l.
Proof.
  revert l'. induction l as [|y l IH]; intros l'; simpl; [done|].
  case_bool_decide.
  - by intros [= ->].
  - destruct (list_remove_first x l) as [l''|e]; [|done].
    intros [= <-]. simpl. by rewrite (IH l'').
Qed.

Lemma remove_all_filter (p : ref → bool) l : ∀ pre w,
  _instances w = pre ++ l →
  (∀ x, x ∈ pre → p x = false) →
  ∃ w',
    remove_all (List.filter p l) w = (Return tt, w') ∧
    _instances w' = pre ++ List.filter (λ r, negb (p r)) l ∧
    heap w' = heap w ∧ _id_counter w' = _id_counter w ∧ _stopped w' = _stopped w ∧
    trace w' = trace w ++ (EvRemove <$> List.filter p l).
Proof.
  induction l as [|x l IH]; intros pre w Hw Hpre; simpl.
  - exists w. rewrite Hw. by rewrite !app_nil_r.
  - destruct (p x) eqn:Hpx; simpl.
    + rewrite Hw, list_remove_first_middle; last first.
      { intros Hin. apply Hpre in Hin. congruence. }
      destruct (IH pre (emit [EvRemove x] (set_instances (pre ++ l) w)))
        as (w' & Hrun & Hl & Hh & Hc & Hs & Ht); [done..|].
      exists w'. rewrite Hrun. split_and!; try done.
      rewrite Ht. simpl. by rewrite <- app_assoc.
    + destruct (IH (pre ++ [x]) w) as (w' & Hrun & Hl & Hrest).
      { by rewrite <- app_assoc. }
      { intros y [Hy|Hy]%elem_of_app; [by apply Hpre|]. by set_solver. }
      exists w'. split; [done|]. split; [|done].
      by rewrite Hl, <- app_assoc.
Qed.

Lemma inst_quit_spec r w :
  ∃ tail,
    _instances (inst_quit r w) = _instances w ∧
    _id_counter (inst_quit r w) = _id_counter w ∧
    _stopped (inst_quit r w) = _stopped w ∧
    dom (heap (inst_quit r w)) = dom (heap w) ∧
    trace (inst_quit r w) = trace w ++ tail ∧
    Forall (λ e, teardown_event e = true) tail ∧
    (∀ r', EvQuit r' ∈ tail ↔ r' = r ∧ is_Some (heap w !! r)).
Proof.
  unfold inst_quit. destruct (heap w !! r) as [i|] eqn:Hr.
  - destruct (quit i) as [i' evs] eqn:Hq. exists (EvQuit r :: evs). simpl.
    assert (Hevs : Forall (λ e, teardown_event e = true) evs ∧
                   ∀ r', EvQuit r' ∉ evs).
    { revert Hq. unfold quit.
      destruct (driver (set_alive false i)) as [d|],
               (_service_pid (set_alive false i)) as [[|pid]|];
        intros [= <- <-]; split; try (repeat constructor; done);
        intros r'; set_solver. }
    destruct Hevs as [Hall Hno].
    split_and!; try done.
    + apply dom_insert_lookup_L. by rewrite Hr.
    + by constructor.
    + intros r'. rewrite elem_of_cons. split.
      * intros [[= ->]|Hin]; [by eauto|]. by apply Hno in Hin.
      * intros [-> _]. by left.
  - exists []. rewrite app_nil_r. split_and!; try done.
    intros r'. split; [by intros ?%elem_of_nil|]. by intros [_ [? ?]].
Qed.

Lemma quit_each_spec l : ∀ w,
  ∃ tail,
    _instances (foldl (λ w r, inst_quit r w) w l) = _instances w ∧
    _id_counter (foldl (λ w r, inst_quit r w) w l) = _id_counter w ∧
    _stopped (foldl (λ w r, inst_quit r w) w l) = _stopped w ∧
    dom (heap (foldl (λ w r, inst_quit r w) w l)) = dom (heap w) ∧
    trace (foldl (λ w r, inst_quit r w) w l) = trace w ++ tail ∧
    Forall (λ e, teardown_event e = true) tail ∧
    (∀ r, EvQuit r ∈ tail ↔ r ∈ l ∧ is_Some (heap w !! r)).
Proof.
  induction l as [|x l IH]; intros w; simpl.
  - exists []. rewrite app_nil_r. split_and!; try done.
    intros r. split; [by intros ?%elem_of_nil|]. by intros [?%elem_of_nil _].
  - destruct (inst_quit_spec x w) as (t1 & Hl1 & Hc1 & Hs1 & Hd1 & Ht1 & Hf1 & Hq1).
    destruct (IH (inst_quit x w)) as (t2 & Hl2 & Hc2 & Hs2 & Hd2 & Ht2 & Hf2 & Hq2).
    exists (t1 ++ t2). split_and!; try congruence.
    + rewrite Ht2, Ht1. by rewrite app_assoc.
    + by apply Forall_app.
    + intros r. rewrite elem_of_app, Hq1, Hq2, elem_of_cons.
      rewrite <- !elem_of_dom, Hd1. naive_solver.
Qed.

(** C7.  One turn of the reaper removes from the registry exactly the
    sessions that are not permanent, whose lock is free and whose idle time
    exceeds IDLE_KILL_AFTER; what is left is the registry without them, in
    the same order; a permanent session stays.  The removals lie between
    the lock and the unlock of the registry lock, and every quit() comes
    after the unlock. *)
Theorem idle_reaper_turn (now : Q) (w : World) :
  ∃ w' tail,
    let to_kill := List.filter (reapable now (heap w)) (_instances w) in
    _idle_reaper now w = (Return to_kill, w') ∧
    _instances w'
      = List.filter (λ r, negb (reapable now (heap w) r)) (_instances w) ∧
    (∀ r, r ∈ to_kill ↔
          r ∈ _instances w ∧
          ∃ i, heap w !! r = Some i ∧ permanent i = false ∧ lock i = false ∧
               (IDLE_KILL_AFTER < now - last_used i)%Q) ∧
    (∀ r, r ∈ _instances w' ↔ r ∈ _instances w ∧ r ∉ to_kill) ∧
    (∀ r i, r ∈ _instances w → heap w !! r = Some i → permanent i = true →
            r ∈ _instances w') ∧
    trace w' = trace w ++ [EvRegistryLock] ++ (EvRemove <$> to_kill)
                 ++ [EvRegistryUnlock] ++ tail ∧
    Forall (λ e, teardown_event e = true) tail ∧
    (∀ r, EvQuit r ∈ tail ↔ r ∈ to_kill).
Proof.
  set (p := reapable now (heap w)).
  set (to_kill := List.filter p (_instances w)).
  destruct (remove_all_filter p (_instances w) [] (emit [EvRegistryLock] w))
    as (w1 & Hrun & Hl1 & Hh1 & Hc1 & Hs1 & Ht1); [done|set_solver|].
  destruct (quit_each_spec to_kill (emit [EvRegistryUnlock] w1))
    as (tail & Hl2 & _ & _ & _ & Ht2 & Hf2 & Hq2).
  assert (Hkill : ∀ r, r ∈ to_kill ↔ r ∈ _instances w ∧ p r = true).
  { intros r. unfold to_kill. rewrite !list_elem_of_In. apply filter_In. }
  exists (foldl (λ w r, inst_quit r w) (emit [EvRegistryUnlock] w1) to_kill), tail.
  simpl. split_and!.
  - unfold _idle_reaper. simpl. fold p. fold to_kill in Hrun |- *.
    by rewrite Hrun.
  - by rewrite Hl2.
  - intros r. rewrite Hkill. unfold p. by rewrite reapable_spec.
  - intros r. rewrite Hl2; simpl. rewrite Hl1; simpl.
    rewrite Hkill, !list_elem_of_In, filter_In, negb_true_iff.
    destruct (p r); naive_solver.
  - intros r i Hin Hr Hperm. rewrite Hl2; simpl. rewrite Hl1; simpl.
    rewrite list_elem_of_In. apply filter_In.
    split; [by apply list_elem_of_In|].
    apply negb_true_iff. unfold p, reapable. by rewrite Hr, Hperm.
  - rewrite Ht2; simpl. rewrite Ht1; simpl. by rewrite <- !app_assoc.
  - done.
  - intros r. rewrite Hq2. simpl. rewrite Hh1. simpl. rewrite Hkill.
    split; [naive_solver|]. intros [Hin Hp]. split; [done|].
    apply reapable_spec in Hp as (i & Hi & _). by eexists.
Qed.

(** ** The registry under each step *)

Lemma scan_spec l : ∀ h,
  ((scan l h).1 = None ∧ (scan l h).2 = h ∧
   ∀ r, r ∈ l → ∀ i, h !! r = Some i → lock i = true)
  ∨ (∃ r i, (scan l h).1 = Some r ∧ r ∈ l ∧ h !! r = Some i ∧ lock i = false ∧
            (scan l h).2 = <[r := set_lock true i]> h).
Proof.
  induction l as [|x l IH]; intros h; simpl.
  - left. split_and!; [done..|]. by intros r ?%elem_of_nil.
  - destruct (h !! x) as [i|] eqn:Hx.
    + destruct (lock i) eqn:Hl; simpl.
      * destruct (IH h) as [(Hn & Hh & Hall)|(r & j & Hs & Hin & Hr & Hj & Hh)].
        -- left. split_and!; [done..|].
           intros r [->|Hin]%elem_of_cons j Hj; [congruence|by eapply Hall].
        -- right. exists r, j. split_and!; try done. by right.
      * right. exists x, i. split_and!; try done. by left.
    + destruct (IH h) as [(Hn & Hh & Hall)|(r & j & Hs & Hin & Hr & Hj & Hh)].
      * left. split_and!; [done..|].
        intros r [->|Hin]%elem_of_cons j Hj; [congruence|by eapply Hall].
      * right. exists r, j. split_and!; try done. by right.
Qed.

Lemma acquire_locked_found sp now w r :
  (scan (_instances w) (heap w)).1 = Some r →
  acquire_locked sp now w =
    Build_locked_pass (Some r) sp None
      (emit [EvRegistryUnlock]
         (set_heap (scan (_instances w) (heap w)).2 (emit [EvRegistryLock] w))).
Proof.
  intros H. unfold acquire_locked. simpl.
  destruct (scan (_instances w) (heap w)) as [o h]. simpl in H. subst o. done.
Qed.

Lemma acquire_locked_idle now w :
  (scan (_instances w) (heap w)).1 = None →
  POOL_MAX_INSTANCES ≤ length (_instances w) →
  ∀ sp, acquire_locked sp now w =
    Build_locked_pass None sp None
      (emit [EvRegistryLock; EvRegistryUnlock] w).
Proof.
  intros H Hfull sp. unfold acquire_locked. simpl.
  destruct (scan_spec (_instances w) (heap w)) as [(_ & Hh & _)|(r & i & Hs & _)];
    [|congruence].
  destruct (scan (_instances w) (heap w)) as [o h]. simpl in *. subst o h.
  rewrite (bool_decide_eq_false_2 (_ < _)) by lia.
  rewrite andb_false_r.
  destruct w; unfold emit, set_heap; simpl. by rewrite <- app_assoc.
Qed.

Lemma acquire_locked_spawned now w :
  (scan (_instances w) (heap w)).1 = None →
  acquire_locked true now w =
    Build_locked_pass None true None
      (emit [EvRegistryLock; EvRegistryUnlock] w).
Proof.
  intros H. unfold acquire_locked. simpl.
  destruct (scan_spec (_instances w) (heap w)) as [(_ & Hh & _)|(r & i & Hs & _)];
    [|congruence].
  destruct (scan (_instances w) (heap w)) as [o h]. simpl in *. subst o h.
  rewrite andb_false_r. simpl.
  destruct w; unfold emit, set_heap; simpl. by rewrite <- app_assoc.
Qed.

Lemma acquire_locked_spawn now w :
  (scan (_instances w) (heap w)).1 = None →
  length (_instances w) < POOL_MAX_INSTANCES →
  acquire_locked false now w =
    let n := S (_id_counter w) in
    Build_locked_pass None true (Some n)
      (mkWorld (<[n := set_lock true (BrowserInstance_init n false now)]> (heap w))
         n (_instances w ++ [n]) (_stopped w)
         (trace w ++ [EvRegistryLock; EvAppend n; EvThread (T_start_instance n);
                      EvRegistryUnlock])).
Proof.
  intros H Hroom. unfold acquire_locked. simpl.
  destruct (scan_spec (_instances w) (heap w)) as [(_ & Hh & _)|(r & i & Hs & _)];
    [|congruence].
  destruct (scan (_instances w) (heap w)) as [o h]. simpl in *. subst o h.
  rewrite (bool_decide_eq_true_2 (_ < _)) by lia. simpl.
  unfold store, set_heap, emit; simpl.
  rewrite insert_insert_eq. by rewrite <- !app_assoc.
Qed.

Lemma instances_release_quietly r w :
  _instances (release_quietly r w).2 = _instances w.
Proof.
  unfold release_quietly. destruct (heap w !! r) as [i|]; [|done].
  by destruct (lock i).
Qed.

Lemma instances_release r now w : _instances (release r now w).2 = _instances w.
Proof.
  unfold release. destruct (heap w !! r) as [i|]; [|done].
  by rewrite instances_release_quietly.
Qed.

Lemma instances_inst_start r c w : _instances (inst_start r c w).2 = _instances w.
Proof.
  unfold inst_start. destruct (heap w !! r) as [i|]; [|done].
  by destruct (start c i) as [[res i'] evs].
Qed.

Lemma instances_inst_quit r w : _instances (inst_quit r w) = _instances w.
Proof. by destruct (inst_quit_spec r w) as (? & ? & _). Qed.

Lemma instances_acquire_checked r ok c now w :
  _instances (acquire_checked r ok c now w).2 = _instances w.
Proof.
  unfold acquire_checked. destruct (heap w !! r) as [i|]; [|done].
  destruct (is_alive ok i) as [[] i1]; [done|].
  by destruct (revive c i1) as [[[] i2] evs].
Qed.

Lemma instances_start_instance r c w :
  length (_instances (_start_instance r c w).2) ≤ length (_instances w).
Proof.
  unfold _start_instance. rewrite instances_release_quietly.
  pose proof (instances_inst_start r c w) as Hs.
  destruct (inst_start r c w) as [[u|e] w1]; simpl in Hs; [by rewrite Hs|].
  rewrite instances_inst_quit. simpl. rewrite <- Hs.
  case_bool_decide; [|done].
  destruct (list_remove_first r (_instances w1)) as [l|e'] eqn:Hrm; [|done].
  simpl. apply list_remove_first_length in Hrm. lia.
Qed.

Lemma instances_warmup_perm r warm w :
  _instances (_warmup_perm r warm w).2 = _instances w.
Proof.
  unfold _warmup_perm. rewrite instances_release_quietly.
  by destruct (heap w !! r).
Qed.

Lemma instances_shutdown w :
  _instances (shutdown w) = if _stopped w then _instances w else [].
Proof. unfold shutdown; simpl. by destruct (_stopped w). Qed.

Lemma filter_length_le {A} (f : A → bool) (l : list A) :
  length (List.filter f l) ≤ length l.
Proof. induction l as [|x l IH]; simpl; [done|]. destruct (f x); simpl; lia. Qed.

Lemma idle_reaper_registry now w :
  _instances (_idle_reaper now w).2
    = List.filter (λ r, negb (reapable now (heap w) r)) (_instances w) ∧
  _id_counter (_idle_reaper now w).2 = _id_counter w ∧
  dom (heap (_idle_reaper now w).2) = dom (heap w).
Proof.
  destruct (remove_all_filter (reapable now (heap w)) (_instances w) []
              (emit [EvRegistryLock] w))
    as (w1 & Hrun & Hl1 & Hh1 & Hc1 & _); [done|set_solver|].
  destruct (quit_each_spec (List.filter (reapable now (heap w)) (_instances w))
              (emit [EvRegistryUnlock] w1))
    as (tail & Hl2 & Hc2 & _ & Hd2 & _).
  unfold _idle_reaper. simpl in *. rewrite Hrun. simpl.
  rewrite Hl2, Hc2, Hd2. simpl. by rewrite Hl1, Hc1, Hh1.
Qed.

Lemma instances_idle_reaper now w :
  length (_instances (_idle_reaper now w).2) ≤ length (_instances w).
Proof.
  rewrite (proj1 (idle_reaper_registry now w)). apply filter_length_le.
Qed.

Lemma instances_cookies r a b w :
  _instances (cookies_handled r a b w) = _instances w.
Proof. unfold cookies_handled. by destruct (heap w !! r). Qed.

Lemma pool_start_ok c now w d :
  launch_driver c = Launched d →
  pool_start c now w =
    let n := S (_id_counter w) in
    (Return tt,
     mkWorld
       (<[n := set_lock true
                 (set_service_pid (launch_pid c)
                    (set_alive true
                       (set_driver (Some d) (Some d)
                          (BrowserInstance_init n true now))))]> (heap w))
       n (_instances w ++ [n]) (_stopped w)
       (trace w ++ [EvKillOrphans; EvLaunch c; EvRegistryLock; EvAppend n;
                    EvRegistryUnlock; EvThread (T_warmup_perm n);
                    EvThread T_idle_reaper])).
Proof.
  intros Hc. unfold pool_start, inst_start, new_BrowserInstance. simpl.
  rewrite lookup_insert_eq. rewrite (start_ok c d _ Hc). simpl.
  rewrite lookup_insert_eq. unfold store, set_heap, emit, set_instances. simpl.
  rewrite !insert_insert_eq. by rewrite <- !app_assoc.
Qed.

Lemma pool_start_raises c now w b msg :
  launch_driver c = LaunchFailed b msg →
  ∃ w', pool_start c now w = (Raise (External b msg), w') ∧
        _instances w' = _instances w.
Proof.
  intros Hc. unfold pool_start, inst_start, new_BrowserInstance. simpl.
  rewrite lookup_insert_eq. rewrite (start_raises c b msg _ Hc). simpl.
  by eexists.
Qed.

Lemma run_action_registry a w :
  length (_instances (run_action a w)) ≤ length (_instances w) ∨
  ∃ now new,
    a = A_acquire_locked false now ∧
    (scan (_instances w) (heap w)).1 = None ∧
    length (_instances w) < POOL_MAX_INSTANCES ∧
    _instances (run_action a w) = _instances w ++ [new] ∧
    is_permanent (heap (run_action a w)) new = false ∧
    trace (run_action a w)
      = trace w ++ [EvRegistryLock; EvAppend new;
                    EvThread (T_start_instance new); EvRegistryUnlock].
Proof.
  destruct a as [sp now|r ok c now|r now|r c|r warm|now| |r|r a b]; simpl.
  - destruct (scan_spec (_instances w) (heap w))
      as [(Hn & _)|(r & i & Hs & _)].
    + destruct (decide (length (_instances w) < POOL_MAX_INSTANCES)) as [Hroom|Hfull].
      * destruct sp.
        -- left. by rewrite acquire_locked_spawned.
        -- right. exists now, (S (_id_counter w)).
           rewrite acquire_locked_spawn by done. simpl.
           split_and!; try done.
           unfold is_permanent. by rewrite lookup_insert_eq.
      * left. rewrite acquire_locked_idle by (done || lia). done.
    + left. by rewrite (acquire_locked_found _ _ _ r).
  - left. by rewrite instances_acquire_checked.
  - left. by rewrite instances_release.
  - left. apply instances_start_instance.
  - left. by rewrite instances_warmup_perm.
  - left. apply instances_idle_reaper.
  - left. rewrite instances_shutdown. destruct (_stopped w); simpl; lia.
  - left. by rewrite instances_inst_quit.
  - left. by rewrite instances_cookies.
Qed.

Lemma reachable_registry_bound w :
  reachable w → length (_instances w) ≤ POOL_MAX_INSTANCES.
Proof.
  induction 1 as [c now res w Hstart|a w Hreach IH].
  - destruct (launch_driver c) as [d|b msg] eqn:Hc.
    + rewrite (pool_start_ok c now _ d Hc) in Hstart. simpl in Hstart.
      injection Hstart as _ <-. simpl. unfold POOL_MAX_INSTANCES. lia.
    + destruct (pool_start_raises c now fresh_world b msg Hc) as (w' & Hw' & Hl).
      rewrite Hw' in Hstart. injection Hstart as _ <-.
      rewrite Hl. simpl. lia.
  - destruct (run_action_registry a w)
      as [Hle|(now & new & _ & _ & Hroom & Happ & _)].
    + lia.
    + rewrite Happ, length_app. simpl. lia.
Qed.

(** ** acquire() *)

Lemma acquire_locked_pass sp now w :
  let p := acquire_locked sp now w in
  inst p = (scan (_instances w) (heap w)).1 ∧
  ((new_inst p = None ∧ spawned_after p = sp ∧
    _instances (world_after p) = _instances w)
   ∨ (sp = false ∧ inst p = None ∧
      length (_instances w) < POOL_MAX_INSTANCES ∧
      ∃ n, new_inst p = Some n ∧ spawned_after p = true ∧
           _instances (world_after p) = _instances w ++ [n])).
Proof.
  destruct (scan_spec (_instances w) (heap w)) as [(Hn & _)|(r & i & Hs & _)].
  - destruct (decide (length (_instances w) < POOL_MAX_INSTANCES)) as [Hroom|Hfull].
    + destruct sp.
      * rewrite acquire_locked_spawned by done. simpl. split; [done|]. by left.
      * rewrite acquire_locked_spawn by done. simpl. split; [done|].
        right. split_and!; try done. by eexists.
    + rewrite acquire_locked_idle by (done || lia). simpl. split; [done|]. by left.
  - rewrite (acquire_locked_found _ _ _ r) by done. simpl. split; [done|]. by left.
Qed.

Lemma acquire_loop_created deadline sched : ∀ sp w res created w',
  acquire_loop deadline sp sched w = Some (res, created, w') →
  length created ≤ (if sp then 0 else 1) ∧
  (Forall (λ e, others e = []) sched → _instances w' = _instances w ++ created).
Proof.
  induction sched as [|e rest IH]; intros sp w res created w'; simpl; [done|].
  destruct (Qltb (t_while e) deadline).
  - set (w0 := run_actions (others e) w).
    destruct (acquire_locked_pass sp (t_init e) w0) as [Hinst Hcases].
    simpl in Hinst, Hcases.
    destruct (inst (acquire_locked sp (t_init e) w0)) as [r|] eqn:Hi.
    + destruct Hcases as [(Hnew & Hsp & Hl)|(_ & ? & _)]; [|done].
      pose proof (instances_acquire_checked r (title_ok e) (relaunch e)
                    (t_touch e) (world_after (acquire_locked sp (t_init e) w0))) as Hc.
      destruct (acquire_checked r (title_ok e) (relaunch e) (t_touch e)
                  (world_after (acquire_locked sp (t_init e) w0))) as [res0 w1].
      intros [= <- <- <-]. rewrite Hnew. simpl. split; [destruct sp; lia|].
      intros Hquiet. inversion Hquiet as [|? ? He _]; subst.
      simpl in Hc. rewrite Hc, Hl. unfold w0. rewrite He. simpl.
      by rewrite app_nil_r.
    + destruct (acquire_loop deadline
                  (spawned_after (acquire_locked sp (t_init e) w0)) rest
                  (world_after (acquire_locked sp (t_init e) w0)))
        as [[[res1 created1] w1]|] eqn:Hrec; [|done].
      intros [= <- <- <-].
      apply IH in Hrec as [Hlen Hreg].
      destruct Hcases as [(Hnew & Hsp & Hl)|(-> & _ & _ & n & Hnew & Hsp & Hl)].
      * rewrite Hnew. simpl. rewrite Hsp in Hlen. split; [done|].
        intros Hquiet. inversion Hquiet as [|? ? He Hrest]; subst.
        rewrite (Hreg Hrest), Hl. unfold w0. by rewrite He.
      * rewrite Hnew. simpl. rewrite Hsp in Hlen. split; [lia|].
        intros Hquiet. inversion Hquiet as [|? ? He Hrest]; subst.
        rewrite (Hreg Hrest), Hl. unfold w0. rewrite He. simpl.
        by rewrite <- app_assoc.
  - intros [= <- <- <-]. simpl. split; [destruct sp; lia|].
    intros Hquiet. inversion Hquiet as [|? ? He _]; subst.
    rewrite He. simpl. by rewrite app_nil_r.
Qed.

(** C5.  One call of acquire() creates at most one temporary instance,
    however many turns its loop takes; when no other thread touches the
    pool meanwhile, the registry at the end is the registry at the start
    followed by what the call created.  A pass that runs with spawned set
    creates nothing. *)
Theorem acquire_spawns_at_most_once (timeout t0 : Q) (sched : list tick) (w : World)
    (res : result ref) (created : list ref) (w' : World) :
  acquire timeout t0 sched w = Some (res, created, w') →
  length created ≤ 1 ∧
  (Forall (λ e, others e = []) sched → _instances w' = _instances w ++ created) ∧
  (∀ now w0,
     let p := acquire_locked true now w0 in
     new_inst p = None ∧ spawned_after p = true ∧
     _instances (world_after p) = _instances w0).
Proof.
  intros H. unfold acquire in H. apply acquire_loop_created in H as [Hlen Hreg].
  split_and!; [done..|].
  intros now w0.
  destruct (acquire_locked_pass true now w0) as [_ [Hsame|(? & _)]]; done.
Qed.

Lemma acquire_spawns_at_most_once_witness :
  ∃ res created w',
    acquire 30 0 [quiet_tick 1; quiet_tick 2; quiet_tick 3; quiet_tick 31]
      started_world = Some (res, created, w') ∧
    length created ≤ 1 ∧ length (_instances w') = 2.
Proof.
  destruct (acquire 30 0 [quiet_tick 1; quiet_tick 2; quiet_tick 3; quiet_tick 31]
              started_world) as [[[res created] w']|] eqn:H;
    [|vm_compute in H; discriminate].
  exists res, created, w'. split; [reflexivity|].
  split; [exact (proj1 (acquire_spawns_at_most_once _ _ _ _ _ _ _ H))|].
  vm_compute in H. injection H as _ _ <-. reflexivity.
Defined.

(** *** The health check of acquire() *)

Lemma revive_ok c self d :
  launch_driver c = Launched d →
  revive c self =
    (Return tt,
     set_service_pid (launch_pid c)
       (set_alive true
          (set_driver (Some d) (Some d) (set_cookies false false (quit self).1))),
     EvRevive (id self) :: (quit self).2 ++ [EvLaunch c]).
Proof.
  intros Hc. unfold revive. destruct (quit self) as [s1 ev1].
  by rewrite (start_ok c d _ Hc).
Qed.

Lemma revive_raises c self b msg :
  launch_driver c = LaunchFailed b msg →
  revive c self =
    (Raise (External b msg), set_cookies false false (quit self).1,
     EvRevive (id self) :: (quit self).2 ++ [EvLaunch c]).
Proof.
  intros Hc. unfold revive. destruct (quit self) as [s1 ev1].
  by rewrite (start_raises c b msg _ Hc).
Qed.

Lemma acquire_checked_alive r ok c now w i :
  heap w !! r = Some i → (is_alive ok i).1 = true →
  acquire_checked r ok c now w = (Return r, store r (touch now i) w).
Proof.
  intros Hr Ha. unfold acquire_checked. rewrite Hr.
  destruct (is_alive_true ok i Ha) as (Hi & _).
  destruct (is_alive ok i) as [alive i1]. simpl in *. by subst.
Qed.

Lemma acquire_checked_revived r ok c now w i d :
  heap w !! r = Some i → (is_alive ok i).1 = false →
  launch_driver c = Launched d →
  acquire_checked r ok c now w =
    (Return r,
     emit (revive c (is_alive ok i).2).2
       (store r (touch now (set_cookies false false (revive c (is_alive ok i).2).1.2)) w)).
Proof.
  intros Hr Ha Hc. unfold acquire_checked. rewrite Hr.
  destruct (is_alive ok i) as [alive i1]. simpl in *. subst alive.
  by rewrite (revive_ok c i1 d Hc).
Qed.

Lemma acquire_checked_raises r ok c now w i b msg :
  heap w !! r = Some i → (is_alive ok i).1 = false →
  launch_driver c = LaunchFailed b msg →
  ∃ w', acquire_checked r ok c now w = (Raise (External b msg), w') ∧
        heap w' !! r = Some (set_cookies false false (quit (is_alive ok i).2).1).
Proof.
  intros Hr Ha Hc. unfold acquire_checked. rewrite Hr.
  destruct (is_alive ok i) as [alive i1]. simpl in *. subst alive.
  rewrite (revive_raises c i1 b msg Hc). eexists. split; [done|].
  simpl. by rewrite lookup_insert_eq.
Qed.

(* the health check of a session whose lock the pass has just taken *)
Lemma acquire_pass_checked sp e w0 r w' :
  let p := acquire_locked sp (t_init e) w0 in
  inst p = Some r →
  acquire_checked r (title_ok e) (relaunch e) (t_touch e) (world_after p) = (Return r, w') →
  ∃ i0 i',
    r ∈ _instances w0 ∧ heap w0 !! r = Some i0 ∧ lock i0 = false ∧
    heap (world_after p) !! r = Some (set_lock true i0) ∧
    heap w' !! r = Some i' ∧
    lock i' = true ∧ last_used i' = t_touch e ∧
    _alive i' = true ∧ is_Some (driver i') ∧
    id i' = id i0 ∧ permanent i' = permanent i0 ∧
    ((is_alive (title_ok e) (set_lock true i0)).1 = true →
       i' = touch (t_touch e) (set_lock true i0) ∧
       trace w' = trace (world_after p)) ∧
    ((is_alive (title_ok e) (set_lock true i0)).1 = false →
       ∃ i2 evs,
         revive (relaunch e) (is_alive (title_ok e) (set_lock true i0)).2
           = (Return tt, i2, evs) ∧
         i' = touch (t_touch e) (set_cookies false false i2) ∧
         autodoc_cookie_handled i' = false ∧
         realoem_cookie_handled i' = false ∧
         trace w' = trace (world_after p) ++ evs ∧
         EvRevive (id i0) ∈ evs).
Proof.
  intros p Hi. subst p.
  destruct (acquire_locked_pass sp (t_init e) w0) as [Hinst _]. simpl in Hinst.
  rewrite Hi in Hinst. symmetry in Hinst.
  destruct (scan_spec (_instances w0) (heap w0))
    as [(Hn & _)|(r1 & i0 & Hs & Hin & Hr & Hl & Hh)]; [congruence|].
  assert (r1 = r) as -> by congruence.
  rewrite (acquire_locked_found _ _ _ r Hinst). simpl.
  set (w1 := emit [EvRegistryUnlock]
               (set_heap (scan (_instances w0) (heap w0)).2
                  (emit [EvRegistryLock] w0))).
  assert (Hr1 : heap w1 !! r = Some (set_lock true i0)).
  { simpl. rewrite Hh. apply lookup_insert_eq. }
  destruct (is_alive (title_ok e) (set_lock true i0)).1 eqn:Halive.
  - rewrite (acquire_checked_alive _ _ _ _ _ _ Hr1 Halive).
    intros [= <-].
    destruct (is_alive_true _ _ Halive) as (_ & Hal & Hd).
    exists i0, (touch (t_touch e) (set_lock true i0)).
    split_and!; try done; try (intros ?; congruence).
    apply heap_store.
  - destruct (launch_driver (relaunch e)) as [d|b msg] eqn:Hc.
    + rewrite (acquire_checked_revived _ _ _ _ _ _ d Hr1 Halive Hc).
      intros [= <-].
      destruct (is_alive_frame (title_ok e) (set_lock true i0))
        as (Hid & Hp & Hlk & _ & _).
      destruct (quit_frame (is_alive (title_ok e) (set_lock true i0)).2)
        as (Hqid & Hqp & Hql & _).
      rewrite (revive_ok _ _ d Hc). simpl.
      exists i0,
        (touch (t_touch e)
           (set_cookies false false
              (set_service_pid (launch_pid (relaunch e))
                 (set_alive true
                    (set_driver (Some d) (Some d)
                       (set_cookies false false
                          (quit (is_alive (title_ok e) (set_lock true i0)).2).1)))))).
      split_and!; try done; try (intros ?; congruence).
      * apply lookup_insert_eq.
      * simpl. by rewrite Hql, Hlk.
      * simpl. by rewrite Hqid, Hid.
      * simpl. by rewrite Hqp, Hp.
      * intros _. eexists _, _. split_and!; try done.
        -- by apply revive_ok.
        -- rewrite Hid. simpl. by left.
    + destruct (acquire_checked_raises _ (title_ok e) (relaunch e) (t_touch e)
                  _ _ b msg Hr1 Halive Hc) as (w2 & Hw2 & _).
      fold w1. rewrite Hw2. done.
Qed.

Lemma acquire_checked_returns r ok c now w r' w' :
  acquire_checked r ok c now w = (Return r', w') → r' = r.
Proof.
  unfold acquire_checked. destruct (heap w !! r) as [i|]; [|by intros [= <- _]].
  destruct (is_alive ok i) as [[|] i1]; [by intros [= <- _]|].
  destruct (revive c i1) as [[[u|e] i2] evs]; [by intros [= <- _]|done].
Qed.

Lemma acquire_loop_return deadline sched : ∀ sp w r created w',
  acquire_loop deadline sp sched w = Some (Return r, created, w') →
  ∃ before e after,
    sched = before ++ e :: after ∧
    (∀ b1 e1 b2, before = b1 ++ e1 :: b2 →
       (t_while e1 < deadline)%Q ∧
       inst (turn_pass (after_turns sp b1 w).1 e1 (after_turns sp b1 w).2) = None) ∧
    (t_while e < deadline)%Q ∧
    inst (turn_pass (after_turns sp before w).1 e (after_turns sp before w).2) = Some r ∧
    acquire_checked r (title_ok e) (relaunch e) (t_touch e)
      (world_after (turn_pass (after_turns sp before w).1 e (after_turns sp before w).2))
    = (Return r, w').
Proof.
  induction sched as [|e rest IH]; intros sp w r created w'; [done|].
  cbn [acquire_loop]. cbn zeta.
  destruct (Qltb (t_while e) deadline) eqn:Ht; [|done].
  apply Qltb_lt in Ht.
  change (acquire_locked sp (t_init e) (run_actions (others e) w))
    with (turn_pass sp e w).
  destruct (inst (turn_pass sp e w)) as [r0|] eqn:Hi.
  - destruct (acquire_checked r0 (title_ok e) (relaunch e) (t_touch e)
                (world_after (turn_pass sp e w))) as [res w1] eqn:Hck.
    intros [= -> <- <-].
    assert (r = r0) as -> by (by eapply acquire_checked_returns).
    exists [], e, rest. split_and!; [done| |done|done|done].
    intros [|? ?] e1 b2 ?; done.
  - destruct (acquire_loop deadline (spawned_after (turn_pass sp e w)) rest
                (world_after (turn_pass sp e w)))
      as [[[res1 created1] w1]|] eqn:Hrec; [|done].
    intros [= -> <- <-].
    apply IH in Hrec as (before & e' & after & -> & Hbefore & Ht' & Hi' & Hck).
    exists (e :: before), e', after. split_and!; [done| |done|done|done].
    intros [|e0 b1] e1 b2 Heq.
    + injection Heq as <- _. done.
    + injection Heq as <- ->. apply (Hbefore b1 e1 b2 eq_refl).
Qed.

(** C3.  When acquire() returns a session, it is at the first turn of its
    loop whose pass through the registry finds a free lock; every turn
    before began before the deadline and found none.  In the state that
    pass saw the lock of the session was free, the pass took it, and the
    lock is still held at the return; last_used is the time of touch(); the
    session counts as alive and has a driver.  If is_alive() answered False
    on the session as the pass left it, revive() ran and returned, its
    calls are what acquire() added to the trace, and both cookie flags are
    False; otherwise the session is as the pass left it, touched, and
    nothing was added to the trace. *)
Theorem acquire_returns_checked_session (timeout t0 : Q) (sched : list tick)
    (w : World) (r : ref) (created : list ref) (w' : World) :
  acquire timeout t0 sched w = Some (Return r, created, w') →
  ∃ before e after,
    sched = before ++ e :: after ∧
    (∀ b1 e1 b2, before = b1 ++ e1 :: b2 →
       (t_while e1 < t0 + timeout)%Q ∧
       inst (turn_pass (after_turns false b1 w).1 e1 (after_turns false b1 w).2) = None) ∧
    (t_while e < t0 + timeout)%Q ∧
    let w0 := run_actions (others e) (after_turns false before w).2 in
    let p := acquire_locked (after_turns false before w).1 (t_init e) w0 in
    inst p = Some r ∧
    acquire_checked r (title_ok e) (relaunch e) (t_touch e) (world_after p)
      = (Return r, w') ∧
    ∃ i0 i',
      r ∈ _instances w0 ∧ heap w0 !! r = Some i0 ∧ lock i0 = false ∧
      heap (world_after p) !! r = Some (set_lock true i0) ∧
      heap w' !! r = Some i' ∧
      lock i' = true ∧ last_used i' = t_touch e ∧
      _alive i' = true ∧ is_Some (driver i') ∧
      id i' = id i0 ∧ permanent i' = permanent i0 ∧
      ((is_alive (title_ok e) (set_lock true i0)).1 = true →
         i' = touch (t_touch e) (set_lock true i0) ∧
         trace w' = trace (world_after p)) ∧
      ((is_alive (title_ok e) (set_lock true i0)).1 = false →
         ∃ i2 evs,
           revive (relaunch e) (is_alive (title_ok e) (set_lock true i0)).2
             = (Return tt, i2, evs) ∧
           i' = touch (t_touch e) (set_cookies false false i2) ∧
           autodoc_cookie_handled i' = false ∧
           realoem_cookie_handled i' = false ∧
           trace w' = trace (world_after p) ++ evs ∧
           EvRevive (id i0) ∈ evs).
Proof.
  intros H.
  apply (acquire_loop_return _ sched false w r created w') in H
    as (before & e & after & Hs & Hbefore & Ht & Hi & Hck).
  exists before, e, after. split_and!; [done|done|done|]. cbn zeta.
  split; [exact Hi|]. split; [exact Hck|].
  exact (acquire_pass_checked _ e _ r w' Hi Hck).
Qed.

Lemma acquire_returns_checked_session_witness :
  ∃ created w' i',
    acquire 30 0 [quiet_tick 1; tick_after_start 2 2] started_world
      = Some (Return 2, created, w') ∧
    heap w' !! 2 = Some i' ∧ lock i' = true ∧ last_used i' = 2%Q ∧ _alive i' = true.
Proof.
  destruct (acquire 30 0 [quiet_tick 1; tick_after_start 2 2] started_world)
    as [[[res created] w']|] eqn:H; [|vm_compute in H; discriminate].
  assert (res = Return 2) as -> by (vm_compute in H; congruence).
  destruct (acquire_returns_checked_session _ _ _ _ _ _ _ H)
    as (before & e & after & Hs & _ & _ & Hp & _ & i0 & i' & _ & _ & _ & _ & Hi'
        & Hl & Ht & Ha & _).
  assert (e = tick_after_start 2 2) as ->.
  { destruct before as [|e0 [|e1 before]]; simpl in Hs.
    - injection Hs as <- _. exfalso. clear -Hp.
      vm_compute in Hp. discriminate.
    - by injection Hs as _ <- _.
    - injection Hs as _ _ Hs. by destruct before. }
  exists created, w', i'. split_and!; [reflexivity|exact Hi'|exact Hl|exact Ht|exact Ha].
Defined.

(** *** acquire() running into its deadline *)

Lemma Qltb_false x y : Qltb x y = false ↔ (y <= x)%Q.
Proof.
  unfold Qltb. destruct (Qlt_le_dec x y) as [Hlt|Hle]; split; try done.
  intros Hle. exfalso. by apply (Qlt_not_le x y).
Qed.

Lemma all_busy_scan w :
  all_busy w ↔ (scan (_instances w) (heap w)).1 = None.
Proof.
  destruct (scan_spec (_instances w) (heap w))
    as [(Hn & _ & Hall)|(r & i & Hs & Hin & Hr & Hl & _)].
  - split; [done|]. intros _ r i Hin Hr. by eapply Hall.
  - split; [|congruence]. intros Hbusy. specialize (Hbusy r i Hin Hr). congruence.
Qed.

Lemma acquire_checked_not_timeout r ok c now w :
  (acquire_checked r ok c now w).1 ≠ Raise PoolTimeout.
Proof.
  unfold acquire_checked. destruct (heap w !! r) as [i|]; [|done].
  destruct (is_alive ok i) as [[] i1]; [done|].
  unfold revive. destruct (quit i1) as [s1 ev1]. unfold start.
  by destruct (launch_driver c).
Qed.

Lemma acquire_loop_starved deadline sched : ∀ sp w w',
  (∃ created, acquire_loop deadline sp sched w = Some (Raise PoolTimeout, created, w'))
  ↔ starved deadline sp sched w w'.
Proof.
  induction sched as [|e rest IH]; intros sp w w'.
  - split; [by intros [? ?]|]. inversion 1.
  - simpl. set (w0 := run_actions (others e) w).
    destruct (acquire_locked_pass sp (t_init e) w0) as [Hinst _]. simpl in Hinst.
    split.
    + destruct (Qltb (t_while e) deadline) eqn:Ht.
      * apply Qltb_lt in Ht.
        destruct (inst (acquire_locked sp (t_init e) w0)) as [r|] eqn:Hi.
        -- pose proof (acquire_checked_not_timeout r (title_ok e) (relaunch e)
                         (t_touch e) (world_after (acquire_locked sp (t_init e) w0)))
             as Hne.
           destruct (acquire_checked r (title_ok e) (relaunch e) (t_touch e)
                       (world_after (acquire_locked sp (t_init e) w0))) as [res w1].
           simpl in Hne. intros [created H]. congruence.
        -- intros [created H].
           apply starved_turn; [done|by apply all_busy_scan|].
           apply IH. fold w0.
           destruct (acquire_loop deadline
                       (spawned_after (acquire_locked sp (t_init e) w0)) rest
                       (world_after (acquire_locked sp (t_init e) w0)))
             as [[[res1 created1] w1]|]; [|done].
           exists created1. congruence.
      * apply Qltb_false in Ht. intros [created H].
        injection H as _ <-. by apply starved_deadline.
    + inversion 1 as [? ? ? ? Ht|? ? ? ? ? Ht Hbusy Hrest]; subst.
      * apply Qltb_false in Ht. rewrite Ht. by eexists.
      * apply Qltb_lt in Ht. rewrite Ht.
        apply all_busy_scan in Hbusy. fold w0 in Hbusy, Hrest.
        rewrite Hinst, Hbusy.
        apply IH in Hrest as [created Hrest]. rewrite Hrest. by eexists.
Qed.

Lemma acquire_locked_busy sp now w0 :
  all_busy w0 →
  let p := acquire_locked sp now w0 in
  inst p = None ∧
  (∀ r, new_inst p ≠ Some r → heap (world_after p) !! r = heap w0 !! r) ∧
  (∀ n, new_inst p = Some n →
        EvThread (T_start_instance n) ∈ trace (world_after p) ∧
        n ∈ _instances (world_after p)).
Proof.
  intros Hbusy%all_busy_scan.
  destruct (decide (length (_instances w0) < POOL_MAX_INSTANCES)) as [Hroom|Hfull].
  - destruct sp.
    + rewrite acquire_locked_spawned by done. simpl. done.
    + rewrite acquire_locked_spawn by done. simpl. split_and!; [done|..].
      * intros r Hr. apply lookup_insert_ne. intros <-. by apply Hr.
      * intros n [= <-]. set_solver.
  - rewrite acquire_locked_idle by (done || lia). simpl. done.
Qed.

Lemma release_quietly_frees r w : locked (heap (release_quietly r w).2) r = false.
Proof.
  unfold locked. destruct (heap w !! r) as [i|] eqn:Hr.
  - rewrite (release_quietly_eq r i w Hr). simpl. by rewrite lookup_insert_eq.
  - unfold release_quietly. rewrite Hr. simpl. by rewrite Hr.
Qed.

Lemma release_returns r now w : (release r now w).1 = Return tt.
Proof.
  unfold release. destruct (heap w !! r) as [i|] eqn:Hr; [|done].
  by rewrite (release_quietly_eq r (touch now i)) by apply heap_store.
Qed.

Lemma release_frees r now w : locked (heap (release r now w).2) r = false.
Proof.
  unfold release. destruct (heap w !! r) as [i|] eqn:Hr.
  - apply release_quietly_frees.
  - unfold locked. simpl. by rewrite Hr.
Qed.

Lemma scrape_barcode_acquire request env w :
  well_formed request →
  scrape_barcode request env w =
    match acquire 30 (t_call env) (sched env) w with
    | None => None
    | Some (Raise e, _, w1) =>
        if isinstance_RuntimeError e
        then Some (HTTPException 503 "All scrapers busy, please retry in a moment", w1)
        else Some (Unhandled e, w1)
    | Some (Return r, _, w1) =>
        let barcode := strip (request_barcode request) in
        let scraper := lower (request_scraper request) in
        let timed_out := match timer env with FiredBefore => true | _ => false end in
        let w2 := cookies_handled r (cookies env).1 (cookies env).2 w1 in
        let w3 := if timed_out then inst_quit r w2 else w2 in
        let w4 := (release r (t_release env) w3).2 in
        Some (Ok (watched_response barcode scraper (timeout_of scraper) (run env)
                    timed_out),
              match timer env with FiredAfter => inst_quit r w4 | _ => w4 end)
    end.
Proof.
  intros [Hb Hs]. unfold scrape_barcode.
  rewrite (bool_decide_eq_false_2 _ Hb), (bool_decide_eq_true_2 _ Hs). simpl.
  destruct (acquire 30 (t_call env) (sched env) w) as [[[[r|e] created] w1]|];
    [|done..].
  pose proof (release_returns r (t_release env)
    (if match timer env with FiredBefore => true | _ => false end
     then inst_quit r (cookies_handled r (cookies env).1 (cookies env).2 w1)
     else cookies_handled r (cookies env).1 (cookies env).2 w1)) as Hrel.
  destruct (release r (t_release env) _) as [res w4]. simpl in Hrel. by subst.
Qed.

(** C8.  acquire() raises its time-out error exactly when, turn after turn
    until the clock reaches the deadline, every session of the registry is
    busy.  A pass that finds every session busy takes no lock and changes
    no session; the one it may create is handed, locked, to the thread
    _start_instance, which frees it whatever Chrome does.  /scrape answers
    that error with status 503. *)
Theorem acquire_times_out_iff_starved (timeout t0 : Q) (turns : list tick)
    (w w' : World) :
  ((∃ created, acquire timeout t0 turns w = Some (Raise PoolTimeout, created, w'))
   ↔ starved (t0 + timeout) false turns w w') ∧
  (∀ sp now w0,
     all_busy w0 →
     let p := acquire_locked sp now w0 in
     inst p = None ∧
     (∀ r, new_inst p ≠ Some r → heap (world_after p) !! r = heap w0 !! r) ∧
     (∀ n, new_inst p = Some n →
           EvThread (T_start_instance n) ∈ trace (world_after p) ∧
           n ∈ _instances (world_after p))) ∧
  (∀ n c w0, locked (heap (_start_instance n c w0).2) n = false) ∧
  (∀ request env created,
     well_formed request →
     acquire 30 (t_call env) (sched env) w
       = Some (Raise PoolTimeout, created, w') →
     scrape_barcode request env w
       = Some (HTTPException 503 "All scrapers busy, please retry in a moment", w')).
Proof.
  split_and!.
  - apply acquire_loop_starved.
  - intros sp now w0. apply acquire_locked_busy.
  - intros n c w0. unfold _start_instance. apply release_quietly_frees.
  - intros request env created Hwf H.
    rewrite (scrape_barcode_acquire request env w Hwf), H. done.
Qed.

Lemma sample_request_well_formed : well_formed sample_request.
Proof. split; [done|]. vm_compute. set_solver. Qed.

Lemma acquire_times_out_iff_starved_witness :
  ∃ w',
    starved (0 + 30) false (sched env_busy) started_world w' ∧
    scrape_barcode sample_request env_busy started_world
      = Some (HTTPException 503 "All scrapers busy, please retry in a moment", w').
Proof.
  destruct (acquire 30 (t_call env_busy) (sched env_busy) started_world)
    as [[[res created] w']|] eqn:H; [|vm_compute in H; discriminate].
  assert (res = Raise PoolTimeout) as ->
    by (vm_compute in H; injection H as Hres _ _; by rewrite <- Hres).
  exists w'.
  destruct (acquire_times_out_iff_starved 30 0 (sched env_busy) started_world w')
    as (Hiff & _ & _ & Hhttp).
  split.
  - apply Hiff. by exists created.
  - exact (Hhttp sample_request env_busy created sample_request_well_formed H).
Defined.

(** ** The watchdog of a lease *)

Lemma locked_inst_quit r r' w :
  locked (heap (inst_quit r w)) r' = locked (heap w) r'.
Proof.
  unfold locked, inst_quit. destruct (heap w !! r) as [i|] eqn:Hi; [|done].
  destruct (quit_frame i) as (_ & _ & Hl & _).
  destruct (quit i) as [i' evs]. simpl in *.
  destruct (decide (r = r')) as [<-|Hne].
  - by rewrite lookup_insert_eq, Hi.
  - by rewrite lookup_insert_ne.
Qed.

(** C2.  With a session leased, /scrape answers 200 with a response built
    from what _run_scrape did and from timed_out: a successful result is
    returned as it is, whatever the timer did; if timed_out was set, a
    failed result and an exception both become the response
    "Scrape timed out after {timeout}s" (300 for realoem, 120 for autodoc)
    in place of the error of the scrape; the lease is released. *)
Theorem watchdog_outcome (request : BarcodeRequest) (env : scrape_env)
    (w : World) (r : ref) (created : list ref) (w1 : World) :
  well_formed request →
  acquire 30 (t_call env) (sched env) w = Some (Return r, created, w1) →
  let barcode := strip (request_barcode request) in
  let scraper := lower (request_scraper request) in
  let timed_out := match timer env with FiredBefore => true | _ => false end in
  let late := timeout_response barcode scraper (timeout_of scraper) in
  ∃ response w2,
    scrape_barcode request env w = Some (Ok response, w2) ∧
    (∀ p, run env = Return p → success p = true → response = p) ∧
    (∀ p, run env = Return p → success p = false →
          response = if timed_out then late else p) ∧
    (∀ e, run env = Raise e →
          response = if timed_out then late
                     else mkProductResponse false barcode scraper None (Some (str e))) ∧
    success late = false ∧
    error late = Some (if bool_decide (scraper = "realoem")
                       then "Scrape timed out after 300s"
                       else "Scrape timed out after 120s") ∧
    locked (heap w2) r = false.
Proof.
  intros Hwf Hacq barcode scraper timed_out late.
  rewrite (scrape_barcode_acquire request env w Hwf), Hacq.
  eexists _, _. split; [reflexivity|].
  fold barcode scraper timed_out.
  split_and!.
  - intros p Hp Hs. unfold watched_response. by rewrite Hp, Hs.
  - intros p Hp Hs. unfold watched_response. rewrite Hp, Hs. simpl.
    by destruct timed_out.
  - intros e He. unfold watched_response. rewrite He. by destruct timed_out.
  - done.
  - unfold late, timeout_response, timeout_of. simpl. by case_bool_decide.
  - simpl.
    destruct (timer env).
    + apply release_frees.
    + apply release_frees.
    + rewrite locked_inst_quit. apply release_frees.
Qed.

Lemma watchdog_outcome_witness :
  ∃ w2,
    scrape_barcode sample_request env_late_watchdog started_world
      = Some (Ok sample_product, w2) ∧
    locked (heap w2) 2 = false.
Proof.
  destruct (acquire 30 (t_call env_late_watchdog) (sched env_late_watchdog)
              started_world) as [[[res created] w1]|] eqn:H;
    [|vm_compute in H; discriminate].
  assert (res = Return 2) as ->
    by (vm_compute in H; injection H as Hres _ _; by rewrite <- Hres).
  destruct (watchdog_outcome sample_request env_late_watchdog started_world
              2 created w1 sample_request_well_formed H)
    as (response & w2 & Hrun & Hok & _ & _ & _ & _ & Hfree).
  exists w2. rewrite (Hok sample_product eq_refl eq_refl) in Hrun.
  by split.
Defined.

(** ** Calls stay within the reachable states *)

Lemma run_actions_reachable l : ∀ w, reachable w → reachable (run_actions l w).
Proof.
  induction l as [|a l IH]; intros w Hw; [done|].
  apply (IH (run_action a w)). by apply reach_step.
Qed.

Lemma acquire_loop_reachable deadline turns : ∀ sp w res created w',
  reachable w →
  acquire_loop deadline sp turns w = Some (res, created, w') →
  reachable w'.
Proof.
  induction turns as [|e rest IH]; intros sp w res created w' Hw; simpl; [done|].
  pose proof (run_actions_reachable (others e) w Hw) as Hw0.
  set (w0 := run_actions (others e) w) in *.
  destruct (Qltb (t_while e) deadline); [|by intros [= <- <- <-]].
  pose proof (reach_step (A_acquire_locked sp (t_init e)) w0 Hw0) as Hw1.
  simpl in Hw1.
  destruct (inst (acquire_locked sp (t_init e) w0)) as [r|].
  - pose proof (reach_step (A_acquire_checked r (title_ok e) (relaunch e) (t_touch e))
                  _ Hw1) as Hw2. simpl in Hw2.
    destruct (acquire_checked r (title_ok e) (relaunch e) (t_touch e)
                (world_after (acquire_locked sp (t_init e) w0))) as [res0 w2].
    by intros [= <- <- <-].
  - destruct (acquire_loop deadline
                (spawned_after (acquire_locked sp (t_init e) w0)) rest
                (world_after (acquire_locked sp (t_init e) w0)))
      as [[[res1 created1] w1]|] eqn:Hrec; [|done].
    intros [= <- <- <-]. by eapply IH.
Qed.

Lemma scrape_barcode_reachable request env w answer w' :
  reachable w →
  scrape_barcode request env w = Some (answer, w') →
  reachable w'.
Proof.
  intros Hw. unfold scrape_barcode.
  case_bool_decide; [by intros [= <- <-]|].
  destruct (negb _); [by intros [= <- <-]|].
  destruct (acquire 30 (t_call env) (sched env) w) as [[[[r|e] created] w1]|] eqn:Ha;
    [| |done].
  - apply acquire_loop_reachable in Ha; [|done].
    pose proof (reach_step (A_cookies r (cookies env).1 (cookies env).2) _ Ha) as H2.
    simpl in H2.
    set (w2 := cookies_handled r (cookies env).1 (cookies env).2 w1) in *.
    assert (H3 : reachable (if match timer env with FiredBefore => true | _ => false end
                            then inst_quit r w2 else w2)).
    { destruct (timer env); try done. apply (reach_step (A_watchdog r) _ H2). }
    pose proof (reach_step (A_release r (t_release env)) _ H3) as H4. simpl in H4.
    destruct (release r (t_release env) _) as [rel w4]. simpl in H4.
    assert (H5 : reachable (match timer env with FiredAfter => inst_quit r w4 | _ => w4 end)).
    { destruct (timer env); try done. apply (reach_step (A_watchdog r) _ H4). }
    destruct rel; by intros [= <- <-].
  - apply acquire_loop_reachable in Ha; [|done].
    destruct (isinstance_RuntimeError e); by intros [= <- <-].
Qed.

(** C1.  In every state the server reaches the registry holds at most
    POOL_MAX_INSTANCES sessions.  A step of any thread leaves the registry
    no longer than it was, except a pass of acquire() under the registry
    lock that found every session busy, had not spawned yet and saw fewer
    than POOL_MAX_INSTANCES sessions: it appends one temporary session,
    between taking and releasing the registry lock.
    pool.start() appends exactly one permanent session.  The bound holds
    again after a whole call of acquire() and after a whole /scrape
    request, with whatever the other threads did meanwhile. *)
Theorem registry_within_cap (w : World) :
  reachable w →
  length (_instances w) ≤ POOL_MAX_INSTANCES ∧
  (∀ a,
     length (_instances (run_action a w)) ≤ length (_instances w) ∨
     ∃ now new,
       a = A_acquire_locked false now ∧
       (scan (_instances w) (heap w)).1 = None ∧
       length (_instances w) < POOL_MAX_INSTANCES ∧
       _instances (run_action a w) = _instances w ++ [new] ∧
       is_permanent (heap (run_action a w)) new = false ∧
       trace (run_action a w)
         = trace w ++ [EvRegistryLock; EvAppend new;
                       EvThread (T_start_instance new); EvRegistryUnlock]) ∧
  (∀ c now w0 w1,
     pool_start c now w0 = (Return tt, w1) →
     ∃ perm, _instances w1 = _instances w0 ++ [perm] ∧
             is_permanent (heap w1) perm = true) ∧
  (∀ timeout t0 turns res created w1,
     acquire timeout t0 turns w = Some (res, created, w1) →
     length (_instances w1) ≤ POOL_MAX_INSTANCES) ∧
  (∀ request env answer w1,
     scrape_barcode request env w = Some (answer, w1) →
     length (_instances w1) ≤ POOL_MAX_INSTANCES).
Proof.
  intros Hreach. split_and!.
  - by apply reachable_registry_bound.
  - intros a. apply run_action_registry.
  - intros c now w0 w1 Hstart.
    destruct (launch_driver c) as [d|b msg] eqn:Hc.
    + rewrite (pool_start_ok c now _ d Hc) in Hstart. simpl in Hstart.
      injection Hstart as <-. exists (S (_id_counter w0)). simpl.
      split; [done|]. unfold is_permanent. by rewrite lookup_insert_eq.
    + destruct (pool_start_raises c now w0 b msg Hc) as (w' & Hw' & _).
      rewrite Hw' in Hstart. discriminate.
  - intros timeout t0 turns res created w1 H.
    apply reachable_registry_bound. by eapply acquire_loop_reachable.
  - intros request env answer w1 H.
    apply reachable_registry_bound. by eapply scrape_barcode_reachable.
Qed.

Lemma registry_within_cap_witness :
  length (_instances started_world) ≤ POOL_MAX_INSTANCES.
Proof.
  refine (proj1 (registry_within_cap started_world _)).
  apply (reach_startup (chrome_ok 1) 0%Q (Return tt)). reflexivity.
Defined.

(** ** The pool at work *)

Example request_is_normalised :
  strip (request_barcode sample_request) = "34116860912" ∧
  lower (request_scraper sample_request) = "realoem" ∧
  timeout_of "realoem" = 300 ∧ timeout_of "autodoc" = 120.
Proof. by vm_compute. Qed.

Example revive_when_chrome_fails :
  ∃ s evs,
    revive chrome_fails sample_instance
      = (Raise (External false "session not created"), s, evs) ∧
    _alive s = false ∧ driver s = None ∧
    autodoc_cookie_handled s = false ∧ id s = 2.
Proof. by eexists _, _. Qed.

Example pool_full_all_busy :
  _instances pool_full = [1; 2; 3] ∧
  locked (heap pool_full) <$> _instances pool_full = [true; true; true].
Proof. by vm_compute. Qed.

(* a further caller finds the pool full and busy: no fourth session *)
Example fourth_caller_times_out :
  ∃ w,
    acquire 30 4 [quiet_tick 5; quiet_tick 6; quiet_tick 40] pool_full
      = Some (Raise PoolTimeout, [], w) ∧
    _instances w = [1; 2; 3].
Proof. eexists. split; by vm_compute. Qed.

(* ... or takes over session 2 once its holder has released it *)
Example fourth_caller_after_release :
  ∃ w i,
    acquire 30 4 [quiet_tick 5; tick_after_release 6] pool_full
      = Some (Return 2, [], w) ∧
    _instances w = [1; 2; 3] ∧
    heap w !! 2 = Some i ∧ lock i = true ∧ last_used i = 6%Q.
Proof. eexists _, _. split_and!; by vm_compute. Qed.

(* an idle temporary session is reaped, the busy ones and the permanent
   one are not *)
Example reaper_takes_idle_session :
  (_idle_reaper 400 (releases 2 [50%Q] pool_full)).1 = Return [2] ∧
  _instances (_idle_reaper 400 (releases 2 [50%Q] pool_full)).2 = [1; 3].
Proof. by vm_compute. Qed.

(* start() does not look at the registry: the bound on its size rests on
   lifespan() calling it once, on the empty pool *)
Example pool_start_has_no_guard :
  _instances (pool_start (chrome_ok 4) 9 pool_full).2 = [1; 2; 3; 4].
Proof. by vm_compute. Qed.

(** * Further properties of the pool *)

(** ** The scan of acquire() *)

Lemma scan_takes_first_free_aux (l : list ref) (h : gmap ref BrowserInstance) :
  match (scan l h).1 with
  | Some r =>
      ∃ pre post i,
        l = pre ++ r :: post ∧
        (∀ x j, x ∈ pre → h !! x = Some j → lock j = true) ∧
        h !! r = Some i ∧ lock i = false ∧
        (scan l h).2 = <[r := set_lock true i]> h
  | None =>
      (scan l h).2 = h ∧ ∀ x j, x ∈ l → h !! x = Some j → lock j = true
  end.
Proof.
  induction l as [|x l IH]; simpl.
  - split; [done|]. by intros x j ?%elem_of_nil.
  - destruct (h !! x) as [i|] eqn:Hx.
    + destruct (lock i) eqn:Hl; simpl.
      * destruct (scan l h).1 as [r|].
        -- destruct IH as (pre & post & j & -> & Hpre & Hr & Hj & Hh).
           exists (x :: pre), post, j. split_and!; try done.
           intros y k [->|Hy]%elem_of_cons Hk; [congruence|by eapply Hpre].
        -- destruct IH as [Hh Hall]. split; [done|].
           intros y k [->|Hy]%elem_of_cons Hk; [congruence|by eapply Hall].
      * exists [], l, i. split_and!; try done. by intros y k ?%elem_of_nil.
    + destruct (scan l h).1 as [r|].
      * destruct IH as (pre & post & j & -> & Hpre & Hr & Hj & Hh).
        exists (x :: pre), post, j. split_and!; try done.
        intros y k [->|Hy]%elem_of_cons Hk; [congruence|by eapply Hpre].
      * destruct IH as [Hh Hall]. split; [done|].
        intros y k [->|Hy]%elem_of_cons Hk; [congruence|by eapply Hall].
Qed.

Lemma acquire_checked_return_ref r ok c now w r' :
  (acquire_checked r ok c now w).1 = Return r' → r' = r.
Proof.
  unfold acquire_checked. destruct (heap w !! r) as [i|]; [|by intros [= <-]].
  destruct (is_alive ok i) as [[] i1]; [by intros [= <-]|].
  destruct (revive c i1) as [[[] i2] evs]; [by intros [= <-]|done].
Qed.

(** X1.  The scan of acquire() takes the lock of the first session of the
    registry whose lock is free and of no other; every session before it
    is busy.  It takes nothing, and changes nothing, exactly when every
    session is busy. *)
Theorem scan_takes_first_free (l : list ref) (h : gmap ref BrowserInstance) :
  match (scan l h).1 with
  | Some r =>
      ∃ pre post i,
        l = pre ++ r :: post ∧
        (∀ x j, x ∈ pre → h !! x = Some j → lock j = true) ∧
        h !! r = Some i ∧ lock i = false ∧
        (scan l h).2 = <[r := set_lock true i]> h
  | None =>
      (scan l h).2 = h ∧ ∀ x j, x ∈ l → h !! x = Some j → lock j = true
  end.
Proof. apply scan_takes_first_free_aux. Qed.

(** ** A healthy idle session *)

(** X2.  When the scan of the first turn finds a session that counts as
    alive, has a driver and answers the probe, acquire() returns it in that
    turn: the session is locked and touched and otherwise unchanged, no
    session is created, Chrome is neither quit nor started, and the
    registry is as before. *)
Theorem acquire_takes_healthy_session (timeout t0 : Q) (e : tick) (rest : list tick)
    (w : World) (r : ref) (i : BrowserInstance) :
  others e = [] →
  (t_while e < t0 + timeout)%Q →
  (scan (_instances w) (heap w)).1 = Some r →
  heap w !! r = Some i →
  _alive i = true → is_Some (driver i) → title_ok e = true →
  ∃ w',
    acquire timeout t0 (e :: rest) w = Some (Return r, [], w') ∧
    heap w' = <[r := touch (t_touch e) (set_lock true i)]> (heap w) ∧
    _instances w' = _instances w ∧
    _id_counter w' = _id_counter w ∧
    trace w' = trace w ++ [EvRegistryLock; EvRegistryUnlock].
Proof.
  intros Hq Ht Hscan Hr Ha Hd Hok.
  unfold acquire. simpl. rewrite Hq. simpl.
  apply Qltb_lt in Ht. rewrite Ht.
  rewrite (acquire_locked_found _ _ _ r Hscan). simpl.
  destruct (scan_spec (_instances w) (heap w))
    as [(Hn & _)|(r1 & i1 & Hs & _ & Hr1 & Hl1 & Hh)]; [congruence|].
  assert (r1 = r) as -> by congruence.
  assert (i1 = i) as -> by congruence.
  set (w1 := emit [EvRegistryUnlock]
               (set_heap (scan (_instances w) (heap w)).2 (emit [EvRegistryLock] w))).
  assert (Hw1 : heap w1 !! r = Some (set_lock true i)).
  { simpl. rewrite Hh. apply lookup_insert_eq. }
  assert (Halive : (is_alive (title_ok e) (set_lock true i)).1 = true).
  { unfold is_alive. simpl. rewrite Ha, Hok. simpl.
    by rewrite (bool_decide_eq_true_2 _ Hd). }
  rewrite (acquire_checked_alive r _ _ _ w1 _ Hw1 Halive).
  eexists. split; [reflexivity|]. simpl.
  split_and!; try done.
  - rewrite Hh. by rewrite insert_insert_eq.
  - by rewrite <- app_assoc.
Qed.

Lemma acquire_takes_healthy_session_witness :
  ∃ w',
    acquire 30 0 [quiet_tick 6] (releases 2 [5%Q] pool_full)
      = Some (Return 2, [], w') ∧
    _instances w' = [1; 2; 3].
Proof.
  assert (Hr : heap (releases 2 [5%Q] pool_full) !! 2
               = Some (mkBrowserInstance 2 false false (Some 2) (Some 2)
                         false false 5%Q true (Some 102)))
    by (vm_compute; reflexivity).
  destruct (acquire_takes_healthy_session 30 0 (quiet_tick 6) []
              (releases 2 [5%Q] pool_full) 2 _ eq_refl eq_refl
              ltac:(vm_compute; reflexivity) Hr eq_refl
              ltac:(by eexists) eq_refl)
    as (w' & Hacq & _ & Hreg & _).
  exists w'. split; [exact Hacq|]. rewrite Hreg. vm_compute. reflexivity.
Defined.

(** ** A lease given back *)

Lemma acquire_checked_keeps r ok c now w i :
  heap w !! r = Some i →
  ∃ i', heap (acquire_checked r ok c now w).2 !! r = Some i' ∧ lock i' = lock i.
Proof.
  intros Hr. unfold acquire_checked. rewrite Hr.
  destruct (is_alive_frame ok i) as (_ & _ & Hl & _).
  destruct (is_alive ok i) as [[] i1]; simpl in *.
  - eexists. split; [apply lookup_insert_eq|]. done.
  - destruct (quit_frame i1) as (_ & _ & Hql & _).
    unfold revive. destruct (quit i1) as [s1 ev1]. simpl in *. unfold start.
    destruct (launch_driver c); simpl;
      (eexists; split; [apply lookup_insert_eq|]); simpl; congruence.
Qed.

Lemma acquire_loop_registered deadline turns : ∀ sp w r created w',
  acquire_loop deadline sp turns w = Some (Return r, created, w') →
  r ∈ _instances w' ∧ locked (heap w') r = true.
Proof.
  induction turns as [|e rest IH]; intros sp w r created w'; simpl; [done|].
  destruct (Qltb (t_while e) deadline); [|done].
  set (w0 := run_actions (others e) w).
  destruct (acquire_locked_pass sp (t_init e) w0) as [Hinst _]. simpl in Hinst.
  destruct (inst (acquire_locked sp (t_init e) w0)) as [r0|] eqn:Hi.
  - symmetry in Hinst.
    destruct (scan_spec (_instances w0) (heap w0))
      as [(Hn & _)|(r1 & i0 & Hs & Hin & Hr & Hl & Hh)]; [congruence|].
    assert (r1 = r0) as -> by congruence.
    rewrite (acquire_locked_found _ _ _ r0 Hinst). simpl.
    set (w1 := emit [EvRegistryUnlock]
                 (set_heap (scan (_instances w0) (heap w0)).2
                    (emit [EvRegistryLock] w0))).
    assert (Hr1 : heap w1 !! r0 = Some (set_lock true i0)).
    { simpl. rewrite Hh. apply lookup_insert_eq. }
    pose proof (instances_acquire_checked r0 (title_ok e) (relaunch e)
                  (t_touch e) w1) as Hreg.
    destruct (acquire_checked_keeps r0 (title_ok e) (relaunch e) (t_touch e)
                w1 _ Hr1) as (i' & Hi' & Hl').
    pose proof (acquire_checked_return_ref r0 (title_ok e) (relaunch e)
                  (t_touch e) w1) as Href.
    destruct (acquire_checked r0 (title_ok e) (relaunch e) (t_touch e) w1)
      as [res w2]. simpl in *.
    intros [= -> _ <-]. specialize (Href r eq_refl) as ->.
    split; [by rewrite Hreg|]. unfold locked. by rewrite Hi', Hl'.
  - destruct (acquire_loop deadline
                (spawned_after (acquire_locked sp (t_init e) w0)) rest
                (world_after (acquire_locked sp (t_init e) w0)))
      as [[[res1 created1] w1]|] eqn:Hrec; [|done].
    intros [= -> _ <-]. by eapply IH.
Qed.

(** X3.  A session that acquire() returned is in the registry with its lock
    held; once it is released, the next pass of any caller through the
    registry lock obtains a session and creates none, and the session it
    obtains is the released one or one that stands before it in the
    registry. *)
Theorem released_session_is_reacquired (timeout t0 : Q) (turns : list tick)
    (w : World) (r : ref) (created : list ref) (w' : World) :
  acquire timeout t0 turns w = Some (Return r, created, w') →
  r ∈ _instances w' ∧ locked (heap w') r = true ∧
  ∀ now spawned t,
    let p := acquire_locked spawned t (release r now w').2 in
    new_inst p = None ∧
    _instances (world_after p) = _instances w' ∧
    ∃ r2 pre post,
      inst p = Some r2 ∧ _instances w' = pre ++ r2 :: post ∧
      (r2 = r ∨ r ∈ post) ∧
      locked (heap (world_after p)) r2 = true.
Proof.
  intros H. apply acquire_loop_registered in H as [Hin Hlocked].
  split; [done|]. split; [done|].
  intros now spawned t.
  unfold locked in Hlocked. destruct (heap w' !! r) as [i|] eqn:Hr; [|done].
  rewrite (release_eq r i now w' Hr). simpl.
  set (w2 := store r (set_lock false (touch now i)) w').
  pose proof (scan_takes_first_free_aux (_instances w2) (heap w2)) as Hscan.
  destruct (scan (_instances w2) (heap w2)).1 as [r2|] eqn:Hs.
  - destruct Hscan as (pre & post & j & Hl & Hpre & Hr2 & Hj & Hh).
    rewrite (acquire_locked_found _ _ _ r2 Hs). simpl.
    split; [done|]. split; [done|].
    exists r2, pre, post. split_and!; try done.
    + destruct (decide (r2 = r)) as [|Hne]; [by left|right].
      simpl in Hl. rewrite Hl in Hin.
      apply elem_of_app in Hin as [Hin|Hin].
      * specialize (Hpre r _ Hin (heap_store r _ w')). done.
      * apply elem_of_cons in Hin as [->|Hin]; done.
    + unfold locked. simpl. simpl in Hh. rewrite Hh.
      by rewrite lookup_insert_eq.
  - destruct Hscan as [_ Hall].
    specialize (Hall r _ Hin (heap_store r _ w')). done.
Qed.

Lemma released_session_is_reacquired_witness :
  ∃ created w',
    acquire 30 4 [quiet_tick 5; tick_after_release 6] pool_full
      = Some (Return 2, created, w') ∧
    inst (acquire_locked false 8 (release 2 7 w').2) = Some 2.
Proof.
  destruct (acquire 30 4 [quiet_tick 5; tick_after_release 6] pool_full)
    as [[[res created] w']|] eqn:H; [|vm_compute in H; discriminate].
  assert (res = Return 2) as ->
    by (vm_compute in H; injection H as Hres _ _; by rewrite <- Hres).
  exists created, w'. split; [reflexivity|].
  destruct (released_session_is_reacquired _ _ _ _ _ _ _ H) as (_ & _ & Hnext).
  destruct (Hnext 7%Q false 8%Q) as (_ & _ & r2 & pre & post & Hr2 & _).
  vm_compute in H. injection H as _ <-. vm_compute. reflexivity.
Defined.

(** ** quit() and is_alive() on their own *)

Lemma quit_quit self : quit (quit self).1 = ((quit self).1, []).
Proof.
  destruct self as [n p l d w a r t al sp]; unfold quit; simpl.
  destruct d as [d|], sp as [[|pid]|]; done.
Qed.

(** X4.  quit() calls driver.quit() on the driver it holds, if any, and
    then kill -9 on the recorded service pid, if any and not 0, in this
    order and nothing else.  A second quit(), and quit() on a session that
    was never started, reach nothing outside and change nothing. *)
Theorem quit_is_idempotent (self : BrowserInstance) :
  (quit self).2
    = match driver self with Some d => [EvDriverQuit d] | None => [] end
      ++ match _service_pid self with Some (S p) => [EvKill (S p)] | _ => [] end ∧
  quit (quit self).1 = ((quit self).1, []) ∧
  ∀ n perm now,
    quit (BrowserInstance_init n perm now) = (BrowserInstance_init n perm now, []).
Proof.
  split_and!.
  - destruct self as [n p l d w a r t al sp]; unfold quit; simpl.
    destruct d as [d|], sp as [[|pid]|]; done.
  - apply quit_quit.
  - done.
Qed.

(** X5.  is_alive() answers True only if the flag is set, a driver is held
    and the probe of driver.title succeeds, and then changes nothing.  Once
    it has answered False it keeps answering False, whatever the probe
    would say, and the session no longer changes. *)
Theorem is_alive_false_is_sticky (ok : bool) (self : BrowserInstance) :
  ((is_alive ok self).1 = true →
     ok = true ∧ _alive self = true ∧ is_Some (driver self) ∧
     (is_alive ok self).2 = self) ∧
  ((is_alive ok self).1 = false →
     ∀ ok', is_alive ok' (is_alive ok self).2 = (false, (is_alive ok self).2)).
Proof.
  unfold is_alive. destruct (_alive self) eqn:Ha; simpl.
  - case_bool_decide as Hd; simpl.
    + destruct ok; simpl.
      * split; [done|]. done.
      * split; [done|]. intros _ ok'. done.
    + split; [done|]. intros _ ok'. rewrite Ha. simpl.
      by rewrite (bool_decide_eq_false_2 _ Hd).
  - split; [done|]. intros _ ok'. by rewrite Ha.
Qed.

Lemma is_alive_false_is_sticky_witness :
  is_alive true (is_alive false sample_instance).2
  = (false, (is_alive false sample_instance).2).
Proof.
  exact (proj2 (is_alive_false_is_sticky false sample_instance) eq_refl true).
Defined.

(** ** A session killed by the watchdog *)

Lemma inst_quit_lookup r w i :
  heap w !! r = Some i →
  inst_quit r w = emit (EvQuit r :: (quit i).2) (store r (quit i).1 w).
Proof. intros H. unfold inst_quit. rewrite H. by destruct (quit i). Qed.

(** X6.  After the watchdog has quit a session, the health check of the
    next acquire() that holds it revives it when Chrome starts: one
    revive(), one launch, no second driver.quit() or kill; the session gets
    the new driver, counts as alive, has both cookie flags cleared and
    keeps its id, kind and lock. *)
Theorem killed_session_is_revived (r : ref) (i : BrowserInstance) (w : World)
    (ok : bool) (c : chrome_launch) (d : Driver) (now : Q) :
  heap w !! r = Some i →
  launch_driver c = Launched d →
  ∃ w2 i2,
    acquire_checked r ok c now (inst_quit r w) = (Return r, w2) ∧
    heap w2 !! r = Some i2 ∧
    _alive i2 = true ∧ driver i2 = Some d ∧
    autodoc_cookie_handled i2 = false ∧ realoem_cookie_handled i2 = false ∧
    last_used i2 = now ∧
    id i2 = id i ∧ permanent i2 = permanent i ∧ lock i2 = lock i ∧
    trace w2 = trace (inst_quit r w) ++ [EvRevive (id i); EvLaunch c].
Proof.
  intros Hr Hc. rewrite (inst_quit_lookup r w i Hr).
  set (w1 := emit (EvQuit r :: (quit i).2) (store r (quit i).1 w)).
  assert (Hw1 : heap w1 !! r = Some (quit i).1) by apply heap_store.
  destruct (quit_state i) as (Ha & Hd & _).
  destruct (quit_frame i) as (Hid & Hp & Hl & _).
  assert (Hdead : is_alive ok (quit i).1 = (false, (quit i).1))
    by by apply is_alive_dead.
  assert (Hdead1 : (is_alive ok (quit i).1).1 = false) by by rewrite Hdead.
  rewrite (acquire_checked_revived r ok c now w1 _ d Hw1 Hdead1 Hc).
  rewrite Hdead. simpl. rewrite (revive_ok c _ d Hc). simpl.
  rewrite quit_quit. simpl.
  eexists _, _. split; [reflexivity|]. simpl.
  rewrite lookup_insert_eq. split; [reflexivity|]. simpl.
  split_and!; try done. by rewrite Hid.
Qed.

Lemma killed_session_is_revived_witness :
  ∃ w2 i2,
    acquire_checked 2 true (chrome_ok 8) 9 (inst_quit 2 pool_full) = (Return 2, w2) ∧
    heap w2 !! 2 = Some i2 ∧ driver i2 = Some 8.
Proof.
  assert (Hr : heap pool_full !! 2
               = Some (mkBrowserInstance 2 false true (Some 2) (Some 2)
                         false false 2%Q true (Some 102)))
    by (vm_compute; reflexivity).
  destruct (killed_session_is_revived 2 _ pool_full true (chrome_ok 8) 8 9 Hr eq_refl)
    as (w2 & i2 & H & Hi & _ & Hd & _).
  exists w2, i2. split; [exact H|]. split; [exact Hi|exact Hd].
Defined.

(** X7.  If Chrome does not start when the health check of acquire() revives
    a session, acquire() raises the exception of the driver library and
    the session stays as it is: quit, locked and in the registry.  No scan
    takes it and no turn of the reaper removes it. *)
Theorem failed_revive_keeps_session_locked (r : ref) (i : BrowserInstance) (w : World)
    (ok : bool) (c : chrome_launch) (b : bool) (msg : string) (now : Q) :
  heap w !! r = Some i → lock i = true →
  (is_alive ok i).1 = false →
  launch_driver c = LaunchFailed b msg →
  ∃ w2 i2,
    acquire_checked r ok c now w = (Raise (External b msg), w2) ∧
    heap w2 !! r = Some i2 ∧
    lock i2 = true ∧ _alive i2 = false ∧ driver i2 = None ∧
    _instances w2 = _instances w ∧
    (∀ l, (scan l (heap w2)).1 ≠ Some r) ∧
    (∀ t, reapable t (heap w2) r = false) ∧
    (∀ t, r ∈ _instances w → r ∈ _instances (_idle_reaper t w2).2).
Proof.
  intros Hr Hl Hdead Hc.
  destruct (acquire_checked_raises r ok c now w i b msg Hr Hdead Hc)
    as (w2 & Hrun & Hr2).
  pose proof (instances_acquire_checked r ok c now w) as Hreg.
  rewrite Hrun in Hreg. simpl in Hreg.
  destruct (is_alive_frame ok i) as (_ & _ & Hlk & _).
  destruct (quit_frame (is_alive ok i).2) as (_ & _ & Hql & _).
  destruct (quit_state (is_alive ok i).2) as (Hqa & Hqd & _).
  set (i2 := set_cookies false false (quit (is_alive ok i).2).1) in *.
  assert (Hl2 : lock i2 = true) by (simpl; congruence).
  assert (Hreap : ∀ t, reapable t (heap w2) r = false).
  { intros t. unfold reapable. rewrite Hr2, Hl2. simpl. by rewrite andb_false_r. }
  exists w2, i2. split_and!; try done.
  - intros l Hs.
    pose proof (scan_takes_first_free_aux l (heap w2)) as Hscan.
    rewrite Hs in Hscan. destruct Hscan as (_ & _ & j & _ & _ & Hj & Hfree & _).
    congruence.
  - intros t Hin. rewrite (proj1 (idle_reaper_registry t w2)).
    apply list_elem_of_In, filter_In. split.
    + apply list_elem_of_In. by rewrite Hreg.
    + by rewrite Hreap.
Qed.

Lemma failed_revive_keeps_session_locked_witness :
  ∃ w2,
    acquire_checked 2 true chrome_fails 9 (inst_quit 2 pool_full)
      = (Raise (External false "session not created"), w2) ∧
    locked (heap w2) 2 = true.
Proof.
  assert (Hr : heap (inst_quit 2 pool_full) !! 2
               = Some (mkBrowserInstance 2 false true None None
                         false false 2%Q false None))
    by (vm_compute; reflexivity).
  destruct (failed_revive_keeps_session_locked 2 _ (inst_quit 2 pool_full) true
              chrome_fails false "session not created" 9 Hr eq_refl eq_refl eq_refl)
    as (w2 & i2 & H & Hi & Hl & _).
  exists w2. split; [exact H|]. unfold locked. rewrite Hi. exact Hl.
Defined.

(** ** shutdown() *)

Lemma inst_quit_heap r w r' :
  heap (inst_quit r w) !! r'
  = if bool_decide (r' = r) then (λ i, (quit i).1) <$> heap w !! r' else heap w !! r'.
Proof.
  case_bool_decide as Heq.
  - subst r'. destruct (heap w !! r) as [i|] eqn:Hr.
    + rewrite (inst_quit_lookup r w i Hr). simpl. by rewrite lookup_insert_eq.
    + unfold inst_quit. by rewrite Hr, Hr.
  - destruct (heap w !! r) as [i|] eqn:Hr.
    + rewrite (inst_quit_lookup r w i Hr). simpl. by rewrite lookup_insert_ne.
    + unfold inst_quit. by rewrite Hr.
Qed.

Lemma quit_each_heap l : ∀ w r,
  heap (foldl (λ w r, inst_quit r w) w l) !! r
  = if bool_decide (r ∈ l) then (λ i, (quit i).1) <$> heap w !! r else heap w !! r.
Proof.
  induction l as [|x l IH]; intros w r; cbn [foldl].
  - by rewrite bool_decide_eq_false_2 by set_solver.
  - rewrite IH, inst_quit_heap.
    destruct (decide (r = x)) as [->|Hne].
    + rewrite (bool_decide_eq_true_2 (x = x)) by done.
      rewrite (bool_decide_eq_true_2 (x ∈ x :: l)) by set_solver.
      case_bool_decide; [|done].
      destruct (heap w !! x) as [i|]; simpl; [|done]. by rewrite quit_quit.
    + rewrite (bool_decide_eq_false_2 (r = x)) by done.
      case_bool_decide as Hin.
      * by rewrite bool_decide_eq_true_2 by set_solver.
      * by rewrite bool_decide_eq_false_2 by set_solver.
Qed.

Lemma shutdown_eq w :
  _stopped w = false →
  shutdown w =
    emit [EvKillOrphans]
      (emit [EvRegistryUnlock]
         (set_instances []
            (emit [EvRegistryLock]
               (foldl (λ w r, inst_quit r w)
                  (emit [EvRegistryUnlock]
                     (set_stopped true (emit [EvRegistryLock] w)))
                  (_instances w))))).
Proof.
  intros Hs. unfold shutdown.
  change (_stopped (emit [EvRegistryLock] w)) with (_stopped w).
  by rewrite Hs.
Qed.

Lemma shutdown_stopped w : _stopped (shutdown w) = true.
Proof.
  destruct (_stopped w) eqn:Hs.
  - unfold shutdown.
    change (_stopped (emit [EvRegistryLock] w)) with (_stopped w).
    by rewrite Hs.
  - rewrite (shutdown_eq w Hs).
    destruct (quit_each_spec (_instances w)
                (emit [EvRegistryUnlock] (set_stopped true (emit [EvRegistryLock] w))))
      as (tail & _ & _ & Hst & _).
    simpl. by rewrite Hst.
Qed.

Lemma shutdown_quits_registered_sessions_aux w :
  _stopped w = false →
  _stopped (shutdown w) = true ∧ _instances (shutdown w) = [] ∧
  _id_counter (shutdown w) = _id_counter w.
Proof.
  intros Hs. split_and!.
  - apply shutdown_stopped.
  - rewrite instances_shutdown. by rewrite Hs.
  - rewrite (shutdown_eq w Hs).
    destruct (quit_each_spec (_instances w)
                (emit [EvRegistryUnlock] (set_stopped true (emit [EvRegistryLock] w))))
      as (tail & _ & Hc & _).
    simpl. by rewrite Hc.
Qed.

(** X8.  shutdown() on a pool that was not stopped sets the stopped flag,
    quits every session of the registry, leased or not, and empties the
    registry.  A session that was registered is left without driver and
    not alive, with its lock as it was; the other sessions are untouched.
    Every quit() lies between the two passes through the registry lock, and
    the sweep for left-over Chrome processes comes last. *)
Theorem shutdown_quits_registered_sessions (w : World) :
  _stopped w = false →
  _stopped (shutdown w) = true ∧
  _instances (shutdown w) = [] ∧
  _id_counter (shutdown w) = _id_counter w ∧
  (∀ r, heap (shutdown w) !! r
        = if bool_decide (r ∈ _instances w)
          then (λ i, (quit i).1) <$> heap w !! r else heap w !! r) ∧
  (∀ r i, r ∈ _instances w → heap w !! r = Some i →
          ∃ i', heap (shutdown w) !! r = Some i' ∧
                _alive i' = false ∧ driver i' = None ∧ lock i' = lock i) ∧
  ∃ tail,
    trace (shutdown w)
      = trace w ++ [EvRegistryLock; EvRegistryUnlock] ++ tail
          ++ [EvRegistryLock; EvRegistryUnlock; EvKillOrphans] ∧
    Forall (λ e, teardown_event e = true) tail ∧
    (∀ r, EvQuit r ∈ tail ↔ r ∈ _instances w ∧ is_Some (heap w !! r)).
Proof.
  intros Hs.
  set (w0 := emit [EvRegistryUnlock] (set_stopped true (emit [EvRegistryLock] w))).
  destruct (quit_each_spec (_instances w) w0)
    as (tail & Hl & Hc & Hst & _ & Ht & Hf & Hq).
  assert (Hheap : ∀ r, heap (shutdown w) !! r
            = if bool_decide (r ∈ _instances w)
              then (λ i, (quit i).1) <$> heap w !! r else heap w !! r).
  { intros r. rewrite (shutdown_eq w Hs).
    exact (quit_each_heap (_instances w) w0 r). }
  split_and!.
  - apply shutdown_stopped.
  - rewrite instances_shutdown. by rewrite Hs.
  - rewrite (shutdown_eq w Hs). fold w0. simpl. by rewrite Hc.
  - done.
  - intros r i Hin Hr. rewrite Hheap, bool_decide_eq_true_2, Hr by done. simpl.
    destruct (quit_state i) as (Ha & Hd & _).
    destruct (quit_frame i) as (_ & _ & Hlk & _).
    by eexists.
  - exists tail. split_and!; [|done|done].
    rewrite (shutdown_eq w Hs). fold w0. simpl. rewrite Ht. simpl.
    by rewrite <- !app_assoc.
Qed.

Lemma shutdown_quits_registered_sessions_witness :
  _instances (shutdown pool_full) = [] ∧
  locked (heap (shutdown pool_full)) 2 = true.
Proof.
  destruct (shutdown_quits_registered_sessions pool_full eq_refl)
    as (_ & Hreg & _).
  split; [exact Hreg|]. vm_compute. reflexivity.
Defined.

(** X9.  A second shutdown() only passes through the registry lock: no
    session is quit again, no process is swept, and the pool is as the
    first call left it.  The same holds for any pool that is already
    stopped. *)
Theorem shutdown_is_idempotent (w : World) :
  shutdown (shutdown w) = emit [EvRegistryLock; EvRegistryUnlock] (shutdown w) ∧
  (_stopped w = true →
     shutdown w = emit [EvRegistryLock; EvRegistryUnlock] w).
Proof.
  assert (Hstopped : ∀ w0, _stopped w0 = true →
            shutdown w0 = emit [EvRegistryLock; EvRegistryUnlock] w0).
  { intros w0 H0. unfold shutdown.
    change (_stopped (emit [EvRegistryLock] w0)) with (_stopped w0).
    rewrite H0. unfold emit. simpl. by rewrite <- app_assoc. }
  split; [|apply Hstopped].
  apply Hstopped, shutdown_stopped.
Qed.

Lemma shutdown_is_idempotent_witness :
  shutdown (shutdown pool_full)
  = emit [EvRegistryLock; EvRegistryUnlock] (shutdown pool_full).
Proof. exact (proj1 (shutdown_is_idempotent pool_full)). Defined.

(** X10.  shutdown() does not close the pool for acquire(): the next pass
    of acquire() sees an empty registry and, unless it already spawned,
    creates and registers a new temporary session. *)
Theorem acquire_after_shutdown_spawns (w : World) (now : Q) :
  _stopped w = false →
  let p := acquire_locked false now (shutdown w) in
  inst p = None ∧
  new_inst p = Some (S (_id_counter w)) ∧
  _instances (world_after p) = [S (_id_counter w)] ∧
  _stopped (world_after p) = true ∧
  locked (heap (world_after p)) (S (_id_counter w)) = true.
Proof.
  intros Hs.
  destruct (shutdown_quits_registered_sessions_aux w Hs) as (Hst & Hreg & Hc).
  rewrite acquire_locked_spawn.
  - simpl. rewrite Hreg, Hc, Hst. split_and!; try done.
    unfold locked. by rewrite lookup_insert_eq.
  - by rewrite Hreg.
  - rewrite Hreg. simpl. unfold POOL_MAX_INSTANCES. lia.
Qed.

Lemma acquire_after_shutdown_spawns_witness :
  new_inst (acquire_locked false 9 (shutdown pool_full)) = Some 4.
Proof.
  exact (proj1 (proj2 (acquire_after_shutdown_spawns pool_full 9 eq_refl))).
Defined.

(** ** The thread that starts a temporary session *)

Lemma inst_start_lookup r c w i :
  heap w !! r = Some i →
  inst_start r c w = ((start c i).1.1, emit (start c i).2 (store r (start c i).1.2 w)).
Proof.
  intros H. unfold inst_start. rewrite H. by destruct (start c i) as [[res i'] evs].
Qed.

Lemma list_remove_first_absent x l :
  x ∉ l → list_remove_first x l = Raise ValueError.
Proof.
  induction l as [|y l IH]; intros Hx; simpl; [done|].
  rewrite bool_decide_eq_false_2 by set_solver. by rewrite IH by set_solver.
Qed.

(** X11.  _start_instance never raises and always ends with the lock of
    the session free.  When Chrome starts, the session has the new driver
    and counts as alive, and the registry is unchanged.  When Chrome does
    not start, the session is taken out of the registry (its first
    occurrence; it is gone if the registry had no repetition), is quit,
    and the other sessions are untouched. *)
Theorem start_instance_outcome (r : ref) (i : BrowserInstance) (c : chrome_launch)
    (w : World) :
  heap w !! r = Some i →
  (∀ d, launch_driver c = Launched d →
     ∃ w',
       _start_instance r c w = (Return tt, w') ∧
       heap w' !! r
         = Some (set_lock false
                   (set_service_pid (launch_pid c)
                      (set_alive true (set_driver (Some d) (Some d) i)))) ∧
       _instances w' = _instances w ∧
       trace w' = trace w ++ [EvLaunch c]) ∧
  (∀ b msg, launch_driver c = LaunchFailed b msg →
     ∃ w',
       _start_instance r c w = (Return tt, w') ∧
       heap w' !! r = Some (set_lock false (quit i).1) ∧
       (r ∉ _instances w → _instances w' = _instances w) ∧
       (∀ pre post, _instances w = pre ++ r :: post → r ∉ pre →
                    _instances w' = pre ++ post) ∧
       (NoDup (_instances w) → r ∉ _instances w') ∧
       (∀ r', r' ≠ r → heap w' !! r' = heap w !! r')).
Proof.
  intros Hr. split.
  - intros d Hc. unfold _start_instance.
    rewrite (inst_start_lookup r c w i Hr), (start_ok c d i Hc). simpl.
    erewrite release_quietly_eq; [|apply heap_store].
    eexists. split; [reflexivity|]. simpl. split_and!; try done.
    by rewrite insert_insert_eq, lookup_insert_eq.
  - intros b msg Hc. unfold _start_instance.
    rewrite (inst_start_lookup r c w i Hr), (start_raises c b msg i Hc). simpl.
    rewrite (store_same r i w Hr).
    set (w1 := emit [EvRegistryUnlock]
                 (if bool_decide (r ∈ _instances w)
                  then match list_remove_first r (_instances w) with
                       | Return l =>
                           emit [EvRemove r]
                             (set_instances l (emit [EvRegistryLock] (emit [EvLaunch c] w)))
                       | Raise _ => emit [EvRegistryLock] (emit [EvLaunch c] w)
                       end
                  else emit [EvRegistryLock] (emit [EvLaunch c] w))).
    assert (Hh1 : heap w1 = heap w).
    { unfold w1. case_bool_decide; [|done].
      by destruct (list_remove_first r (_instances w)). }
    assert (Hr1 : heap w1 !! r = Some i) by by rewrite Hh1.
    rewrite (inst_quit_lookup r w1 i Hr1).
    erewrite release_quietly_eq; [|apply heap_store].
    eexists. split; [reflexivity|]. simpl.
    rewrite !insert_insert_eq, lookup_insert_eq.
    assert (Habs : r ∉ _instances w → _instances w1 = _instances w).
    { intros Hnin. unfold w1. by rewrite bool_decide_eq_false_2. }
    assert (Hmid : ∀ pre post, _instances w = pre ++ r :: post → r ∉ pre →
                     _instances w1 = pre ++ post).
    { intros pre post Hl Hpre. unfold w1.
      rewrite bool_decide_eq_true_2 by (rewrite Hl; set_solver).
      by rewrite Hl, list_remove_first_middle. }
    split_and!; try done.
    + intros Hnd Hin. change (r ∈ _instances w1) in Hin.
      destruct (decide (r ∈ _instances w)) as [Hrin|Hnin].
      * apply list_elem_of_split in Hrin as (pre & post & Hl).
        rewrite Hl in Hnd. apply NoDup_app in Hnd as (_ & Hdisj & Hnd2).
        apply NoDup_cons in Hnd2 as [Hpost _].
        assert (Hpre : r ∉ pre).
        { intros Hp. apply (Hdisj r Hp). by left. }
        rewrite (Hmid pre post Hl Hpre) in Hin. set_solver.
      * rewrite (Habs Hnin) in Hin. done.
    + intros r' Hne. rewrite lookup_insert_ne by done.
      change (heap w1 !! r' = heap w !! r'). by rewrite Hh1.
Qed.

Lemma start_instance_outcome_witness :
  ∃ w',
    _start_instance 2 chrome_fails pool_full = (Return tt, w') ∧
    _instances w' = [1; 3] ∧ locked (heap w') 2 = false.
Proof.
  assert (Hr : heap pool_full !! 2
               = Some (mkBrowserInstance 2 false true (Some 2) (Some 2)
                         false false 2%Q true (Some 102)))
    by (vm_compute; reflexivity).
  destruct (start_instance_outcome 2 _ chrome_fails pool_full Hr) as [_ Hfail].
  destruct (Hfail false "session not created" eq_refl)
    as (w' & Hrun & Hh & _ & Hmid & _).
  exists w'. split; [exact Hrun|]. split.
  - apply (Hmid [1] [3]); [vm_compute; reflexivity|].
    intros Hin. apply list_elem_of_singleton in Hin. discriminate Hin.
  - unfold locked. rewrite Hh. reflexivity.
Defined.

(** ** Identity of sessions and soundness of the registry *)

Lemma same_identity_refl i : same_identity i i.
Proof. done. Qed.

Lemma same_identity_trans i j k :
  same_identity i j → same_identity j k → same_identity i k.
Proof. unfold same_identity. intros [? ?] [? ?]. split; congruence. Qed.

Lemma same_identity_quit i : same_identity i (quit i).1.
Proof. destruct (quit_frame i) as (? & ? & _). by split. Qed.

Lemma same_identity_start c i : same_identity i (start c i).1.2.
Proof. unfold start. by destruct (launch_driver c). Qed.

Lemma same_identity_is_alive ok i : same_identity i (is_alive ok i).2.
Proof. destruct (is_alive_frame ok i) as (? & ? & _). by split. Qed.

Lemma same_identity_revive c i : same_identity i (revive c i).1.2.
Proof.
  unfold revive. pose proof (same_identity_quit i) as Hq.
  destruct (quit i) as [s1 ev1]. simpl in Hq.
  pose proof (same_identity_start c (set_cookies false false s1)) as Hs.
  destruct (start c (set_cookies false false s1)) as [[res s3] ev3]. simpl in *.
  eapply same_identity_trans; [exact Hq|]. exact Hs.
Qed.

Lemma keeps_identity_refl w : keeps_identity w w.
Proof. split; [done|]. intros r. by destruct (heap w !! r). Qed.

Lemma keeps_identity_trans w1 w2 w3 :
  keeps_identity w1 w2 → keeps_identity w2 w3 → keeps_identity w1 w3.
Proof.
  intros [Hc1 H1] [Hc2 H2]. split; [congruence|]. intros r.
  specialize (H1 r). specialize (H2 r).
  destruct (heap w1 !! r), (heap w2 !! r), (heap w3 !! r); try done.
  by eapply same_identity_trans.
Qed.

Lemma keeps_identity_heap w w' :
  heap w' = heap w → _id_counter w' = _id_counter w → keeps_identity w w'.
Proof.
  intros Hh Hc. split; [done|]. intros r. rewrite Hh. by destruct (heap w !! r).
Qed.

Lemma keeps_identity_store r i i' w :
  heap w !! r = Some i → same_identity i i' → keeps_identity w (store r i' w).
Proof.
  intros Hr Hi. split; [done|]. intros r'. simpl.
  destruct (decide (r = r')) as [<-|Hne].
  - by rewrite lookup_insert_eq, Hr.
  - rewrite lookup_insert_ne by done. by destruct (heap w !! r').
Qed.

Lemma keeps_identity_inst_quit r w : keeps_identity w (inst_quit r w).
Proof.
  destruct (heap w !! r) as [i|] eqn:Hr.
  - rewrite (inst_quit_lookup r w i Hr).
    apply (keeps_identity_store r i (quit i).1 w Hr), same_identity_quit.
  - unfold inst_quit. rewrite Hr. apply keeps_identity_refl.
Qed.

Lemma keeps_identity_quit_each l : ∀ w,
  keeps_identity w (foldl (λ w r, inst_quit r w) w l).
Proof.
  induction l as [|x l IH]; intros w; simpl; [apply keeps_identity_refl|].
  eapply keeps_identity_trans; [apply keeps_identity_inst_quit|apply IH].
Qed.

Lemma keeps_identity_inst_start r c w : keeps_identity w (inst_start r c w).2.
Proof.
  destruct (heap w !! r) as [i|] eqn:Hr.
  - rewrite (inst_start_lookup r c w i Hr). simpl.
    apply (keeps_identity_store r i (start c i).1.2 w Hr), same_identity_start.
  - unfold inst_start. rewrite Hr. apply keeps_identity_refl.
Qed.

Lemma keeps_identity_release_quietly r w : keeps_identity w (release_quietly r w).2.
Proof.
  destruct (heap w !! r) as [i|] eqn:Hr.
  - rewrite (release_quietly_eq r i w Hr). simpl.
    by apply (keeps_identity_store r i (set_lock false i) w Hr).
  - unfold release_quietly. rewrite Hr. apply keeps_identity_refl.
Qed.

Lemma keeps_identity_release r now w : keeps_identity w (release r now w).2.
Proof.
  destruct (heap w !! r) as [i|] eqn:Hr.
  - rewrite (release_eq r i now w Hr). simpl.
    by apply (keeps_identity_store r i _ w Hr).
  - unfold release. rewrite Hr. apply keeps_identity_refl.
Qed.

Lemma keeps_identity_acquire_checked r ok c now w :
  keeps_identity w (acquire_checked r ok c now w).2.
Proof.
  unfold acquire_checked.
  destruct (heap w !! r) as [i|] eqn:Hr; [|apply keeps_identity_refl].
  pose proof (same_identity_is_alive ok i) as Ha.
  destruct (is_alive ok i) as [[] i1]; simpl in Ha.
  - by apply (keeps_identity_store r i _ w Hr).
  - pose proof (same_identity_revive c i1) as Hv.
    destruct (revive c i1) as [[[] i2] evs]; simpl in Hv;
      apply (keeps_identity_store r i _ w Hr);
      (eapply same_identity_trans; [exact Ha|]); [|exact Hv].
    eapply same_identity_trans; [exact Hv|]. done.
Qed.

Lemma keeps_identity_cookies r a b w : keeps_identity w (cookies_handled r a b w).
Proof.
  unfold cookies_handled.
  destruct (heap w !! r) as [i|] eqn:Hr; [|apply keeps_identity_refl].
  by apply (keeps_identity_store r i _ w Hr).
Qed.

Lemma keeps_identity_warmup_perm r warm w : keeps_identity w (_warmup_perm r warm w).2.
Proof.
  unfold _warmup_perm.
  eapply keeps_identity_trans; [|apply keeps_identity_release_quietly].
  destruct (heap w !! r) as [i|] eqn:Hr; [|apply keeps_identity_refl].
  by apply (keeps_identity_store r i _ w Hr).
Qed.

Lemma keeps_identity_start_instance r c w : keeps_identity w (_start_instance r c w).2.
Proof.
  unfold _start_instance.
  eapply keeps_identity_trans; [|apply keeps_identity_release_quietly].
  pose proof (keeps_identity_inst_start r c w) as Hs.
  destruct (inst_start r c w) as [[u|e] w1]; simpl in Hs; [done|].
  eapply keeps_identity_trans; [exact Hs|].
  eapply keeps_identity_trans; [|apply keeps_identity_inst_quit].
  apply keeps_identity_heap; [|simpl].
  - simpl. case_bool_decide; [|done].
    by destruct (list_remove_first r (_instances w1)).
  - case_bool_decide; [|done].
    by destruct (list_remove_first r (_instances w1)).
Qed.

Lemma keeps_identity_shutdown w : keeps_identity w (shutdown w).
Proof.
  destruct (_stopped w) eqn:Hs.
  - unfold shutdown.
    change (_stopped (emit [EvRegistryLock] w)) with (_stopped w).
    rewrite Hs. by apply keeps_identity_heap.
  - rewrite (shutdown_eq w Hs).
    set (w0 := emit [EvRegistryUnlock] (set_stopped true (emit [EvRegistryLock] w))).
    pose proof (keeps_identity_quit_each (_instances w) w0) as Hq.
    eapply keeps_identity_trans; [|apply keeps_identity_heap; reflexivity].
    eapply keeps_identity_trans; [|exact Hq]. by apply keeps_identity_heap.
Qed.

Lemma keeps_identity_idle_reaper now w : keeps_identity w (_idle_reaper now w).2.
Proof.
  destruct (remove_all_filter (reapable now (heap w)) (_instances w) []
              (emit [EvRegistryLock] w))
    as (w1 & Hrun & _ & Hh1 & Hc1 & _); [done|set_solver|].
  unfold _idle_reaper. simpl in *. rewrite Hrun. simpl.
  eapply keeps_identity_trans; [|apply keeps_identity_quit_each].
  by apply keeps_identity_heap.
Qed.

Lemma list_remove_first_sublist x l l' :
  list_remove_first x l = Return l' → l' `sublist_of` l.
Proof.
  revert l'. induction l as [|y l IH]; intros l'; simpl; [done|].
  case_bool_decide.
  - intros [= ->]. by apply sublist_cons.
  - destruct (list_remove_first x l) as [l''|e]; [|done].
    intros [= <-]. apply sublist_skip. by apply IH.
Qed.

Lemma list_filter_sublist {A} (f : A → bool) (l : list A) :
  List.filter f l `sublist_of` l.
Proof.
  induction l as [|x l IH]; simpl; [done|].
  destruct (f x); [by apply sublist_skip|by apply sublist_cons].
Qed.

Lemma action_cases a :
  (∃ sp now, a = A_acquire_locked sp now) ∨ (∀ sp now, a ≠ A_acquire_locked sp now).
Proof. destruct a; [left; by eexists _, _|right; done..]. Qed.

Lemma registry_sublist a w :
  (∀ sp now, a ≠ A_acquire_locked sp now) →
  _instances (run_action a w) `sublist_of` _instances w.
Proof.
  intros Hna.
  destruct a as [sp now|r ok c now|r now|r c|r warm|now| |r|r a b]; simpl.
  - by destruct (Hna sp now).
  - by rewrite instances_acquire_checked.
  - by rewrite instances_release.
  - unfold _start_instance. rewrite instances_release_quietly.
    pose proof (instances_inst_start r c w) as Hs.
    destruct (inst_start r c w) as [[u|e] w1]; simpl in Hs; [by rewrite Hs|].
    rewrite instances_inst_quit. simpl. rewrite <- Hs.
    case_bool_decide; [|done].
    destruct (list_remove_first r (_instances w1)) as [l|e'] eqn:Hrm; [|done].
    simpl. by eapply list_remove_first_sublist.
  - by rewrite instances_warmup_perm.
  - rewrite (proj1 (idle_reaper_registry now w)). apply list_filter_sublist.
  - rewrite instances_shutdown. destruct (_stopped w); [done|apply sublist_nil_l].
  - by rewrite instances_inst_quit.
  - by rewrite instances_cookies.
Qed.

Lemma keeps_identity_action a w :
  (∀ sp now, a ≠ A_acquire_locked sp now) →
  keeps_identity w (run_action a w).
Proof.
  intros Hna.
  destruct a as [sp now|r ok c now|r now|r c|r warm|now| |r|r a b]; simpl.
  - by destruct (Hna sp now).
  - apply keeps_identity_acquire_checked.
  - apply keeps_identity_release.
  - apply keeps_identity_start_instance.
  - apply keeps_identity_warmup_perm.
  - apply keeps_identity_idle_reaper.
  - apply keeps_identity_shutdown.
  - apply keeps_identity_inst_quit.
  - apply keeps_identity_cookies.
Qed.

Lemma consistent_keeps w w' :
  consistent w → keeps_identity w w' →
  _instances w' `sublist_of` _instances w → consistent w'.
Proof.
  intros (Hid & Hreg & Hnd) [Hc Hk] Hsub. split_and!.
  - intros r i' Hr'. specialize (Hk r). rewrite Hr' in Hk.
    destruct (heap w !! r) as [i|] eqn:Hr; [|done].
    destruct Hk as [Hki Hkp]. destruct (Hid r i Hr) as (? & ? & ?).
    rewrite Hc, Hki, Hkp. done.
  - intros r Hin. eapply elem_of_sublist in Hin; [|exact Hsub].
    destruct (Hreg r Hin) as [i Hr]. specialize (Hk r). rewrite Hr in Hk.
    destruct (heap w' !! r); [by eexists|done].
  - by eapply sublist_NoDup.
Qed.

Lemma consistent_spawn w now evs :
  consistent w →
  consistent
    (mkWorld
       (<[S (_id_counter w)
          := set_lock true (BrowserInstance_init (S (_id_counter w)) false now)]>
          (heap w))
       (S (_id_counter w)) (_instances w ++ [S (_id_counter w)]) (_stopped w) evs).
Proof.
  intros (Hid & Hreg & Hnd). split_and!; simpl.
  - intros r i. destruct (decide (r = S (_id_counter w))) as [->|Hne].
    + rewrite lookup_insert_eq. intros [= <-]. simpl. split_and!; [done|lia|lia|done].
    + rewrite lookup_insert_ne by done. intros Hr.
      destruct (Hid r i Hr) as (? & ? & ?). split_and!; [done|lia|lia|done].
  - intros r [Hin| ->%list_elem_of_singleton]%elem_of_app.
    + destruct (decide (r = S (_id_counter w))) as [->|Hne].
      * rewrite lookup_insert_eq. by eexists.
      * rewrite lookup_insert_ne by done. by apply Hreg.
    + rewrite lookup_insert_eq. by eexists.
  - apply NoDup_app. split_and!; [done| |apply NoDup_singleton].
    intros r Hin ->%list_elem_of_singleton.
    destruct (Hreg _ Hin) as [i Hr]. destruct (Hid _ i Hr) as (_ & ? & _). lia.
Qed.

Lemma consistent_acquire_locked sp now w :
  consistent w → consistent (world_after (acquire_locked sp now w)).
Proof.
  intros Hw.
  destruct (scan_spec (_instances w) (heap w))
    as [(Hn & _)|(r & i & Hs & Hin & Hr & Hl & Hh)].
  - destruct (decide (length (_instances w) < POOL_MAX_INSTANCES)) as [Hroom|Hfull].
    + destruct sp.
      * rewrite acquire_locked_spawned by done. simpl.
        eapply consistent_keeps; [exact Hw|by apply keeps_identity_heap|done].
      * rewrite acquire_locked_spawn by done. simpl. by apply consistent_spawn.
    + rewrite acquire_locked_idle by (done || lia). simpl.
      eapply consistent_keeps; [exact Hw|by apply keeps_identity_heap|done].
  - rewrite (acquire_locked_found _ _ _ r Hs). simpl.
    eapply consistent_keeps; [exact Hw| |done].
    split; [done|]. intros r'. simpl. rewrite Hh.
    destruct (decide (r = r')) as [<-|Hne].
    + by rewrite lookup_insert_eq, Hr.
    + rewrite lookup_insert_ne by done. by destruct (heap w !! r').
Qed.

Lemma consistent_action a w : consistent w → consistent (run_action a w).
Proof.
  intros Hw.
  destruct (action_cases a) as [(sp & now & ->)|Hna'].
  - simpl. by apply consistent_acquire_locked.
  - eapply consistent_keeps; [exact Hw|..].
    + by apply keeps_identity_action.
    + by apply registry_sublist.
Qed.

Lemma consistent_startup c now res w :
  pool_start c now fresh_world = (res, w) → consistent w.
Proof.
  destruct (launch_driver c) as [d|b msg] eqn:Hc.
  - rewrite (pool_start_ok c now _ d Hc). simpl. intros [= _ <-].
    split_and!; simpl.
    + intros r i. destruct (decide (r = 1)) as [->|Hne].
      * rewrite lookup_insert_eq. intros [= <-]. simpl. split_and!; [done|lia|lia|done].
      * by rewrite lookup_insert_ne.
    + intros r ->%list_elem_of_singleton. rewrite lookup_insert_eq. by eexists.
    + apply NoDup_singleton.
  - unfold pool_start, inst_start, new_BrowserInstance. simpl.
    rewrite lookup_insert_eq, (start_raises c b msg _ Hc). simpl.
    intros [= _ <-]. split_and!; simpl.
    + intros r i. destruct (decide (r = 1)) as [->|Hne].
      * rewrite lookup_insert_eq. intros [= <-]. simpl. split_and!; [done|lia|lia|done].
      * by rewrite !lookup_insert_ne.
    + by intros r ?%elem_of_nil.
    + apply NoDup_nil_2.
Qed.

Lemma reachable_consistent w : reachable w → consistent w.
Proof.
  induction 1 as [c now res w Hstart|a w Hreach IH].
  - by eapply consistent_startup.
  - by apply consistent_action.
Qed.

Lemma identity_stable a w r i :
  consistent w → heap w !! r = Some i →
  ∃ i', heap (run_action a w) !! r = Some i' ∧ same_identity i i'.
Proof.
  intros Hw Hr.
  destruct (action_cases a) as [(sp & now & ->)|Hna'].
  - simpl. destruct Hw as (Hid & _).
    destruct (Hid r i Hr) as (_ & Hle & _).
    destruct (scan_spec (_instances w) (heap w))
      as [(Hn & _)|(r0 & i0 & Hs & Hin & Hr0 & Hl & Hh)].
    + destruct (decide (length (_instances w) < POOL_MAX_INSTANCES)) as [Hroom|Hfull].
      * destruct sp.
        -- rewrite acquire_locked_spawned by done. simpl. by eexists.
        -- rewrite acquire_locked_spawn by done. simpl.
           rewrite lookup_insert_ne by lia. by eexists.
      * rewrite acquire_locked_idle by (done || lia). simpl. by eexists.
    + rewrite (acquire_locked_found _ _ _ r0 Hs). simpl. rewrite Hh.
      destruct (decide (r0 = r)) as [->|Hne].
      * rewrite lookup_insert_eq. eexists. split; [done|].
        assert (i0 = i) as -> by congruence. done.
      * rewrite lookup_insert_ne by done. by eexists.
  - destruct (keeps_identity_action a w Hna') as [_ Hk].
    specialize (Hk r). rewrite Hr in Hk.
    destruct (heap (run_action a w) !! r) as [i'|]; [by eexists|done].
Qed.

(** X12.  In every state the server reaches, the id of a session is the
    number under which the object was created, lies between 1 and the
    class counter, and differs from the id of every other session.  A step
    of any thread never removes a session object and never changes its id
    or its kind. *)
Theorem reachable_sessions_keep_unique_ids (w : World) :
  reachable w →
  (∀ r i, heap w !! r = Some i → id i = r ∧ 1 ≤ id i ≤ _id_counter w) ∧
  (∀ r1 r2 i1 i2,
     heap w !! r1 = Some i1 → heap w !! r2 = Some i2 →
     id i1 = id i2 → r1 = r2) ∧
  (∀ a r i, heap w !! r = Some i →
     ∃ i', heap (run_action a w) !! r = Some i' ∧
           id i' = id i ∧ permanent i' = permanent i) ∧
  (∀ a, _id_counter w ≤ _id_counter (run_action a w)).
Proof.
  intros Hreach. pose proof (reachable_consistent w Hreach) as Hw.
  pose proof Hw as (Hid & _). split_and!.
  - intros r i Hr. destruct (Hid r i Hr) as (-> & ? & _). done.
  - intros r1 r2 i1 i2 H1 H2 Heq.
    destruct (Hid r1 i1 H1) as (<- & _). destruct (Hid r2 i2 H2) as (<- & _). done.
  - intros a r i Hr. destruct (identity_stable a w r i Hw Hr) as (i' & Hi' & Hsame & Hp).
    by exists i'.
  - intros a.
    destruct (action_cases a) as [(sp & now & ->)|Hna'].
    + simpl.
      destruct (scan_spec (_instances w) (heap w))
        as [(Hn & _)|(r0 & i0 & Hs & _)].
      * destruct (decide (length (_instances w) < POOL_MAX_INSTANCES)) as [Hroom|Hfull].
        -- destruct sp.
           ++ by rewrite acquire_locked_spawned.
           ++ rewrite acquire_locked_spawn by done. simpl. lia.
        -- by rewrite acquire_locked_idle by (done || lia).
      * by rewrite (acquire_locked_found _ _ _ r0 Hs).
    + destruct (keeps_identity_action a w Hna') as [-> _]. done.
Qed.

Lemma reachable_sessions_keep_unique_ids_witness :
  ∃ i, heap started_world !! 1 = Some i ∧ id i = 1.
Proof.
  destruct (heap started_world !! 1) as [i|] eqn:Hr;
    [|vm_compute in Hr; discriminate Hr].
  exists i. split; [reflexivity|].
  refine (proj1 (proj1 (reachable_sessions_keep_unique_ids started_world _) 1 i Hr)).
  apply (reach_startup (chrome_ok 1) 0%Q (Return tt)). reflexivity.
Defined.

(** X13.  In every state the server reaches, the registry lists no session
    twice and every session it lists exists. *)
Theorem reachable_registry_is_sound (w : World) :
  reachable w →
  NoDup (_instances w) ∧
  (∀ r, r ∈ _instances w → ∃ i, heap w !! r = Some i ∧ id i = r) ∧
  length (_instances w) ≤ _id_counter w.
Proof.
  intros Hreach. destruct (reachable_consistent w Hreach) as (Hid & Hreg & Hnd).
  split_and!; [done| |].
  - intros r Hin. destruct (Hreg r Hin) as [i Hr]. exists i. split; [done|].
    by destruct (Hid r i Hr) as (? & _).
  - assert (Hsub : _instances w ⊆ seq 1 (_id_counter w)).
    { intros r Hin. destruct (Hreg r Hin) as [i Hr].
      destruct (Hid r i Hr) as (_ & ? & _). apply elem_of_seq. lia. }
    rewrite <- (length_seq (_id_counter w) 1).
    apply submseteq_length, NoDup_submseteq; [done|]. intros x Hx. by apply Hsub.
Qed.

Lemma reachable_registry_is_sound_witness : NoDup (_instances started_world).
Proof.
  refine (proj1 (reachable_registry_is_sound started_world _)).
  apply (reach_startup (chrome_ok 1) 0%Q (Return tt)). reflexivity.
Defined.

(** ** status() *)

Lemma lock_free_step_refl w : lock_free_step w w.
Proof. by split_and!. Qed.

Lemma lock_free_step_trans w1 w2 w3 :
  lock_free_step w1 w2 → lock_free_step w2 w3 → lock_free_step w1 w3.
Proof.
  intros (Hi1 & Hl1 & Hp1) (Hi2 & Hl2 & Hp2). split_and!.
  - by rewrite Hi2.
  - intros r H. by apply Hl1, Hl2.
  - intros r. by rewrite Hp2.
Qed.

Lemma keeps_identity_permanent w w' r :
  keeps_identity w w' → is_permanent (heap w') r = is_permanent (heap w) r.
Proof.
  intros [_ H]. specialize (H r). unfold is_permanent.
  destruct (heap w !! r) as [i|], (heap w' !! r) as [i'|]; try done.
  by destruct H.
Qed.

Lemma locked_store r r' i w :
  locked (heap (store r i w)) r'
  = if bool_decide (r' = r) then lock i else locked (heap w) r'.
Proof.
  unfold locked. case_bool_decide as H.
  - subst. by rewrite heap_store.
  - by rewrite heap_store_ne.
Qed.

Lemma locked_emit evs w r : locked (heap (emit evs w)) r = locked (heap w) r.
Proof. done. Qed.

Lemma locked_release_quietly r r' w :
  locked (heap (release_quietly r w).2) r' = true → locked (heap w) r' = true.
Proof.
  unfold release_quietly. destruct (heap w !! r) as [i|] eqn:Hr; [|done].
  destruct (lock i) eqn:Hl; simpl; [|done].
  change (locked (heap (store r (set_lock false i) w)) r' = true → locked (heap w) r' = true).
  rewrite locked_store. by case_bool_decide.
Qed.

(* a store that keeps the lock of the session *)
Lemma locked_store_same r r' i i' w :
  heap w !! r = Some i → lock i' = lock i →
  locked (heap (store r i' w)) r' = locked (heap w) r'.
Proof.
  intros Hr Hl. rewrite locked_store. case_bool_decide as H; [|done].
  subst. unfold locked. by rewrite Hr.
Qed.

Lemma locked_cookies r a b r' w :
  locked (heap (cookies_handled r a b w)) r' = locked (heap w) r'.
Proof.
  unfold cookies_handled. destruct (heap w !! r) as [i|] eqn:Hr; [|done].
  by apply (locked_store_same r r' i).
Qed.

Lemma locked_release r now r' w :
  locked (heap (release r now w).2) r' = true → locked (heap w) r' = true.
Proof.
  unfold release. destruct (heap w !! r) as [i|] eqn:Hr; [|done].
  intros H%locked_release_quietly. by rewrite (locked_store_same r r' i) in H.
Qed.

Lemma locked_warmup_perm r warm r' w :
  locked (heap (_warmup_perm r warm w).2) r' = true → locked (heap w) r' = true.
Proof.
  unfold _warmup_perm. intros H%locked_release_quietly.
  destruct (heap w !! r) as [i|] eqn:Hr; [|done].
  by rewrite (locked_store_same r r' i) in H.
Qed.

Lemma locked_acquire_checked r ok c now r' w :
  locked (heap (acquire_checked r ok c now w).2) r' = locked (heap w) r'.
Proof.
  unfold acquire_checked. destruct (heap w !! r) as [i|] eqn:Hr; [|done].
  destruct (is_alive_frame ok i) as (_ & _ & Hl & _).
  destruct (is_alive ok i) as [[|] i1]; simpl in Hl.
  - simpl. by apply (locked_store_same r r' i).
  - destruct (quit_frame i1) as (_ & _ & Hq & _).
    unfold revive. destruct (quit i1) as [i2 ev2]. simpl in Hq.
    unfold start. destruct (launch_driver c); simpl;
      rewrite ?locked_emit; apply (locked_store_same r r' i); try done;
      simpl; congruence.
Qed.

Lemma locked_inst_start r c r' w :
  locked (heap (inst_start r c w).2) r' = locked (heap w) r'.
Proof.
  unfold inst_start. destruct (heap w !! r) as [i|] eqn:Hr; [|done].
  unfold start. destruct (launch_driver c); simpl;
    rewrite ?locked_emit; by apply (locked_store_same r r' i).
Qed.

Lemma locked_start_instance r c r' w :
  takes_registry_lock (A_start_instance r c) = false →
  locked (heap (_start_instance r c w).2) r' = true → locked (heap w) r' = true.
Proof.
  simpl. destruct (launch_driver c) as [d|b msg] eqn:Hc; [intros _|done].
  unfold _start_instance.
  assert (Hres : (inst_start r c w).1 = Return tt).
  { unfold inst_start. destruct (heap w !! r); [|done].
    unfold start. by rewrite Hc. }
  pose proof (locked_inst_start r c r' w) as Hl.
  destruct (inst_start r c w) as [[u|e] w1]; simpl in Hres, Hl; [|done].
  intros H%locked_release_quietly. by rewrite <- Hl.
Qed.

Lemma instances_lock_free a w :
  takes_registry_lock a = false → _instances (run_action a w) = _instances w.
Proof.
  destruct a as [sp now|r ok c now|r now|r c|r warm|now| |r|r a b]; simpl; try done.
  - intros _. apply instances_acquire_checked.
  - intros _. apply instances_release.
  - destruct (launch_driver c) as [d|b msg] eqn:Hc; [intros _|done].
    unfold _start_instance.
    assert (Hres : (inst_start r c w).1 = Return tt).
    { unfold inst_start. destruct (heap w !! r); [|done].
      unfold start. by rewrite Hc. }
    pose proof (instances_inst_start r c w) as Hi.
    destruct (inst_start r c w) as [[u|e] w1]; simpl in Hres, Hi; [|done].
    by rewrite instances_release_quietly.
  - intros _. apply instances_warmup_perm.
  - intros _. apply instances_inst_quit.
  - intros _. apply instances_cookies.
Qed.

Lemma run_action_lock_free a w :
  takes_registry_lock a = false → lock_free_step w (run_action a w).
Proof.
  intros Ha. split_and!.
  - by apply instances_lock_free.
  - intros r'. destruct a as [sp now|r ok c now|r now|r c|r warm|now| |r|r a b];
      try done; simpl.
    + by rewrite locked_acquire_checked.
    + apply locked_release.
    + by apply locked_start_instance.
    + apply locked_warmup_perm.
    + by rewrite locked_inst_quit.
    + by rewrite locked_cookies.
  - intros r'. apply keeps_identity_permanent, keeps_identity_action.
    intros sp now ->. done.
Qed.

Lemma run_actions_lock_free l : ∀ w,
  (∀ a, a ∈ l → takes_registry_lock a = false) → lock_free_step w (run_actions l w).
Proof.
  induction l as [|a l IH]; intros w Hl; [apply lock_free_step_refl|].
  change (run_actions (a :: l) w) with (run_actions l (run_action a w)).
  eapply lock_free_step_trans.
  - apply run_action_lock_free, Hl. by left.
  - apply IH. intros b Hb. apply Hl. by right.
Qed.

Lemma filter_length_mono {A} (f g : A → bool) (l : list A) :
  (∀ x, f x = true → g x = true) →
  length (List.filter f l) ≤ length (List.filter g l).
Proof.
  intros H. induction l as [|x l IH]; simpl; [done|].
  destruct (f x) eqn:Hf.
  - rewrite (H x Hf). simpl. lia.
  - destruct (g x); simpl; lia.
Qed.

(* a generator whose test can only turn from true to false while the other
   threads move *)
Lemma count_reads_falling test others l :
  (∀ k a, a ∈ others k → takes_registry_lock a = false) →
  (∀ w w' r, lock_free_step w w' → test (heap w') r = true → test (heap w) r = true) →
  ∀ k w,
    lock_free_step w (count_reads test l others k w).2 ∧
    length (List.filter (test (heap (count_reads test l others k w).2)) l)
      ≤ (count_reads test l others k w).1 ∧
    (count_reads test l others k w).1 ≤ length (List.filter (test (heap w)) l).
Proof.
  intros Hothers Hfall. induction l as [|r l IH]; intros k w.
  - simpl. split_and!; [apply lock_free_step_refl|done|done].
  - cbn [count_reads]. cbn zeta.
    pose proof (run_actions_lock_free (others k) w (Hothers k)) as H1.
    destruct (IH (S k) (run_actions (others k) w)) as (H2 & Hlo & Hhi).
    destruct (count_reads test l others (S k) (run_actions (others k) w))
      as [n w2]. simpl in *.
    split_and!.
    + by eapply lock_free_step_trans.
    + destruct (test (heap w2) r) eqn:Ht2.
      * rewrite (Hfall _ _ r H2 Ht2). simpl. lia.
      * destruct (test (heap (run_actions (others k) w)) r); simpl; lia.
    + pose proof (filter_length_mono (test (heap (run_actions (others k) w)))
                    (test (heap w)) l (λ x, Hfall _ _ x H1)) as Hle.
      destruct (test (heap (run_actions (others k) w)) r) eqn:Ht1.
      * rewrite (Hfall _ _ r H1 Ht1). simpl. lia.
      * destruct (test (heap w) r); simpl; lia.
Qed.

(* a generator whose test can only turn from false to true *)
Lemma count_reads_rising test others l :
  (∀ k a, a ∈ others k → takes_registry_lock a = false) →
  (∀ w w' r, lock_free_step w w' → test (heap w) r = true → test (heap w') r = true) →
  ∀ k w,
    lock_free_step w (count_reads test l others k w).2 ∧
    length (List.filter (test (heap w)) l) ≤ (count_reads test l others k w).1 ∧
    (count_reads test l others k w).1
      ≤ length (List.filter (test (heap (count_reads test l others k w).2)) l).
Proof.
  intros Hothers Hrise. induction l as [|r l IH]; intros k w.
  - simpl. split_and!; [apply lock_free_step_refl|done|done].
  - cbn [count_reads]. cbn zeta.
    pose proof (run_actions_lock_free (others k) w (Hothers k)) as H1.
    destruct (IH (S k) (run_actions (others k) w)) as (H2 & Hlo & Hhi).
    destruct (count_reads test l others (S k) (run_actions (others k) w))
      as [n w2]. simpl in *.
    split_and!.
    + by eapply lock_free_step_trans.
    + pose proof (filter_length_mono (test (heap w))
                    (test (heap (run_actions (others k) w))) l
                    (λ x, Hrise _ _ x H1)) as Hle.
      destruct (test (heap w) r) eqn:Ht0.
      * rewrite (Hrise _ _ r H1 Ht0). simpl. lia.
      * destruct (test (heap (run_actions (others k) w)) r); simpl; lia.
    + destruct (test (heap (run_actions (others k) w)) r) eqn:Ht1.
      * rewrite (Hrise _ _ r H2 Ht1). simpl. lia.
      * destruct (test (heap w2) r); simpl; lia.
Qed.

Lemma count_reads_quiet test l : ∀ k w,
  count_reads test l no_steps k w = (length (List.filter (test (heap w)) l), w).
Proof.
  induction l as [|r l IH]; intros k w; [done|].
  cbn [count_reads]. cbn zeta. change (run_actions (no_steps k) w) with w.
  rewrite IH. simpl. by destruct (test (heap w) r).
Qed.

Lemma lock_free_step_permanent w w' l :
  lock_free_step w w' →
  List.filter (is_permanent (heap w')) l = List.filter (is_permanent (heap w)) l ∧
  List.filter (λ r, negb (is_permanent (heap w') r)) l
  = List.filter (λ r, negb (is_permanent (heap w) r)) l.
Proof.
  intros (_ & _ & Hp). split; apply List.filter_ext; intros r; by rewrite Hp.
Qed.

Lemma count_reads_permanent others l (b : bool) :
  (∀ k a, a ∈ others k → takes_registry_lock a = false) →
  ∀ k w,
    lock_free_step w
      (count_reads (λ h r, if b then is_permanent h r else negb (is_permanent h r))
         l others k w).2 ∧
    (count_reads (λ h r, if b then is_permanent h r else negb (is_permanent h r))
       l others k w).1
    = length (List.filter
                (λ r, if b then is_permanent (heap w) r else negb (is_permanent (heap w) r))
                l).
Proof.
  intros Hothers k w.
  set (test := λ (h : gmap ref BrowserInstance) (r : ref),
                 if b then is_permanent h r else negb (is_permanent h r)).
  assert (Hsame : ∀ w1 w2 r, lock_free_step w1 w2 → test (heap w2) r = test (heap w1) r).
  { intros w1 w2 r (_ & _ & Hp). unfold test. by rewrite Hp. }
  assert (Hfall : ∀ w1 w2 r, lock_free_step w1 w2 →
            test (heap w2) r = true → test (heap w1) r = true).
  { intros w1 w2 r H. by rewrite (Hsame w1 w2 r H). }
  assert (Hrise : ∀ w1 w2 r, lock_free_step w1 w2 →
            test (heap w1) r = true → test (heap w2) r = true).
  { intros w1 w2 r H. by rewrite (Hsame w1 w2 r H). }
  destruct (count_reads_falling test others l Hothers Hfall k w) as (Hstep & _ & Hhi).
  destruct (count_reads_rising test others l Hothers Hrise k w) as (_ & Hlo & _).
  split; [exact Hstep|]. fold test. change (λ r, if b then is_permanent (heap w) r
                                   else negb (is_permanent (heap w) r)) with (test (heap w)).
  lia.
Qed.

(* the count of permanent sessions does not depend on the other threads *)
Lemma status_permanent others w :
  (∀ k a, a ∈ others k → takes_registry_lock a = false) →
  (status others w).1 !! "permanent"
  = Some (length (List.filter (is_permanent (heap w)) (_instances w))).
Proof.
  intros Hothers. unfold status.
  set (w0 := emit [EvRegistryLock] w).
  change (_instances w0) with (_instances w).
  set (l := _instances w).
  assert (Hbusy : ∀ w1 w2 r, lock_free_step w1 w2 →
            locked (heap w2) r = true → locked (heap w1) r = true).
  { intros w1 w2 r (_ & H & _). apply H. }
  assert (Hidle : ∀ w1 w2 r, lock_free_step w1 w2 →
            negb (locked (heap w1) r) = true → negb (locked (heap w2) r) = true).
  { intros w1 w2 r (_ & H & _) Hf. destruct (locked (heap w2) r) eqn:Hl; [|done].
    by rewrite (H r Hl) in Hf. }
  destruct (count_reads_falling locked others l Hothers Hbusy 0 w0) as (Hs1 & _).
  destruct (count_reads locked l others 0 w0) as [busy w1]. cbn [fst snd] in *.
  destruct (count_reads_rising (λ h r, negb (locked h r)) others l Hothers Hidle
              (length l) w1) as (Hs2 & _).
  destruct (count_reads (λ h r, negb (locked h r)) l others (length l) w1)
    as [idle w2]. cbn [fst snd] in *.
  destruct (count_reads_permanent others l true Hothers (2 * length l) w2)
    as (_ & Hperm).
  change (λ h r, if true then is_permanent h r else negb (is_permanent h r))
    with is_permanent in Hperm.
  destruct (count_reads is_permanent l others (2 * length l) w2) as [perm w3].
  cbn [fst snd] in *.
  destruct (count_reads (λ h r, negb (is_permanent h r)) l others (3 * length l) w3)
    as [temp w4]. cbn [fst snd].
  pose proof (lock_free_step_trans _ _ _ Hs1 Hs2) as H02.
  destruct (lock_free_step_permanent w0 w2 l H02) as [Hp2 _].
  change (λ r, is_permanent (heap w2) r) with (is_permanent (heap w2)) in Hperm.
  rewrite Hp2 in Hperm. subst perm. by simplify_map_eq.
Qed.

(** C9, as the code has it.  status() has exactly the keys total, busy,
    idle, permanent and temp.  total is the registry size; permanent and
    temp count both kinds and add up to total.  busy counts the sessions
    whose lock is held when status() reads it, idle those whose lock is
    free when status() reads it again; meanwhile other threads can only
    free locks, so busy is at most the number of locks held at the call,
    idle at least the number of free ones, and total <= busy + idle.  When
    no other thread moves during the call, busy and idle are the numbers of
    held and of free locks and add up to total. *)
Theorem status_counts (others : nat → list action) (w : World) :
  (∀ k a, a ∈ others k → takes_registry_lock a = false) →
  dom (status others w).1 = {["total"; "busy"; "idle"; "permanent"; "temp"]} ∧
  (∃ busy idle perm temp,
     (status others w).1 !! "total" = Some (length (_instances w)) ∧
     (status others w).1 !! "busy" = Some busy ∧
     (status others w).1 !! "idle" = Some idle ∧
     (status others w).1 !! "permanent" = Some perm ∧
     (status others w).1 !! "temp" = Some temp ∧
     perm = length (List.filter (is_permanent (heap w)) (_instances w)) ∧
     temp = length (List.filter (λ r, negb (is_permanent (heap w) r)) (_instances w)) ∧
     perm + temp = length (_instances w) ∧
     busy ≤ length (List.filter (locked (heap w)) (_instances w)) ∧
     length (List.filter (λ r, negb (locked (heap w) r)) (_instances w)) ≤ idle ∧
     idle ≤ length (_instances w) ∧
     length (_instances w) ≤ busy + idle) ∧
  (status no_steps w).1 !! "busy"
    = Some (length (List.filter (locked (heap w)) (_instances w))) ∧
  (status no_steps w).1 !! "idle"
    = Some (length (List.filter (λ r, negb (locked (heap w) r)) (_instances w))) ∧
  length (List.filter (locked (heap w)) (_instances w))
    + length (List.filter (λ r, negb (locked (heap w) r)) (_instances w))
    = length (_instances w).
Proof.
  intros Hothers. split_and!.
  - unfold status. repeat destruct (count_reads _ _ _ _ _) as [? ?].
    cbn [fst]. rewrite !dom_insert_L, dom_empty_L. set_solver.
  - unfold status.
    set (w0 := emit [EvRegistryLock] w).
    change (_instances w0) with (_instances w).
    set (l := _instances w).
    assert (Hbusy : ∀ w1 w2 r, lock_free_step w1 w2 →
              locked (heap w2) r = true → locked (heap w1) r = true).
    { intros w1 w2 r (_ & H & _). apply H. }
    assert (Hidle : ∀ w1 w2 r, lock_free_step w1 w2 →
              negb (locked (heap w1) r) = true → negb (locked (heap w2) r) = true).
    { intros w1 w2 r (_ & H & _) Hf. destruct (locked (heap w2) r) eqn:Hl; [|done].
      by rewrite (H r Hl) in Hf. }
    destruct (count_reads_falling locked others l Hothers Hbusy 0 w0)
      as (Hs1 & Hb_lo & Hb_hi).
    destruct (count_reads locked l others 0 w0) as [busy w1]. cbn [fst snd] in *.
    destruct (count_reads_rising (λ h r, negb (locked h r)) others l Hothers Hidle
                (length l) w1) as (Hs2 & Hi_lo & Hi_hi).
    destruct (count_reads (λ h r, negb (locked h r)) l others (length l) w1)
      as [idle w2]. cbn [fst snd] in *.
    destruct (count_reads_permanent others l true Hothers (2 * length l) w2)
      as (Hs3 & Hperm).
    change (λ h r, if true then is_permanent h r else negb (is_permanent h r))
      with is_permanent in Hs3, Hperm.
    destruct (count_reads is_permanent l others (2 * length l) w2) as [perm w3].
    cbn [fst snd] in *.
    destruct (count_reads_permanent others l false Hothers (3 * length l) w3)
      as (Hs4 & Htemp).
    change (λ h r, if false then is_permanent h r else negb (is_permanent h r))
      with (λ (h : gmap ref BrowserInstance) r, negb (is_permanent h r)) in Hs4, Htemp.
    destruct (count_reads (λ h r, negb (is_permanent h r)) l others (3 * length l) w3)
      as [temp w4]. cbn [fst snd] in *.
    pose proof (lock_free_step_trans _ _ _ Hs1 Hs2) as H02.
    pose proof (lock_free_step_trans _ _ _ H02 Hs3) as H03.
    destruct (lock_free_step_permanent w0 w2 l H02) as [Hp2 _].
    destruct (lock_free_step_permanent w0 w3 l H03) as [_ Hp3].
    change (λ r, is_permanent (heap w2) r) with (is_permanent (heap w2)) in Hperm.
    rewrite Hp2 in Hperm. rewrite Hp3 in Htemp.
    change (heap w0) with (heap w) in *.
    pose proof (filter_split_length (is_permanent (heap w)) l) as Hsum.
    pose proof (filter_split_length (locked (heap w1)) l) as Hsum1.
    pose proof (filter_length_le (λ r, negb (locked (heap w2) r)) l) as Hle.
    pose proof (filter_length_mono (λ r, negb (locked (heap w) r))
                  (λ r, negb (locked (heap w1) r)) l (λ r, Hidle w0 w1 r Hs1)) as H01.
    exists busy, idle, perm, temp.
    split_and!; try (by simplify_map_eq); try lia.
  - unfold status, no_steps. rewrite !count_reads_quiet. cbn [fst snd].
    by simplify_map_eq.
  - unfold status, no_steps. rewrite !count_reads_quiet. cbn [fst snd].
    by simplify_map_eq.
  - apply filter_split_length.
Qed.

Lemma racing_steps_lock_free k a :
  a ∈ racing_steps k → takes_registry_lock a = false.
Proof.
  unfold racing_steps. destruct (k =? 1).
  - by intros ->%list_elem_of_singleton.
  - by intros ?%elem_of_nil.
Qed.

Lemma status_counts_witness :
  ∃ busy idle,
    (status racing_steps started_world).1 !! "busy" = Some busy ∧
    (status racing_steps started_world).1 !! "idle" = Some idle ∧
    length (_instances started_world) ≤ busy + idle.
Proof.
  destruct (status_counts racing_steps started_world racing_steps_lock_free)
    as (_ & (busy & idle & perm & temp & _ & Hb & Hi & _ & _ & _ & _ & _ & _ & _ & _ & Hsum)
        & _).
  exists busy, idle. split_and!; [exact Hb|exact Hi|exact Hsum].
Defined.

(** C9, as stated, fails twice.  The key set with "temporary" is not the
    one status() yields, already on the pool of a fresh module.  And busy +
    idle is not total when a lock is freed between the two counts: the
    permanent session, locked while its warm-up runs, is counted busy, the
    warm-up thread frees the lock, and the session is counted idle too. *)
Lemma status_keys_and_sum_differ :
  dom (status no_steps fresh_world).1
    ≠ {["total"; "busy"; "idle"; "permanent"; "temporary"]} ∧
  (status racing_steps started_world).1 !! "total" = Some 1 ∧
  (status racing_steps started_world).1 !! "busy" = Some 1 ∧
  (status racing_steps started_world).1 !! "idle" = Some 1.
Proof.
  split.
  - intros H.
    assert (Hin : "temporary" ∈ dom (status no_steps fresh_world).1)
      by (rewrite H; set_solver).
    apply elem_of_dom in Hin as [v Hv].
    unfold status, no_steps in Hv. rewrite !count_reads_quiet in Hv.
    cbn [fst] in Hv. by simplify_map_eq.
  - split_and!; vm_compute; reflexivity.
Qed.

Lemma NoDup_all_equal {A} (a : A) (l : list A) :
  NoDup l → (∀ x, x ∈ l → x = a) → length l ≤ 1.
Proof.
  intros Hnd Hall. destruct l as [|x [|y l]]; simpl; [lia|lia|].
  exfalso. apply NoDup_cons in Hnd as [Hx _].
  apply Hx. rewrite (Hall x), <- (Hall y); set_solver.
Qed.

(** X14.  In every state the server reaches, only the session created by
    pool.start(), the one with id 1, is permanent; the registry holds at
    most one permanent session and status() reports 0 or 1 of them,
    whatever the threads that do not wait for the registry lock do
    meanwhile. *)
Theorem reachable_at_most_one_permanent (w : World) :
  reachable w →
  (∀ r i, heap w !! r = Some i → permanent i = true → id i = 1) ∧
  (∀ r, r ∈ _instances w → is_permanent (heap w) r = true → r = 1) ∧
  ∀ others, (∀ k a, a ∈ others k → takes_registry_lock a = false) →
    ∃ n, (status others w).1 !! "permanent" = Some n ∧ n ≤ 1.
Proof.
  intros Hreach. pose proof (reachable_consistent w Hreach) as (Hid & Hreg & Hnd).
  assert (Hperm : ∀ r, is_permanent (heap w) r = true → r = 1).
  { intros r. unfold is_permanent. destruct (heap w !! r) as [i|] eqn:Hr; [|done].
    intros Hp. by destruct (Hid r i Hr) as (_ & _ & ->). }
  split_and!.
  - intros r i Hr Hp. destruct (Hid r i Hr) as (-> & _ & ->); done.
  - intros r _. apply Hperm.
  - intros others Hothers.
    exists (length (List.filter (is_permanent (heap w)) (_instances w))).
    split; [by apply status_permanent|].
    apply (NoDup_all_equal 1).
    + eapply sublist_NoDup; [exact Hnd|apply list_filter_sublist].
    + intros x Hx%list_elem_of_In%filter_In. apply Hperm. tauto.
Qed.

Lemma reachable_at_most_one_permanent_witness :
  ∃ n, (status racing_steps started_world).1 !! "permanent" = Some n ∧ n ≤ 1.
Proof.
  refine (proj2 (proj2 (reachable_at_most_one_permanent started_world _))
            racing_steps _).
  - apply (reach_startup (chrome_ok 1) 0%Q (Return tt)). reflexivity.
  - intros k a. unfold racing_steps. destruct (k =? 1).
    + by intros ->%list_elem_of_singleton.
    + by intros ?%elem_of_nil.
Defined.

(** * The file names of the images *)

Lemma replace_char_length old new s :
  String.length (replace_char old new s) = String.length s.
Proof. induction s as [|c s IH]; simpl; [done|]. by rewrite IH. Qed.

Lemma replace_char_removes old new s :
  old ≠ new → contains_char old (replace_char old new s) = false.
Proof.
  intros Hne. induction s as [|c s IH]; [done|].
  cbn [replace_char contains_char]. rewrite IH, orb_false_r.
  destruct (decide (c = old)) as [->|Hc].
  - rewrite (bool_decide_eq_true_2 (old = old)) by done.
    apply bool_decide_eq_false_2. congruence.
  - rewrite (bool_decide_eq_false_2 (c = old)) by done.
    by apply bool_decide_eq_false_2.
Qed.

Lemma replace_char_keeps_absent c old new s :
  c ≠ new → contains_char c s = false →
  contains_char c (replace_char old new s) = false.
Proof.
  intros Hne. induction s as [|a s IH]; [done|].
  cbn [replace_char contains_char].
  intros [Ha Hs]%orb_false_iff. rewrite (IH Hs), orb_false_r.
  destruct (decide (a = old)) as [->|Hc].
  - rewrite (bool_decide_eq_true_2 (old = old)) by done.
    apply bool_decide_eq_false_2. congruence.
  - by rewrite (bool_decide_eq_false_2 (a = old)) by done.
Qed.

Lemma replace_char_absent old new s :
  contains_char old s = false → replace_char old new s = s.
Proof.
  induction s as [|a s IH]; [done|].
  cbn [replace_char contains_char].
  intros [Ha Hs]%orb_false_iff. rewrite (IH Hs).
  apply bool_decide_eq_false in Ha. by rewrite bool_decide_eq_false_2.
Qed.

Lemma sanitize_barcode_clean b :
  contains_char " " (sanitize_barcode b) = false ∧
  contains_char "/" (sanitize_barcode b) = false ∧
  contains_char "\" (sanitize_barcode b) = false.
Proof.
  unfold sanitize_barcode. split_and!.
  - do 2 (apply replace_char_keeps_absent; [done|]). by apply replace_char_removes.
  - apply replace_char_keeps_absent; [done|]. by apply replace_char_removes.
  - by apply replace_char_removes.
Qed.

Lemma sanitize_barcode_replaces_separators_aux (barcode : string) :
  String.length (sanitize_barcode barcode) = String.length barcode ∧
  contains_char " " (sanitize_barcode barcode) = false ∧
  contains_char "/" (sanitize_barcode barcode) = false ∧
  contains_char "\" (sanitize_barcode barcode) = false ∧
  sanitize_barcode (sanitize_barcode barcode) = sanitize_barcode barcode ∧
  (contains_char " " barcode = false → contains_char "/" barcode = false →
   contains_char "\" barcode = false → sanitize_barcode barcode = barcode) ∧
  (sanitize_barcode barcode = "" ↔ barcode = "").
Proof.
  destruct (sanitize_barcode_clean barcode) as (Hs & Hsl & Hb).
  assert (Hid : ∀ b, contains_char " " b = false → contains_char "/" b = false →
                     contains_char "\" b = false → sanitize_barcode b = b).
  { intros b H1 H2 H3. unfold sanitize_barcode.
    by rewrite (replace_char_absent " " "_" b H1), (replace_char_absent "/" "-" b H2),
      (replace_char_absent "\" "-" b H3). }
  split_and!; [|exact Hs|exact Hsl|exact Hb| |exact (Hid barcode)|].
  - unfold sanitize_barcode. by rewrite !replace_char_length.
  - exact (Hid _ Hs Hsl Hb).
  - split; [|by intros ->].
    intros He. assert (Hlen : String.length barcode = 0).
    { unfold sanitize_barcode in He.
      rewrite <- (replace_char_length " " "_"), <- (replace_char_length "/" "-"),
        <- (replace_char_length "\" "-"), He. done. }
    by destruct barcode.
Qed.

(** X15.  The folder name made from a barcode has the length of the
    barcode and holds no space, no slash and no backslash; a barcode
    without these characters is its own folder name, sanitising twice
    changes nothing more, and only the empty barcode gives the empty
    name.  Nothing else is replaced: dots are kept, so the barcode ".."
    gives the folder images/.. and the empty barcode gives images/ itself. *)
Theorem sanitize_barcode_replaces_separators (barcode : string) :
  String.length (sanitize_barcode barcode) = String.length barcode ∧
  contains_char " " (sanitize_barcode barcode) = false ∧
  contains_char "/" (sanitize_barcode barcode) = false ∧
  contains_char "\" (sanitize_barcode barcode) = false ∧
  sanitize_barcode (sanitize_barcode barcode) = sanitize_barcode barcode ∧
  (contains_char " " barcode = false → contains_char "/" barcode = false →
   contains_char "\" barcode = false → sanitize_barcode barcode = barcode) ∧
  (sanitize_barcode barcode = "" ↔ barcode = "") ∧
  images_folder_of ".." = "images/.." ∧
  images_folder_of "" = "images/".
Proof.
  pose proof (sanitize_barcode_replaces_separators_aux barcode)
    as (H1 & H2 & H3 & H4 & H5 & H6 & H7).
  split_and!; [exact H1|exact H2|exact H3|exact H4|exact H5|exact H6|exact H7| |];
    reflexivity.
Qed.

Lemma sanitize_barcode_replaces_separators_witness :
  sanitize_barcode "34 11/68" = "34_11-68" ∧
  sanitize_barcode "34116860912" = "34116860912".
Proof.
  split; [reflexivity|].
  apply (proj1 (proj2 (proj2 (proj2 (proj2 (proj2
           (sanitize_barcode_replaces_separators "34116860912")))))));
    reflexivity.
Defined.

Lemma string_app_assoc (a b c : string) : (a +:+ b) +:+ c = a +:+ b +:+ c.
Proof.
  induction a as [|x a IH]; [done|].
  change ((String x a +:+ b) +:+ c) with (String x ((a +:+ b) +:+ c)).
  change (String x a +:+ b +:+ c) with (String x (a +:+ b +:+ c)).
  by rewrite IH.
Qed.

Lemma ends_with_char_contains c s :
  ends_with_char c s = true → contains_char c s = true.
Proof.
  induction s as [|a s IH]; [done|]. destruct s as [|b s].
  - cbn [ends_with_char contains_char]. intros ->. done.
  - intros H. change (ends_with_char c (String b s) = true) in H.
    change (bool_decide (a = c) || contains_char c (String b s) = true).
    rewrite (IH H). apply orb_true_r.
Qed.

Lemma ends_with_char_app c p s :
  s ≠ "" → ends_with_char c (p +:+ s) = ends_with_char c s.
Proof.
  intros Hs. induction p as [|a p IH]; [done|].
  change (String a p +:+ s) with (String a (p +:+ s)).
  destruct (p +:+ s) as [|b q] eqn:Hq.
  - destruct p; [by destruct s|done].
  - done.
Qed.

Lemma image_path_shape barcode image_number ext :
  barcode ≠ "" →
  image_path (images_folder_of barcode) image_number ext
  = "images/" +:+ sanitize_barcode barcode +:+ "/image_" +:+ pretty image_number +:+ ext.
Proof.
  intros Hb. unfold image_path, path_join, images_folder_of.
  change ("image_" +:+ pretty image_number +:+ ext)
    with (String "i" ("mage_" +:+ pretty image_number +:+ ext)).
  change (String.prefix "/" (String "i" ("mage_" +:+ pretty image_number +:+ ext)))
    with false.
  assert (Hne : sanitize_barcode barcode ≠ "").
  { intros He. by apply (proj2 (proj2 (proj2 (proj2 (proj2 (proj2
      (sanitize_barcode_replaces_separators_aux barcode))))))) in He. }
  rewrite (ends_with_char_app "/" "images/" _ Hne).
  destruct (ends_with_char "/" (sanitize_barcode barcode)) eqn:He.
  { apply ends_with_char_contains in He.
    destruct (sanitize_barcode_clean barcode) as (_ & Hsl & _). congruence. }
  rewrite bool_decide_eq_false_2 by done. simpl.
  change (String "i" ("mage_" +:+ pretty image_number +:+ ext))
    with ("image_" +:+ pretty image_number +:+ ext).
  change ("/" +:+ "image_" +:+ pretty image_number +:+ ext)
    with ("/image_" +:+ pretty image_number +:+ ext).
  by rewrite string_app_assoc.
Qed.

Lemma first_image_spec path_exists folder n exts :
  match first_image path_exists folder n exts with
  | FileResponse p =>
      path_exists p = true ∧
      ∃ pre ext post,
        exts = pre ++ ext :: post ∧ p = image_path folder n ext ∧
        ∀ e, e ∈ pre → path_exists (image_path folder n e) = false
  | FileError code detail =>
      code = 404 ∧ detail = "Image not found" ∧
      ∀ e, e ∈ exts → path_exists (image_path folder n e) = false
  end.
Proof.
  induction exts as [|ext rest IH]; cbn [first_image].
  - split_and!; [done..|]. by intros e ?%elem_of_nil.
  - destruct (path_exists (image_path folder n ext)) eqn:He.
    + split; [done|]. exists [], ext, rest. split_and!; [done..|].
      by intros e ?%elem_of_nil.
    + destruct (first_image path_exists folder n rest) as [p|code detail].
      * destruct IH as (Hp & pre & e & post & -> & -> & Hpre).
        split; [done|]. exists (ext :: pre), e, post. split_and!; [done..|].
        intros e' [->|Hin]%elem_of_cons; [done|by apply Hpre].
      * destruct IH as (-> & -> & Hall). split_and!; [done..|].
        intros e' [->|Hin]%elem_of_cons; [done|by apply Hall].
Qed.

(** X16.  GET /images answers with the file of the first of the extensions
    .jpg, .jpeg, .png, .webp, in this order, for which
    image_{number}{ext} exists in the folder of the barcode, and with 404
    "Image not found" exactly when none of the four exists.  For a
    non-empty barcode the path is images/<folder name>/image_<number><ext>,
    with the folder name made from the barcode. *)
Theorem get_image_serves_first_existing (path_exists : string → bool)
    (barcode : string) (image_number : Z) :
  match get_image path_exists barcode image_number with
  | FileResponse p =>
      path_exists p = true ∧
      ∃ pre ext post,
        IMAGE_EXTENSIONS = pre ++ ext :: post ∧
        p = image_path (images_folder_of barcode) image_number ext ∧
        ∀ e, e ∈ pre →
             path_exists (image_path (images_folder_of barcode) image_number e) = false
  | FileError code detail =>
      code = 404 ∧ detail = "Image not found" ∧
      ∀ e, e ∈ IMAGE_EXTENSIONS →
           path_exists (image_path (images_folder_of barcode) image_number e) = false
  end ∧
  (barcode ≠ "" → ∀ ext,
     image_path (images_folder_of barcode) image_number ext
     = "images/" +:+ sanitize_barcode barcode +:+ "/image_"
         +:+ pretty image_number +:+ ext).
Proof.
  split.
  - apply first_image_spec.
  - intros Hb ext. by apply image_path_shape.
Qed.

Lemma get_image_serves_first_existing_witness :
  image_path (images_folder_of "12 3") 2 ".png" = "images/12_3/image_2.png".
Proof.
  exact (proj2 (get_image_serves_first_existing (λ _, false) "12 3" 2)
           ltac:(discriminate) ".png").
Defined.

(** ** Numbering of the downloaded images *)

Lemma download_images_spec folder fetch write urls : ∀ c files n,
  download_images folder fetch write urls c = (files, n) →
  n = c + length files ∧ length files ≤ length urls ∧
  ∀ j name, files !! j = Some name →
    ∃ url, url ∈ urls ∧ fetch url = Return 200 ∧ write name = true ∧
           name = folder +:+ "/image_" +:+ pretty (c + j + 1) +:+ image_extension url.
Proof.
  induction urls as [|url rest IH]; intros c files n; cbn [download_images].
  - intros [= <- <-]. split_and!; [simpl; lia|done|]. by intros j name ?.
  - assert (Hskip : download_images folder fetch write rest c = (files, n) →
      n = c + length files ∧ length files ≤ length (url :: rest) ∧
      ∀ j name, files !! j = Some name →
        ∃ u, u ∈ url :: rest ∧ fetch u = Return 200 ∧ write name = true ∧
             name = folder +:+ "/image_" +:+ pretty (c + j + 1) +:+ image_extension u).
    { intros H. destruct (IH c files n H) as (Hn & Hlen & Hfiles).
      split_and!; [done|simpl; lia|].
      intros j name Hj. destruct (Hfiles j name Hj) as (u & Hu & Hrest).
      exists u. split; [by right|done]. }
    destruct (fetch url) as [status|e] eqn:Hf; [|exact Hskip].
    destruct (decide (status = 200)) as [->|Hne].
    + destruct (write (folder +:+ "/image_" +:+ pretty (c + 1) +:+ image_extension url))
        eqn:Hw; [|exact Hskip].
      destruct (download_images folder fetch write rest (c + 1)) as [files1 n1] eqn:Hrec.
      intros [= <- <-]. destruct (IH (c + 1) files1 n1 Hrec) as (Hn & Hlen & Hfiles).
      split_and!; [simpl; lia|simpl; lia|].
      intros [|j] name Hj.
      * injection Hj as <-. exists url. split_and!; [by left|done|done|].
        by replace (c + 0 + 1) with (c + 1) by lia.
      * destruct (Hfiles j name Hj) as (u & Hu & Hfu & Hwu & Hname).
        exists u. split_and!; [by right|done|done|].
        by replace (c + S j + 1) with (c + 1 + j + 1) by lia.
    + assert (Hcase : match status with 200 => true | _ => false end = false).
      { do 201 (destruct status as [|status]; [done|]). lia. }
      revert Hcase. clear Hne.
      do 201 (destruct status as [|status]; [by (intros _; exact Hskip) || done|]).
      intros _. exact Hskip.
Qed.

(** X17.  The download loop numbers the files it writes 1, 2, 3, ... without
    gaps in the order of the URLs: the file at position j is
    {folder}/image_{j+1}{ext}, with the extension of the URL it came from;
    each written file comes from a URL that answered 200, and
    images_downloaded is the number of files written, at most the number
    of URLs. *)
Theorem downloaded_images_are_numbered (folder : string) (fetch : string → result nat)
    (write : string → bool) (image_urls : list string) :
  let files := (download_images folder fetch write image_urls 0).1 in
  let images_downloaded := (download_images folder fetch write image_urls 0).2 in
  images_downloaded = length files ∧
  images_downloaded ≤ length image_urls ∧
  ∀ j name, files !! j = Some name →
    ∃ url, url ∈ image_urls ∧ fetch url = Return 200 ∧ write name = true ∧
           name = folder +:+ "/image_" +:+ pretty (j + 1) +:+ image_extension url.
Proof.
  destruct (download_images folder fetch write image_urls 0) as [files n] eqn:H.
  destruct (download_images_spec folder fetch write image_urls 0 files n H)
    as (Hn & Hlen & Hfiles).
  simpl. split_and!; [done|lia|done].
Qed.

(** ** From the download to GET /images *)

Lemma pretty_N_char_digit x : is_digit (pretty_N_char x) = true.
Proof. unfold pretty_N_char. by repeat case_match. Qed.

Lemma pretty_N_go_digits x : ∀ s,
  all_chars is_digit s = true → all_chars is_digit (pretty_N_go x s) = true.
Proof.
  induction (N.lt_wf_0 x) as [x _ IH]; intros s Hs.
  assert (x = 0 ∨ 0 < x)%N as [->|Hpos] by lia.
  - by rewrite pretty_N_go_0.
  - rewrite pretty_N_go_step by done. apply IH.
    + by apply N.div_lt.
    + cbn [all_chars]. by rewrite pretty_N_char_digit, Hs.
Qed.

Lemma pretty_nat_digits (n : nat) : all_chars is_digit (pretty n) = true.
Proof.
  unfold pretty, pretty_nat, pretty, pretty_N.
  case_decide; [done|]. by apply pretty_N_go_digits.
Qed.

Lemma digits_dot_inj d1 : ∀ d2 a b,
  all_chars is_digit d1 = true → all_chars is_digit d2 = true →
  d1 +:+ "." +:+ a = d2 +:+ "." +:+ b → d1 = d2 ∧ a = b.
Proof.
  induction d1 as [|x d1 IH]; intros [|y d2] a b H1 H2 Heq.
  - change (String "." a = String "." b) in Heq. by injection Heq as <-.
  - change (String y d2 +:+ "." +:+ b) with (String y (d2 +:+ "." +:+ b)) in Heq.
    change ("" +:+ "." +:+ a) with (String "." a) in Heq.
    injection Heq as <- _. cbn [all_chars] in H2. done.
  - change (String x d1 +:+ "." +:+ a) with (String x (d1 +:+ "." +:+ a)) in Heq.
    change ("" +:+ "." +:+ b) with (String "." b) in Heq.
    injection Heq as -> _. cbn [all_chars] in H1. done.
  - change (String x d1 +:+ "." +:+ a) with (String x (d1 +:+ "." +:+ a)) in Heq.
    change (String y d2 +:+ "." +:+ b) with (String y (d2 +:+ "." +:+ b)) in Heq.
    injection Heq as -> Heq. cbn [all_chars] in H1, H2.
    apply andb_true_iff in H1 as [_ H1]. apply andb_true_iff in H2 as [_ H2].
    destruct (IH d2 a b H1 H2 Heq) as [-> ->]. done.
Qed.

Lemma contains_char_after_last c s : contains_char c (after_last c s) = false.
Proof.
  induction s as [|a s IH]; [done|]. cbn [after_last].
  destruct (contains_char c s) eqn:Hc; [done|].
  case_bool_decide as Ha; [done|].
  cbn [contains_char]. by rewrite Hc, bool_decide_eq_false_2.
Qed.

Lemma image_extension_shape url :
  ∃ e, image_extension url = "." +:+ e ∧ contains_char "." e = false.
Proof.
  unfold image_extension.
  destruct (contains_char "." (after_last "/" (before_first "?" url))).
  - eexists. split; [done|]. apply contains_char_after_last.
  - by exists "jpg".
Qed.

Lemma image_number_pretty (j : nat) : pretty (Z.of_nat (S j)) = pretty (S j).
Proof. done. Qed.

Lemma image_name_inj folder (a b : nat) e1 e2 :
  contains_char "." e1 = false →
  folder +:+ "/image_" +:+ pretty a +:+ "." +:+ e1
  = folder +:+ "/image_" +:+ pretty b +:+ "." +:+ e2 →
  a = b ∧ e1 = e2.
Proof.
  intros _ Heq.
  apply (inj (String.app folder)) in Heq.
  apply (inj (String.app "/image_")) in Heq.
  apply digits_dot_inj in Heq as [Hp ->]; [|apply pretty_nat_digits..].
  split; [|done]. by apply (inj pretty) in Hp.
Qed.

(** X18.  An image the download loop saved as number j+1 for a non-empty
    barcode is what GET /images/{barcode}/{j+1} answers with when the
    extension taken from its URL is one of .jpg, .jpeg, .png, .webp; with
    any other extension (.gif, .JPG, ...) the file was saved but the answer
    is 404.  The file system holds the files of this download. *)
Theorem downloaded_image_is_served_iff_known_extension (barcode : string)
    (fetch : string → result nat) (write : string → bool) (image_urls : list string)
    (j : nat) (name url : string) :
  barcode ≠ "" →
  let files := (download_images (images_folder_of barcode) fetch write image_urls 0).1 in
  files !! j = Some name →
  name = images_folder_of barcode +:+ "/image_" +:+ pretty (j + 1)
           +:+ image_extension url →
  get_image (λ p, bool_decide (p ∈ files)) barcode (Z.of_nat (S j))
  = if bool_decide (image_extension url ∈ IMAGE_EXTENSIONS)
    then FileResponse name
    else FileError 404 "Image not found".
Proof.
  intros Hb files Hj Hname.
  destruct (download_images (images_folder_of barcode) fetch write image_urls 0)
    as [files0 n] eqn:Hrun.
  destruct (download_images_spec _ fetch write image_urls 0 files0 n Hrun)
    as (_ & _ & Hfiles).
  simpl in files. subst files.
  destruct (image_extension_shape url) as (e & He & Hdot).
  assert (Hpath : ∀ ext,
            image_path (images_folder_of barcode) (Z.of_nat (S j)) ext
            = images_folder_of barcode +:+ "/image_" +:+ pretty (j + 1) +:+ ext).
  { intros ext. rewrite (image_path_shape barcode _ ext Hb), image_number_pretty.
    replace (j + 1) with (S j) by lia. unfold images_folder_of.
    by rewrite string_app_assoc. }
  (* a candidate path that is among the files is the file number j+1 *)
  assert (Honly : ∀ x, x ∈ IMAGE_EXTENSIONS →
            image_path (images_folder_of barcode) (Z.of_nat (S j)) x ∈ files0 →
            x = image_extension url).
  { intros x Hx Hin. rewrite Hpath in Hin.
    apply list_elem_of_lookup in Hin as [k Hk].
    destruct (Hfiles k _ Hk) as (u & _ & _ & _ & Hku).
    destruct (image_extension_shape u) as (eu & Heu & Hdotu).
    assert (∃ ex, x = "." +:+ ex ∧ contains_char "." ex = false) as (ex & -> & Hdx).
    { unfold IMAGE_EXTENSIONS in Hx.
      repeat (apply elem_of_cons in Hx as [->|Hx]; [by eexists|]).
      by apply elem_of_nil in Hx. }
    rewrite Heu in Hku. replace (0 + k + 1) with (k + 1) in Hku by lia.
    apply image_name_inj in Hku as [Hjk ->]; [|done].
    assert (k = j) as -> by lia.
    rewrite Hj in Hk. injection Hk as Hk. rewrite Hname, He in Hk.
    apply image_name_inj in Hk as [_ ->]; [|done]. by rewrite He. }
  pose proof (first_image_spec (λ p, bool_decide (p ∈ files0))
                (images_folder_of barcode) (Z.of_nat (S j)) IMAGE_EXTENSIONS) as Hspec.
  unfold get_image.
  destruct (first_image _ _ _ IMAGE_EXTENSIONS) as [p|code detail].
  - destruct Hspec as (Hp%bool_decide_eq_true & pre & x & post & Hl & -> & _).
    assert (Hx : x ∈ IMAGE_EXTENSIONS) by (rewrite Hl; set_solver).
    pose proof (Honly x Hx Hp) as ->.
    rewrite bool_decide_eq_true_2 by done. by rewrite Hpath, Hname.
  - destruct Hspec as (-> & -> & Hnone).
    case_bool_decide as Hext; [|done].
    specialize (Hnone _ Hext). apply bool_decide_eq_false in Hnone.
    destruct Hnone. rewrite Hpath, <- Hname. by eapply list_elem_of_lookup_2.
Qed.

Lemma downloaded_image_is_served_iff_known_extension_witness :
  get_image
    (λ p, bool_decide
            (p ∈ (download_images (images_folder_of "12 3") (λ _, Return 200)
                    (λ _, true) ["http://cdn/a.gif"; "http://cdn/b.png"] 0).1))
    "12 3" (Z.of_nat 2)
  = FileResponse "images/12_3/image_2.png".
Proof.
  exact (downloaded_image_is_served_iff_known_extension "12 3" (λ _, Return 200)
           (λ _, true) ["http://cdn/a.gif"; "http://cdn/b.png"] 1
           "images/12_3/image_2.png" "http://cdn/b.png"
           ltac:(discriminate) eq_refl eq_refl).
Defined.

(** ** The image URLs read from the product page *)

Lemma contains_char_rev_app c s t :
  contains_char c (String.rev_app s t) = contains_char c s || contains_char c t.
Proof.
  revert t. induction s as [|a s IH]; intros t; [done|].
  cbn [String.rev_app]. rewrite IH. cbn [contains_char].
  destruct (bool_decide (a = c)), (contains_char c s), (contains_char c t); done.
Qed.

Lemma contains_char_lstrip c s :
  contains_char c (lstrip s) = true → contains_char c s = true.
Proof.
  induction s as [|a s IH]; [done|]. cbn [lstrip].
  destruct (isspace a); [|done]. intros H%IH. cbn [contains_char].
  rewrite H. by destruct (bool_decide (a = c)).
Qed.

Lemma contains_char_strip c s :
  contains_char c (strip s) = true → contains_char c s = true.
Proof.
  unfold strip, String.rev. rewrite contains_char_rev_app, orb_false_r.
  intros H%contains_char_lstrip. rewrite contains_char_rev_app, orb_false_r in H.
  by apply contains_char_lstrip.
Qed.

Lemma split_on_no_sep sep s p :
  p ∈ split_on sep s → contains_char sep p = false.
Proof.
  revert p. induction s as [|a s IH]; intros p; cbn [split_on].
  - by intros ->%list_elem_of_singleton.
  - case_bool_decide as Ha.
    + intros [->|Hin]%elem_of_cons; [done|by apply IH].
    + destruct (split_on sep s) as [|q qs].
      * intros ->%list_elem_of_singleton. cbn [contains_char].
        by rewrite bool_decide_eq_false_2.
      * intros [->|Hin]%elem_of_cons.
        -- cbn [contains_char]. rewrite bool_decide_eq_false_2 by done.
           apply IH. by left.
        -- apply IH. by right.
Qed.

Lemma split_ws_tokens s t :
  t ∈ split_ws s →
  t ≠ "" ∧ all_chars (λ c, negb (isspace c)) t = true ∧
  ∀ c, contains_char c t = true → contains_char c s = true.
Proof.
  revert t. induction s as [|a s IH]; intros t; cbn [split_ws].
  - by intros ?%elem_of_nil.
  - assert (Hrest : t ∈ split_ws s →
      t ≠ "" ∧ all_chars (λ c, negb (isspace c)) t = true ∧
      ∀ c, contains_char c t = true → contains_char c (String a s) = true).
    { intros (Hne & Hall & Hsub)%IH. split_and!; [done|done|].
      intros c Hc. cbn [contains_char]. rewrite (Hsub c Hc). apply orb_true_r. }
    assert (Hone : t ∈ [String a ""] → isspace a = false →
      t ≠ "" ∧ all_chars (λ c, negb (isspace c)) t = true ∧
      ∀ c, contains_char c t = true → contains_char c (String a s) = true).
    { intros ->%list_elem_of_singleton Ha. split_and!; [done|cbn; by rewrite Ha|].
      intros c. cbn [contains_char]. rewrite orb_false_r. by intros ->. }
    destruct (isspace a) eqn:Ha; [exact Hrest|].
    destruct s as [|d s']; [by intros ?; apply Hone|].
    destruct (isspace d) eqn:Hd.
    + intros [->|Hin]%elem_of_cons; [by apply Hone; [left|]|by apply Hrest].
    + destruct (split_ws (String d s')) as [|w ws] eqn:Hw; [by intros ?; apply Hone|].
      intros [->|Hin]%elem_of_cons.
      * destruct (IH w) as (Hne & Hall & Hsub); [by left|].
        split_and!; [done|cbn [all_chars]; by rewrite Ha, Hall|].
        intros c. cbn [contains_char]. intros [H|H]%orb_true_iff.
        -- by rewrite H.
        -- change (bool_decide (a = c) || contains_char c (String d s') = true).
           rewrite (Hsub c H). apply orb_true_r.
      * apply Hrest. by right.
Qed.

Lemma first_token_last_entry (l : list string) :
  match first_token (rev (List.filter (λ p, negb (bool_decide (p = ""))) l)) with
  | Some u =>
      ∃ pre p post rest, l = pre ++ p :: post ∧ split_ws p = u :: rest ∧
                         ∀ q, q ∈ post → split_ws q = []
  | None => ∀ p, p ∈ l → split_ws p = []
  end.
Proof.
  induction l as [|x l IH] using rev_ind; [by intros p ?%elem_of_nil|].
  rewrite List.filter_app, rev_app_distr. cbn [List.filter].
  assert (Hskip : split_ws x = [] →
    match first_token (rev (List.filter (λ p, negb (bool_decide (p = ""))) l)) with
    | Some u =>
        ∃ pre p post rest, l ++ [x] = pre ++ p :: post ∧ split_ws p = u :: rest ∧
                           ∀ q, q ∈ post → split_ws q = []
    | None => ∀ p, p ∈ l ++ [x] → split_ws p = []
    end).
  { intros Hx. destruct (first_token _) as [u|].
    - destruct IH as (pre & p & post & rest & -> & Hp & Hpost).
      exists pre, p, (post ++ [x]), rest. split_and!; [by rewrite <- app_assoc|done|].
      intros q [Hq| ->%list_elem_of_singleton]%elem_of_app; [by apply Hpost|done].
    - intros p [Hp| ->%list_elem_of_singleton]%elem_of_app; [by apply IH|done]. }
  case_bool_decide as Hx; cbn [negb rev app].
  - subst x. by apply Hskip.
  - cbn [first_token]. destruct (split_ws x) as [|t ts] eqn:Hsx; [by apply Hskip|].
    exists l, x, [], ts. split_and!; [done|done|]. by intros q ?%elem_of_nil.
Qed.

(** X19.  _best_url_from_srcset answers with the first white-space
    separated token of the last comma-separated entry of the srcset that
    holds a token, whatever the descriptors say: of "b.jpg 2x, a.jpg 1x" it
    picks a.jpg.  The URL it answers with is not empty and holds no white
    space and no comma.  It answers None exactly when no entry holds a
    token (None, the empty string, only blanks and commas). *)
Theorem best_url_is_first_token_of_last_entry (srcset_str : option string) :
  match _best_url_from_srcset srcset_str with
  | Some url =>
      (∃ s pre part post rest,
          srcset_str = Some s ∧
          split_on "," s = pre ++ part :: post ∧
          split_ws (strip part) = url :: rest ∧
          ∀ q, q ∈ post → split_ws (strip q) = []) ∧
      url ≠ "" ∧
      all_chars (λ c, negb (isspace c)) url = true ∧
      contains_char "," url = false
  | None =>
      ∀ s, srcset_str = Some s → ∀ p, p ∈ split_on "," s → split_ws (strip p) = []
  end ∧
  _best_url_from_srcset (Some "b.jpg 2x, a.jpg 1x") = Some "a.jpg".
Proof.
  split; [|reflexivity].
  destruct srcset_str as [s|]; [|done]. unfold _best_url_from_srcset.
  case_bool_decide as Hs.
  - subst s. intros s [= <-] p ->%list_elem_of_singleton. reflexivity.
  - pose proof (first_token_last_entry (strip <$> split_on "," s)) as H.
    cbn zeta. destruct (first_token _) as [u|].
    + destruct H as (pre & p & post & rest & Hl & Hp & Hpost).
      apply fmap_app_inv in Hl as (pre' & l' & -> & Hl' & Hsplit).
      symmetry in Hl'. apply fmap_cons_inv in Hl' as (part & post' & -> & -> & ->).
      destruct (split_ws_tokens (strip part) u) as (Hne & Hall & Hsub);
        [rewrite Hp; by left|].
      split_and!; [|done|done|].
      * exists s, pre', part, post', rest. split_and!; [done|done|done|].
        intros q Hq. apply Hpost. by apply list_elem_of_fmap_2.
      * destruct (contains_char "," u) eqn:Hc; [|done].
        apply Hsub, contains_char_strip in Hc.
        rewrite (split_on_no_sep "," s part) in Hc; [done|].
        rewrite Hsplit. set_solver.
    + intros s' [= <-] p Hp. apply H. by apply list_elem_of_fmap_2.
Qed.

Lemma best_url_is_first_token_of_last_entry_witness :
  split_ws (strip " ") = [].
Proof.
  apply (proj1 (best_url_is_first_token_of_last_entry (Some " , ")) " , " eq_refl " ").
  by left.
Defined.

Lemma collect_image_urls_spec (img_elems : list img_elem) : ∀ seen_urls,
  NoDup (collect_image_urls img_elems seen_urls) ∧
  (∀ url, url ∈ collect_image_urls img_elems seen_urls ↔
          (url ∉ seen_urls) ∧ String.prefix "http" url = true ∧
          ∃ e, e ∈ img_elems ∧ img_url_of e = Some url) ∧
  collect_image_urls img_elems seen_urls `sublist_of` omap img_url_of img_elems.
Proof.
  induction img_elems as [|e rest IH]; intros seen; cbn [collect_image_urls].
  - split_and!; [constructor| |done].
    intros url. split; [by intros ?%elem_of_nil|].
    by intros (_ & _ & e & ?%elem_of_nil & _).
  - change (omap img_url_of (e :: rest))
      with (match img_url_of e with
            | Some y => y :: omap img_url_of rest
            | None => omap img_url_of rest
            end).
    assert (Hskip :
      (∀ url, img_url_of e = Some url → url ∉ seen →
              String.prefix "http" url = true → False) →
      NoDup (collect_image_urls rest seen) ∧
      (∀ url, url ∈ collect_image_urls rest seen ↔
              (url ∉ seen) ∧ String.prefix "http" url = true ∧
              ∃ e0, e0 ∈ e :: rest ∧ img_url_of e0 = Some url) ∧
      collect_image_urls rest seen
        `sublist_of` match img_url_of e with
                     | Some y => y :: omap img_url_of rest
                     | None => omap img_url_of rest
                     end).
    { intros Hhead. destruct (IH seen) as (Hnd & Hmem & Hsub).
      split_and!; [done| |].
      - intros url. rewrite Hmem. split.
        + intros (? & ? & e0 & ? & ?). split_and!; [done|done|].
          exists e0. split; [by right|done].
        + intros (Hn & Hp & e0 & [->|Hin]%elem_of_cons & He0).
          * destruct (Hhead url He0 Hn Hp).
          * split_and!; [done|done|]. by exists e0.
      - destruct (img_url_of e); [by apply sublist_cons|done]. }
    destruct (img_url_of e) as [u|] eqn:He; [|by apply Hskip].
    destruct (negb (bool_decide (u = "")) && String.prefix "http" u
              && negb (bool_decide (u ∈ seen))) eqn:Hc.
    + apply andb_true_iff in Hc as [[_ Hp]%andb_true_iff Hs].
      apply negb_true_iff, bool_decide_eq_false in Hs.
      destruct (IH ({[u]} ∪ seen)) as (Hnd & Hmem & Hsub).
      split_and!.
      * constructor; [|done]. rewrite Hmem. intros (Hn & _). set_solver.
      * intros url. rewrite elem_of_cons, Hmem. split.
        -- intros [->|(Hn & Hpre & e0 & Hin & He0)].
           ++ split_and!; [done|done|]. exists e. split; [by left|done].
           ++ split_and!; [set_solver|done|]. exists e0. split; [by right|done].
        -- intros (Hn & Hpre & e0 & [->|Hin]%elem_of_cons & He0).
           ++ left. congruence.
           ++ destruct (decide (url = u)) as [->|Hne]; [by left|right].
              split_and!; [set_solver|done|by exists e0].
      * by apply sublist_skip.
    + apply Hskip. intros url [= <-] Hn Hp.
      rewrite Hp, (bool_decide_eq_false_2 _ Hn) in Hc. cbn [negb] in Hc.
      rewrite !andb_true_r in Hc.
      apply negb_false_iff, bool_decide_eq_true in Hc. by subst u.
Qed.

Lemma collect_image_urls_app (l1 l2 : list img_elem) : ∀ seen_urls,
  collect_image_urls (l1 ++ l2) seen_urls
  = collect_image_urls l1 seen_urls
    ++ collect_image_urls l2 (list_to_set (collect_image_urls l1 seen_urls) ∪ seen_urls).
Proof.
  induction l1 as [|e rest IH]; intros seen; cbn [collect_image_urls app].
  - cbn [list_to_set]. f_equal. set_solver.
  - destruct (img_url_of e) as [u|]; [|by apply IH].
    destruct (_ && _); [|by apply IH].
    rewrite IH. cbn [app]. do 3 f_equal.
    rewrite list_to_set_cons. set_solver.
Qed.

(** X20.  image_urls holds no URL twice; it holds exactly the URLs chosen
    for some <img> element (best srcset URL, else best data-srcset URL,
    else src) that start with http; they stand in the order of the
    elements, and the URLs collected from the first elements of the page
    are the first URLs collected from the whole page. *)
Theorem image_urls_are_unique_in_page_order (img_elems : list img_elem) :
  let image_urls := collect_image_urls img_elems ∅ in
  NoDup image_urls ∧
  (∀ url, url ∈ image_urls ↔
          String.prefix "http" url = true ∧
          ∃ e, e ∈ img_elems ∧ img_url_of e = Some url) ∧
  image_urls `sublist_of` omap img_url_of img_elems ∧
  (∀ first rest, img_elems = first ++ rest →
                 collect_image_urls first ∅ `prefix_of` image_urls).
Proof.
  destruct (collect_image_urls_spec img_elems ∅) as (Hnd & Hmem & Hsub).
  cbn zeta. split_and!; [done| |done|].
  - intros url. rewrite Hmem. set_solver.
  - intros first rest ->. rewrite collect_image_urls_app. by eexists.
Qed.

(** ** The link of the first search result *)

Lemma contains_char_before_first c s : contains_char c (before_first c s) = false.
Proof.
  induction s as [|a s IH]; [done|]. cbn [before_first].
  case_bool_decide as Ha; [done|]. cbn [contains_char].
  by rewrite bool_decide_eq_false_2.
Qed.

Lemma drop_fragment_no_hash href h :
  drop_fragment href = Some h → contains_char "#" h = false.
Proof.
  destruct href as [h0|]; [|done]. unfold drop_fragment.
  case_bool_decide as Hh0; cbn [negb andb].
  - intros [= <-]. by subst h0.
  - destruct (contains_char "#" h0) eqn:Hc; intros [= <-]; [|done].
    apply contains_char_before_first.
Qed.

(** X21.  get_first_product_link never answers with a link that holds a
    '#': the link is the href of the first listing item (or its data-link
    when href is missing or empty), cut before the first '#'.  The link
    comes from the first item of .listing-item__wrap, and the alternative
    selector is consulted only when that selector finds nothing; the link
    element is the first that is found of .listing-item__name, the
    alternative selector and the first <a>.  A link that is only a
    fragment gives the empty string, which _run_scrape treats as "no
    product". *)
Theorem first_product_link_has_no_fragment (page : search_page) :
  (∀ href, get_first_product_link page = Some href →
     contains_char "#" href = false ∧
     ∃ first_item rest title_link raw,
       (listing_items page = Return (first_item :: rest) ∨
        listing_items page = Return [] ∧ alt_items page = Return (first_item :: rest)) ∧
       title_link_of first_item = Return title_link ∧
       (attr_href title_link = Return (Some raw) ∧ raw ≠ "" ∨
        (attr_href title_link = Return None ∨ attr_href title_link = Return (Some "")) ∧
        attr_data_link title_link = Return (Some raw)) ∧
       href = before_first "#" raw) ∧
  (∀ first_item rest other,
     listing_items page = Return (first_item :: rest) →
     get_first_product_link page
     = get_first_product_link
         {| listing_items := listing_items page; alt_items := other |}) ∧
  (∀ first_item rest title_link,
     listing_items page = Return (first_item :: rest) →
     title_link_of first_item = Return title_link →
     attr_href title_link = Return (Some "#reviews") →
     get_first_product_link page = Some "").
Proof.
  assert (Hlink : ∀ items href, link_of_first items = Some href →
    contains_char "#" href = false ∧
    ∃ first_item rest title_link raw,
      items = first_item :: rest ∧
      title_link_of first_item = Return title_link ∧
      (attr_href title_link = Return (Some raw) ∧ raw ≠ "" ∨
       (attr_href title_link = Return None ∨ attr_href title_link = Return (Some "")) ∧
       attr_data_link title_link = Return (Some raw)) ∧
      href = before_first "#" raw).
  { intros [|first_item rest] href; [done|]. cbn [link_of_first].
    destruct (title_link_of first_item) as [t|] eqn:Ht; [|done].
    destruct (href_of t) as [h|] eqn:Hh; [|done]. intros Hd.
    split; [by eapply drop_fragment_no_hash|].
    destruct h as [raw|]; [|done].
    exists first_item, rest, t, raw. split_and!; [done|done| |].
    - unfold href_of in Hh. destruct (attr_href t) as [[[|a h]|]|]; try done.
      + right. split; [by right|done].
      + left. injection Hh as <-. done.
      + right. split; [by left|done].
    - unfold drop_fragment in Hd. case_bool_decide as Hraw; cbn [negb andb] in Hd.
      + injection Hd as <-. by subst raw.
      + destruct (contains_char "#" raw) eqn:Hc; injection Hd as <-; [done|].
        clear -Hc. induction raw as [|a raw IH]; [done|].
        cbn [contains_char] in Hc. apply orb_false_iff in Hc as [Ha Hc].
        cbn [before_first]. rewrite Ha. f_equal. by apply IH. }
  split_and!.
  - intros href. unfold get_first_product_link.
    destruct (listing_items page) as [[|i items]|]; [| |done].
    + destruct (alt_items page) as [[|i items]|]; [done| |done].
      intros (Hc & fi & rest & t & raw & [= <- <-] & Ht & Hraw & ->)%Hlink.
      split; [done|]. exists i, items, t, raw. split_and!; [by right|done|done|done].
    + intros (Hc & fi & rest & t & raw & [= <- <-] & Ht & Hraw & ->)%Hlink.
      split; [done|]. exists i, items, t, raw. split_and!; [by left|done|done|done].
  - intros first_item rest other Hl. unfold get_first_product_link. cbn.
    by rewrite Hl.
  - intros first_item rest t Hl Ht Hh. unfold get_first_product_link.
    rewrite Hl. cbn [link_of_first]. rewrite Ht. unfold href_of. by rewrite Hh.
Qed.

Lemma first_product_link_has_no_fragment_witness :
  contains_char "#" "https://www.autodoc.co.uk/p/1" = false.
Proof.
  apply (proj1 (first_product_link_has_no_fragment
    {| listing_items :=
         Return [ {| find_name := Raise (External false "no such element");
                     find_alt :=
                       Return {| attr_href := Return None;
                                 attr_data_link :=
                                   Return (Some "https://www.autodoc.co.uk/p/1#top") |};
                     find_a := Raise (External false "no such element") |} ];
       alt_items := Return [] |}) "https://www.autodoc.co.uk/p/1" eq_refl).
Defined.

(** ** Killing the processes of an earlier run *)

Lemma orphan_pids_spec stdout current_pid pid :
  pid ∈ orphan_pids stdout current_pid ↔
  pid ∈ split_ws (strip stdout) ∧ pid ≠ current_pid.
Proof.
  unfold orphan_pids. rewrite list_elem_of_In, !filter_In, <- list_elem_of_In. split.
  - intros ((Hin & _) & Hne%negb_true_iff%bool_decide_eq_false). done.
  - intros (Hin & Hne). split_and!; [done| |].
    + apply negb_true_iff, bool_decide_eq_false.
      by destruct (split_ws_tokens _ _ Hin) as (? & _).
    + by apply negb_true_iff, bool_decide_eq_false.
Qed.

(** X22.  _kill_orphaned_chromedrivers sends kill -9 exactly to the pids
    that pgrep -f lists for "chromedriver" or "Google Chrome for Testing"
    and that differ from the pid of this process.  Its own pid is never
    killed; every other listed pid is, the pid of the parent process
    included when pgrep lists it.  A target whose pgrep fails gets no
    kill, and a killed pid is a non-empty token without white space. *)
Theorem kill_orphans_spares_only_own_pid (pgrep : string → result string)
    (current_pid : string) :
  let kills := _kill_orphaned_chromedrivers pgrep current_pid in
  (∀ target pid, (target, pid) ∈ kills ↔
     target ∈ KILL_TARGETS ∧ pid ≠ current_pid ∧
     ∃ stdout, pgrep target = Return stdout ∧ pid ∈ split_ws (strip stdout)) ∧
  (∀ target, (target, current_pid) ∉ kills) ∧
  (∀ target pid, (target, pid) ∈ kills →
     pid ≠ "" ∧ all_chars (λ c, negb (isspace c)) pid = true).
Proof.
  cbn zeta.
  assert (Hmem : ∀ target pid,
    (target, pid) ∈ _kill_orphaned_chromedrivers pgrep current_pid ↔
    target ∈ KILL_TARGETS ∧ pid ≠ current_pid ∧
    ∃ stdout, pgrep target = Return stdout ∧ pid ∈ split_ws (strip stdout)).
  { intros target pid. unfold _kill_orphaned_chromedrivers.
    rewrite list_elem_of_In, in_flat_map. split.
    - intros (t & Ht%list_elem_of_In & Hin%list_elem_of_In).
      destruct (pgrep t) as [stdout|] eqn:Hp; [|by apply elem_of_nil in Hin].
      apply list_elem_of_fmap in Hin as (p & [= -> ->] & (Hin & Hne)%orphan_pids_spec).
      split_and!; [done|done|by exists stdout].
    - intros (Ht & Hne & stdout & Hp & Hin). exists target.
      split; [by apply list_elem_of_In|]. apply list_elem_of_In. rewrite Hp.
      apply list_elem_of_fmap. exists pid. split; [done|].
      by apply orphan_pids_spec. }
  split_and!; [exact Hmem| |].
  - intros target (_ & Hne & _)%Hmem. done.
  - intros target pid (_ & _ & stdout & _ & Hin)%Hmem.
    by destruct (split_ws_tokens _ _ Hin) as (? & ? & _).
Qed.

Lemma kill_orphans_spares_only_own_pid_witness :
  ("chromedriver", "1")
    ∈ _kill_orphaned_chromedrivers
        (λ _, Return (String "1" (String "010" (String "2" (String "010" ""))))) "2".
Proof.
  apply (proj1 (kill_orphans_spares_only_own_pid
                  (λ _, Return (String "1" (String "010" (String "2" (String "010" "")))))
                  "2")).
  split_and!; [by left|discriminate|].
  eexists. split; [reflexivity|]. by left.
Defined.

(** ** The RealOEM scraper *)

Lemma is_digit_ascii c : is_digit c = true → is_ascii_char c = true.
Proof.
  unfold is_digit, is_ascii_char. cbn zeta.
  intros [_ H%Nat.leb_le]%andb_true_iff. apply Nat.ltb_lt. lia.
Qed.

Lemma digits_of_ascii s :
  is_Some (digits_of s) ↔ all_chars is_ascii_char s = true.
Proof.
  induction s as [|c s IH]; cbn [digits_of all_chars]; [by split; [|eexists]|].
  destruct (is_ascii_char c); [|split; [by intros [? ?]|done]].
  rewrite andb_true_l, <- IH. destruct (digits_of s) as [d|]; [|done].
  split; intros _; by eexists.
Qed.

Lemma digits_of_digits s d :
  digits_of s = Some d →
  all_chars is_digit d = true ∧
  (∀ c, contains_char c d = true → contains_char c s = true) ∧
  (all_chars is_digit s = true → d = s).
Proof.
  revert d. induction s as [|c s IH]; intros d; cbn [digits_of].
  - by intros [= <-].
  - destruct (is_ascii_char c); [|done].
    destruct (digits_of s) as [d'|]; [|done].
    destruct (IH d' eq_refl) as (Hd & Hsub & Hall).
    destruct (is_digit c) eqn:Hc; intros [= <-].
    + split_and!.
      * cbn [all_chars]. by rewrite Hc.
      * intros x. cbn [contains_char]. intros [H|H%Hsub]%orb_true_iff.
        -- by rewrite H.
        -- rewrite H. apply orb_true_r.
      * cbn [all_chars]. rewrite Hc. intros H. f_equal. by apply Hall.
    + split_and!; [done| |].
      * intros x H%Hsub. cbn [contains_char]. rewrite H. apply orb_true_r.
      * cbn [all_chars]. by rewrite Hc.
Qed.

Lemma outer_error_nonempty e : outer_error e ≠ "".
Proof. destruct e as [[|a t] msg]; done. Qed.

Lemma run_scrape_of_error page barcode msg visited :
  scrape_realoem_barcode page barcode = Some (error_dict msg, visited) →
  _run_scrape_realoem page barcode
  = Some (mkResponse false barcode "realoem" None (PyStr msg)).
Proof. unfold _run_scrape_realoem. by intros ->. Qed.

Lemma run_scrape_of_not_found page barcode error_text visited :
  scrape_realoem_barcode page barcode = Some (not_found_dict error_text, visited) →
  _run_scrape_realoem page barcode
  = Some (mkResponse true barcode "realoem" (Some (not_found_dict error_text)) PyNone).
Proof. unfold _run_scrape_realoem. by intros ->. Qed.

Lemma run_scrape_of_data page barcode part_number description vehicle_tags visited :
  scrape_realoem_barcode page barcode
  = Some (data_dict page part_number description vehicle_tags, visited) →
  _run_scrape_realoem page barcode
  = Some (mkResponse true barcode "realoem"
            (Some (data_dict page part_number description vehicle_tags)) PyNone).
Proof. unfold _run_scrape_realoem. by intros ->. Qed.

(** X23.  For a barcode of ASCII characters, scrape_realoem_barcode searches
    RealOEM with the digits of the barcode only, in their order: a barcode
    without a digit is answered with "Invalid barcode - no numeric digits
    found" and the browser is not used; otherwise the first page loaded is
    partxref?q= followed by these digits.  _run_scrape reports
    success=False, with a non-empty error text and no data, exactly when
    the barcode has no digit, a page load raised, or the page shows neither
    a "not found" banner nor the part heading.  A part that RealOEM does
    not know (banner "not found") is reported with success=True and
    part_number "NOT FOUND".  Barcodes with other characters are left out:
    the model answers for ASCII barcodes and for no other. *)
Theorem realoem_result_contract (page : realoem_page) (barcode : string) :
  (is_Some (scrape_realoem_barcode page barcode)
   ↔ all_chars is_ascii_char barcode = true) ∧
  ∀ numeric_barcode,
    digits_of barcode = Some numeric_barcode →
    ∃ result visited response,
      scrape_realoem_barcode page barcode = Some (result, visited) ∧
      _run_scrape_realoem page barcode = Some response ∧
      all_chars is_digit numeric_barcode = true ∧
      (∀ c, contains_char c numeric_barcode = true → contains_char c barcode = true) ∧
      (all_chars is_digit barcode = true → numeric_barcode = barcode) ∧
      (numeric_barcode = "" →
         visited = [] ∧
         response = mkResponse false barcode "realoem" None
                      (PyStr "Invalid barcode - no numeric digits found")) ∧
      (numeric_barcode ≠ "" →
         head visited
         = Some (Some ("https://www.realoem.com/bmw/enUS/partxref?q=" +:+ numeric_barcode))) ∧
      (r_success response = false ↔
         numeric_barcode = "" ∨ navigate_search page ≠ None ∨
         (not_found_banner page = None ∧
          (heading page = None ∨
           (vehicle_links page ≠ [] ∧ navigate_vehicle page ≠ None)))) ∧
      (r_success response = false →
         r_data response = None ∧ ∃ msg, r_error response = PyStr msg ∧ msg ≠ "") ∧
      (r_success response = true →
         r_data response = Some result ∧ r_error response = PyNone) ∧
      (∀ error_text,
         numeric_barcode ≠ "" → navigate_search page = None →
         not_found_banner page = Some error_text →
         response = mkResponse true barcode "realoem"
                      (Some (not_found_dict error_text)) PyNone).
Proof.
  split.
  { unfold scrape_realoem_barcode. rewrite <- digits_of_ascii.
    destruct (digits_of barcode) as [d|]; [|done].
    split; intros _; by eexists. }
  intros numeric_barcode Hdigits.
  destruct (digits_of_digits barcode numeric_barcode Hdigits) as (Hd & Hsub & Hall).
  assert (Hrun : scrape_realoem_barcode page barcode
                 = Some (scrape_realoem_numeric page numeric_barcode)).
  { unfold scrape_realoem_barcode. by rewrite Hdigits. }
  destruct (scrape_realoem_numeric page numeric_barcode) as [result visited] eqn:Hnum.
  unfold scrape_realoem_numeric in Hnum. cbn zeta in Hnum.
  exists result, visited.
  case_bool_decide as Hd0.
  { injection Hnum as <- <-. rewrite (run_scrape_of_error _ _ _ _ Hrun).
    eexists. split; [exact Hrun|]. split; [reflexivity|]. cbn.
    split_and!; try done.
    - split; [by left|done].
    - intros _. split; [done|]. by eexists. }
  destruct (navigate_search page) as [e|] eqn:Hnav.
  { injection Hnum as <- <-. rewrite (run_scrape_of_error _ _ _ _ Hrun).
    eexists. split; [exact Hrun|]. split; [reflexivity|]. cbn.
    split_and!; try done.
    - split; [by (right; left)|done].
    - intros _. split; [done|]. eexists. split; [done|]. apply outer_error_nonempty. }
  destruct (not_found_banner page) as [error_text|] eqn:Hban.
  { injection Hnum as <- <-. rewrite (run_scrape_of_not_found _ _ _ _ Hrun).
    eexists. split; [exact Hrun|]. split; [reflexivity|]. cbn.
    split_and!; try done.
    - split; [done|]. intros [?|[?|[? _]]]; done.
    - by intros ? _ _ [= <-]. }
  destruct (heading page) as [[part_number description]|] eqn:Hhead.
  2:{ injection Hnum as <- <-. rewrite (run_scrape_of_error _ _ _ _ Hrun).
      eexists. split; [exact Hrun|]. split; [reflexivity|]. cbn.
      split_and!; try done.
      - split; [|done]. intros _. right; right. split; [done|by left].
      - intros _. split; [done|]. by eexists. }
  destruct (vehicle_links page) as [|[text first_vehicle_url] links] eqn:Hlinks.
  { injection Hnum as <- <-. rewrite (run_scrape_of_data _ _ _ _ _ _ Hrun).
    eexists. split; [exact Hrun|]. split; [reflexivity|]. cbn.
    split_and!; try done.
    split; [done|]. intros [?|[?|[_ [?|[? _]]]]]; done. }
  destruct (navigate_vehicle page) as [e|] eqn:Hnav2.
  { injection Hnum as <- <-. rewrite (run_scrape_of_error _ _ _ _ Hrun).
    eexists. split; [exact Hrun|]. split; [reflexivity|]. cbn.
    split_and!; try done.
    - split; [|done]. intros _. right; right. split; [done|by right].
    - intros _. split; [done|]. eexists. split; [done|]. apply outer_error_nonempty. }
  injection Hnum as <- <-. rewrite (run_scrape_of_data _ _ _ _ _ _ Hrun).
  eexists. split; [exact Hrun|]. split; [reflexivity|]. cbn.
  split_and!; try done.
  split; [done|]. intros [?|[?|[_ [?|[_ ?]]]]]; done.
Qed.

Lemma realoem_result_contract_witness :
  ∃ result visited response,
    scrape_realoem_barcode sample_realoem_page "BMW 34-11" = Some (result, visited) ∧
    _run_scrape_realoem sample_realoem_page "BMW 34-11" = Some response ∧
    head visited = Some (Some "https://www.realoem.com/bmw/enUS/partxref?q=3411") ∧
    r_success response = true.
Proof.
  destruct (proj2 (realoem_result_contract sample_realoem_page "BMW 34-11") "3411" eq_refl)
    as (result & visited & response & Hrun & Hresp & _ & _ & _ & _ & Hurl & _ & _ & _ & Hnf).
  exists result, visited, response.
  split_and!; [exact Hrun|exact Hresp|by apply Hurl|].
  by rewrite (Hnf "Part not found" ltac:(discriminate) eq_refl eq_refl).
Defined.

(** ** Waiting for Cloudflare *)

Lemma wait_for_cloudflare_spec start max_wait polls :
  match _wait_for_cloudflare start max_wait polls with
  | Some true =>
      ∃ k p, polls !! k = Some p ∧ in_time start max_wait p = true ∧ blocked p = false ∧
             ∀ j q, j < k → polls !! j = Some q →
                    in_time start max_wait q = true ∧ blocked q = true
  | Some false =>
      ∃ k p, polls !! k = Some p ∧ in_time start max_wait p = false ∧
             ∀ j q, j < k → polls !! j = Some q →
                    in_time start max_wait q = true ∧ blocked q = true
  | None => ∀ q, q ∈ polls → in_time start max_wait q = true ∧ blocked q = true
  end.
Proof.
  induction polls as [|p rest IH]; [by intros q ?%elem_of_nil|].
  cbn [_wait_for_cloudflare].
  assert (Hnext : in_time start max_wait p = true → blocked p = true →
    match _wait_for_cloudflare start max_wait rest with
    | Some true =>
        ∃ k p0, (p :: rest) !! k = Some p0 ∧ in_time start max_wait p0 = true ∧
                blocked p0 = false ∧
                ∀ j q, j < k → (p :: rest) !! j = Some q →
                       in_time start max_wait q = true ∧ blocked q = true
    | Some false =>
        ∃ k p0, (p :: rest) !! k = Some p0 ∧ in_time start max_wait p0 = false ∧
                ∀ j q, j < k → (p :: rest) !! j = Some q →
                       in_time start max_wait q = true ∧ blocked q = true
    | None => ∀ q, q ∈ p :: rest → in_time start max_wait q = true ∧ blocked q = true
    end).
  { intros Ht Hb. destruct (_wait_for_cloudflare start max_wait rest) as [[|]|].
    - destruct IH as (k & p0 & Hk & Ht0 & Hb0 & Hbefore).
      exists (S k), p0. split_and!; [done|done|done|].
      intros [|j] q Hj Hq; [by injection Hq as <-|]. apply (Hbefore j); [lia|done].
    - destruct IH as (k & p0 & Hk & Ht0 & Hbefore).
      exists (S k), p0. split_and!; [done|done|].
      intros [|j] q Hj Hq; [by injection Hq as <-|]. apply (Hbefore j); [lia|done].
    - intros q [->|Hq]%elem_of_cons; [done|by apply IH]. }
  destruct (Qltb (poll_now p - start) max_wait) eqn:Ht.
  - destruct (poll_title p) as [title|e] eqn:Htitle.
    + destruct (challenge title) eqn:Hc.
      * apply Hnext; [done|]. unfold blocked. by rewrite Htitle.
      * exists 0, p. split_and!; [done|done| |intros j q Hj; lia].
        unfold blocked. by rewrite Htitle.
    + apply Hnext; [done|]. unfold blocked. by rewrite Htitle.
  - exists 0, p. split_and!; [done|done|intros j q Hj; lia].
Qed.

(** X24.  _wait_for_cloudflare returns True at the first turn, begun less
    than max_wait seconds after the start, at which the title can be read
    and shows neither "Just a moment" nor "Checking your browser"; it
    returns False at the first turn begun max_wait seconds or more after
    the start; until then every turn found the title unreadable or the
    challenge shown.  Once the clock has passed start + max_wait the loop
    has ended. *)
Theorem wait_for_cloudflare_outcome (start max_wait : Q) (polls : list poll) :
  match _wait_for_cloudflare start max_wait polls with
  | Some true =>
      ∃ k p, polls !! k = Some p ∧ in_time start max_wait p = true ∧ blocked p = false ∧
             ∀ j q, j < k → polls !! j = Some q →
                    in_time start max_wait q = true ∧ blocked q = true
  | Some false =>
      ∃ k p, polls !! k = Some p ∧ in_time start max_wait p = false ∧
             ∀ j q, j < k → polls !! j = Some q →
                    in_time start max_wait q = true ∧ blocked q = true
  | None => ∀ q, q ∈ polls → in_time start max_wait q = true ∧ blocked q = true
  end ∧
  (∀ p, p ∈ polls → in_time start max_wait p = false →
        _wait_for_cloudflare start max_wait polls ≠ None).
Proof.
  pose proof (wait_for_cloudflare_spec start max_wait polls) as H.
  split; [exact H|]. intros p Hp Ht Hnone. rewrite Hnone in H.
  destruct (H p Hp) as [Ht' _]. congruence.
Qed.

Lemma wait_for_cloudflare_outcome_witness :
  _wait_for_cloudflare 0 60
    [ {| poll_now := 1; poll_title := Return "Just a moment..." |};
      {| poll_now := 61; poll_title := Return "Autodoc" |} ] ≠ None.
Proof.
  apply (proj2 (wait_for_cloudflare_outcome 0 60
    [ {| poll_now := 1; poll_title := Return "Just a moment..." |};
      {| poll_now := 61; poll_title := Return "Autodoc" |} ])
    {| poll_now := 61; poll_title := Return "Autodoc" |}).
  - right. left.
  - reflexivity.
Defined.

(** ** Warming up a session *)

Lemma handle_cookies_outcome click inst :
  _handle_cookies click inst
  = if autodoc_cookie_handled inst then (inst, [])
    else (set_cookies true (realoem_cookie_handled inst) inst, [OpCookieButton]).
Proof. unfold _handle_cookies. by destruct (autodoc_cookie_handled inst), click. Qed.

(** X25.  warmup_autodoc does nothing for a session whose autodoc cookie
    flag is set.  Otherwise it loads the autodoc home page; when that
    raises, the exception leaves warmup_autodoc and the flag stays unset,
    so the next call tries again; when it returns, the flag is set
    whatever _wait_for_cloudflare answered and whether or not the consent
    button was found, and nothing else of the session changes.  So after
    a warm-up that returned, no later warm-up touches the browser, and
    the warm-up ends as soon as the wait for Cloudflare does. *)
Theorem warmup_autodoc_is_once_per_session (get : result unit) (start : Q)
    (polls : list poll) (click : result unit) (self : BrowserInstance) :
  (autodoc_cookie_handled self = true →
     warmup_autodoc get start polls click self = Some (Return tt, self, [])) ∧
  (∀ e, autodoc_cookie_handled self = false → get = Raise e →
     warmup_autodoc get start polls click self
     = Some (Raise e, self, [OpGet "https://www.autodoc.co.uk/"])) ∧
  (∀ u, autodoc_cookie_handled self = false → get = Return u →
     _wait_for_cloudflare start 60 polls ≠ None →
     warmup_autodoc get start polls click self
     = Some (Return tt, set_cookies true (realoem_cookie_handled self) self,
             [OpGet "https://www.autodoc.co.uk/"; OpCookieButton])) ∧
  (∀ self' ops,
     warmup_autodoc get start polls click self = Some (Return tt, self', ops) →
     autodoc_cookie_handled self' = true ∧
     ∀ get2 start2 polls2 click2,
       warmup_autodoc get2 start2 polls2 click2 self' = Some (Return tt, self', [])).
Proof.
  assert (Hwarm : ∀ g s p c i, autodoc_cookie_handled i = true →
            warmup_autodoc g s p c i = Some (Return tt, i, [])).
  { intros g s p c i Hi. unfold warmup_autodoc. by rewrite Hi. }
  split_and!.
  - apply Hwarm.
  - intros e Hf ->. unfold warmup_autodoc. by rewrite Hf.
  - intros u Hf -> Hw. unfold warmup_autodoc. rewrite Hf.
    destruct (_wait_for_cloudflare start 60 polls); [|done].
    rewrite handle_cookies_outcome, Hf. done.
  - intros self' ops Hrun.
    assert (autodoc_cookie_handled self' = true) as Hset.
    { unfold warmup_autodoc in Hrun.
      destruct (autodoc_cookie_handled self) eqn:Hf; [by injection Hrun as <- _|].
      destruct get; [|done].
      destruct (_wait_for_cloudflare start 60 polls); [|done].
      rewrite handle_cookies_outcome, Hf in Hrun. by injection Hrun as <- _. }
    split; [done|]. intros. by apply Hwarm.
Qed.

Lemma warmup_autodoc_is_once_per_session_witness :
  warmup_autodoc (Return tt) 0 [] (Return tt)
    (set_cookies true false sample_instance)
  = Some (Return tt, set_cookies true false sample_instance, []).
Proof.
  apply (proj1 (warmup_autodoc_is_once_per_session (Return tt) 0 [] (Return tt)
                  (set_cookies true false sample_instance))).
  reflexivity.
Defined.

(** ** The autodoc branch of _run_scrape *)

Lemma warmup_autodoc_returned get start polls click self self' ops :
  warmup_autodoc get start polls click self = Some (Return tt, self', ops) →
  autodoc_cookie_handled self' = true ∧ OpGet "https://www.autodoc.co.uk/" ∈ ops ∨
  self' = self ∧ ops = [] ∧ autodoc_cookie_handled self = true.
Proof.
  unfold warmup_autodoc. destruct (autodoc_cookie_handled self) eqn:Hf.
  - intros [= <- <-]. by right.
  - destruct get; [|done]. destruct (_wait_for_cloudflare start 60 polls); [|done].
    rewrite handle_cookies_outcome, Hf. intros [= <- <-]. left. split; [done|by left].
Qed.

(** X26.  The autodoc branch of _run_scrape never raises and answers for
    the barcode and scraper it was given.  It reports success=True exactly
    when the warm-up, the load of the search page and the wait for <body>
    returned, get_first_product_link gave a non-empty link and
    scrape_product_details returned for this link; the data are then what
    scrape_product_details returned.  The search page is
    spares-search?keyword= followed by the barcode as given.  Without a
    link, or with an empty one, the answer is "No product found for this
    barcode" and no product page is loaded.  The call of _handle_cookies
    after the warm-up never touches the browser: the session is the one
    the warm-up left and the consent button is looked for during the
    warm-up only. *)
Theorem run_scrape_autodoc_contract (env : autodoc_run) (barcode scraper : string)
    (inst : BrowserInstance) (response : Response) (inst' : BrowserInstance)
    (ops : list browser_op) :
  _run_scrape_autodoc env barcode scraper inst = Some (response, inst', ops) →
  r_barcode response = barcode ∧ r_scraper response = scraper ∧
  (r_success response = true ↔
     (autodoc_cookie_handled inst = true ∨ ∃ u, warm_get env = Return u) ∧
     (∃ u, search_get env = Return u) ∧ (∃ u, body_wait env = Return u) ∧
     ∃ product_link product_data,
       get_first_product_link (results env) = Some product_link ∧ product_link ≠ "" ∧
       product_details env product_link = Return product_data ∧
       r_data response = Some product_data) ∧
  (r_success response = false →
     r_data response = None ∧ ∃ msg, r_error response = PyStr msg) ∧
  (r_success response = true →
     autodoc_cookie_handled inst' = true ∧
     OpGet ("https://www.autodoc.co.uk/spares-search?keyword=" +:+ barcode) ∈ ops) ∧
  ((∃ u, search_get env = Return u) → (∃ u, body_wait env = Return u) →
   (autodoc_cookie_handled inst = true ∨ ∃ u, warm_get env = Return u) →
   get_first_product_link (results env) = None ∨
   get_first_product_link (results env) = Some "" →
   response = mkResponse false barcode scraper None
                (PyStr "No product found for this barcode") ∧
   ∀ url, OpGet url ∈ ops →
          url = "https://www.autodoc.co.uk/" ∨
          url = "https://www.autodoc.co.uk/spares-search?keyword=" +:+ barcode) ∧
  (∃ r1 ops1 tail,
     warmup_autodoc (warm_get env) (warm_start env) (warm_polls env)
       (warm_click env) inst = Some (r1, inst', ops1) ∧
     ops = ops1 ++ tail ∧ OpCookieButton ∉ tail).
Proof.
  unfold _run_scrape_autodoc.
  destruct (warmup_autodoc _ _ _ _ inst) as [[[r1 inst1] ops1]|] eqn:Hwarm; [|done].
  assert (Hget : ∀ b, r1 = Return b →
            autodoc_cookie_handled inst = true ∨ ∃ u, warm_get env = Return u).
  { intros b ->. unfold warmup_autodoc in Hwarm.
    destruct (autodoc_cookie_handled inst); [by left|]. right.
    destruct (warm_get env); [by eexists|done]. }
  assert (Hnoget : ∀ e, r1 = Raise e →
            ¬ (autodoc_cookie_handled inst = true ∨ ∃ u, warm_get env = Return u)).
  { intros e ->. unfold warmup_autodoc in Hwarm.
    destruct (autodoc_cookie_handled inst); [done|].
    destruct (warm_get env) as [u|e'] eqn:Hg.
    - by destruct (_wait_for_cloudflare _ _ _);
        [destruct (_handle_cookies _ _)|].
    - intros [?|[u ?]]; done. }
  assert (Hops1 : ∀ url, OpGet url ∈ ops1 → url = "https://www.autodoc.co.uk/").
  { intros url. unfold warmup_autodoc in Hwarm.
    destruct (autodoc_cookie_handled inst) eqn:Hf.
    - injection Hwarm as _ _ <-. by intros ?%elem_of_nil.
    - destruct (warm_get env).
      + destruct (_wait_for_cloudflare _ _ _); [|done].
        rewrite handle_cookies_outcome, Hf in Hwarm. injection Hwarm as _ _ <-.
        intros [[= ->]|[?|?%elem_of_nil]%elem_of_cons]%elem_of_cons; done.
      + injection Hwarm as _ _ <-.
        intros [[= ->]|?%elem_of_nil]%elem_of_cons; done. }
  destruct r1 as [[]|e].
  2:{ intros [= <- <- <-]. cbn. split_and!; try done.
      - split; [done|]. intros (Hw & _). by destruct (Hnoget e eq_refl).
      - intros _. split; [done|]. by eexists.
      - intros _ _ Hw. by destruct (Hnoget e eq_refl).
      - exists (Raise e), ops1, []. split_and!; [done|by rewrite app_nil_r|].
        by intros ?%elem_of_nil. }
  pose proof (Hget tt eq_refl) as Hw. cbn zeta.
  destruct (search_get env) as [u1|e] eqn:Hs.
  2:{ intros [= <- <- <-]. cbn. split_and!; try done.
      - split; [done|]. intros (_ & [u ?] & _). done.
      - intros _. split; [done|]. by eexists.
      - intros [u ?]. done.
      - eexists _, ops1, _. split_and!; [done|done|].
        intros [?|?%elem_of_nil]%elem_of_cons; done. }
  destruct (body_wait env) as [u2|e] eqn:Hb.
  2:{ intros [= <- <- <-]. cbn. split_and!; try done.
      - split; [done|]. intros (_ & _ & [u ?] & _). done.
      - intros _. split; [done|]. by eexists.
      - intros _ [u ?]. done.
      - eexists _, ops1, _. split_and!; [done|done|].
        intros [?|?%elem_of_nil]%elem_of_cons; done. }
  destruct (_wait_for_cloudflare (cf_start env) 60 (cf_polls env)); [|done].
  assert (Hflag : autodoc_cookie_handled inst1 = true).
  { by destruct (warmup_autodoc_returned _ _ _ _ _ _ _ Hwarm) as [[? _]|(-> & _ & ?)]. }
  rewrite handle_cookies_outcome, Hflag.
  assert (Hnoproduct : ∀ link,
    get_first_product_link (results env) = link → link = None ∨ link = Some "" →
    Some (mkResponse false barcode scraper None (PyStr "No product found for this barcode"),
          inst1,
          ops1 ++ [OpGet ("https://www.autodoc.co.uk/spares-search?keyword=" +:+ barcode)]
               ++ []) = Some (response, inst', ops) →
    r_barcode response = barcode ∧ r_scraper response = scraper ∧
    (r_success response = true ↔
       (autodoc_cookie_handled inst = true ∨ ∃ u, warm_get env = Return u) ∧
       (∃ u, Return u1 = Return u) ∧ (∃ u, Return u2 = Return u) ∧
       ∃ product_link product_data,
         link = Some product_link ∧ product_link ≠ "" ∧
         product_details env product_link = Return product_data ∧
         r_data response = Some product_data) ∧
    (r_success response = false →
       r_data response = None ∧ ∃ msg, r_error response = PyStr msg) ∧
    (r_success response = true →
       autodoc_cookie_handled inst' = true ∧
       OpGet ("https://www.autodoc.co.uk/spares-search?keyword=" +:+ barcode) ∈ ops) ∧
    ((∃ u, Return u1 = Return u) → (∃ u, Return u2 = Return u) →
     (autodoc_cookie_handled inst = true ∨ ∃ u, warm_get env = Return u) →
     link = None ∨ link = Some "" →
     response = mkResponse false barcode scraper None
                  (PyStr "No product found for this barcode") ∧
     ∀ url, OpGet url ∈ ops →
            url = "https://www.autodoc.co.uk/" ∨
            url = "https://www.autodoc.co.uk/spares-search?keyword=" +:+ barcode) ∧
    (∃ r1 ops1' tail,
       Some (Return tt, inst1, ops1) = Some (r1, inst', ops1') ∧
       ops = ops1' ++ tail ∧ OpCookieButton ∉ tail)).
  { intros link Hl Hcase [= <- <- <-]. cbn. split_and!; try done.
    - split; [done|]. intros (_ & _ & _ & l & dt & -> & Hne & _).
      destruct Hcase as [?|[= ->]]; done.
    - intros _. split; [done|]. by eexists.
    - intros _ _ _ _. split; [done|]. intros url.
      intros [?%Hops1|[[= ->]|?%elem_of_nil]%elem_of_cons]%elem_of_app;
        [by left|by right|done].
    - eexists _, ops1, _. split_and!; [done|done|].
      intros [?|?%elem_of_nil]%elem_of_cons; done. }
  destruct (get_first_product_link (results env)) as [[|a l]|] eqn:Hlink.
  - apply (Hnoproduct (Some "")); [done|by right].
  - destruct (product_details env (String a l)) as [product_data|e] eqn:Hd.
    + intros [= <- <- <-]. cbn. split_and!; try done.
      * split; [|done]. intros _. split_and!; [done|by eexists|by eexists|].
        by exists (String a l), product_data.
      * intros _. split; [done|]. apply elem_of_app. right. by left.
      * intros _ _ _ [?|?]; done.
      * eexists _, ops1, _. split_and!; [done|done|].
        intros [?|[?|?%elem_of_nil]%elem_of_cons]%elem_of_cons; done.
    + intros [= <- <- <-]. cbn. split_and!; try done.
      * split; [done|]. intros (_ & _ & _ & pl & dt & [= <-] & _ & Hd' & _).
        rewrite Hd in Hd'. done.
      * intros _. split; [done|]. by eexists.
      * intros _ _ _ [?|?]; done.
      * eexists _, ops1, _. split_and!; [done|done|].
        intros [?|[?|?%elem_of_nil]%elem_of_cons]%elem_of_cons; done.
  - apply (Hnoproduct None); [done|by left].
Qed.

Lemma run_scrape_autodoc_contract_witness :
  autodoc_cookie_handled (set_cookies true false sample_instance) = true ∧
  OpGet "https://www.autodoc.co.uk/spares-search?keyword=34116860912"
    ∈ [OpGet "https://www.autodoc.co.uk/spares-search?keyword=34116860912";
       OpGet "https://www.autodoc.co.uk/p/1"].
Proof.
  apply (proj1 (proj2 (proj2 (proj2 (proj2
    (run_scrape_autodoc_contract sample_autodoc_run "34116860912" "autodoc"
       (set_cookies true false sample_instance)
       (mkResponse true "34116860912" "autodoc" (Some (PyDict [])) PyNone)
       (set_cookies true false sample_instance)
       [OpGet "https://www.autodoc.co.uk/spares-search?keyword=34116860912";
        OpGet "https://www.autodoc.co.uk/p/1"]
       eq_refl)))))).
  reflexivity.
Defined.

(** ** The checks at the top of /scrape *)

(** X27.  /scrape answers 400 exactly for a request that fails one of its
    two checks, and then leaves the pool as it was: no session is leased,
    created or quit.  A barcode that is empty or only white space gives
    "Barcode cannot be empty", whatever the scraper; otherwise a scraper
    that is, in lower case, neither autodoc nor realoem gives "Scraper
    must be 'autodoc' or 'realoem'". *)
Theorem scrape_rejects_bad_requests (request : BarcodeRequest) (env : scrape_env)
    (w : World) :
  (strip (request_barcode request) = "" →
     scrape_barcode request env w = Some (HTTPException 400 "Barcode cannot be empty", w)) ∧
  (strip (request_barcode request) ≠ "" →
   lower (request_scraper request) ∉ ["autodoc"; "realoem"] →
     scrape_barcode request env w
     = Some (HTTPException 400 "Scraper must be 'autodoc' or 'realoem'", w)) ∧
  (∀ detail w', scrape_barcode request env w = Some (HTTPException 400 detail, w') →
     ¬ well_formed request ∧ w' = w).
Proof.
  split_and!.
  - intros Hb. unfold scrape_barcode. by rewrite (bool_decide_eq_true_2 _ Hb).
  - intros Hb Hs. unfold scrape_barcode.
    by rewrite (bool_decide_eq_false_2 _ Hb), (bool_decide_eq_false_2 _ Hs).
  - intros detail w' Hrun. unfold scrape_barcode in Hrun.
    case_bool_decide as Hb.
    { injection Hrun as _ <-. split; [|done]. by intros [? _]. }
    case_bool_decide as Hs; cbn [negb] in Hrun.
    2:{ injection Hrun as _ <-. split; [|done]. by intros [_ ?]. }
    exfalso.
    destruct (acquire 30 (t_call env) (sched env) w) as [[[[r|e] created] w1]|];
      [| |done].
    + destruct (release r (t_release env) _) as [[u|e] w4]; done.
    + by destruct (isinstance_RuntimeError e).
Qed.

Lemma scrape_rejects_bad_requests_witness :
  scrape_barcode blank_request env_busy started_world
    = Some (HTTPException 400 "Barcode cannot be empty", started_world) ∧
  scrape_barcode unknown_scraper_request env_busy started_world
    = Some (HTTPException 400 "Scraper must be 'autodoc' or 'realoem'", started_world).
Proof.
  split.
  - apply (proj1 (scrape_rejects_bad_requests blank_request env_busy started_world)).
    reflexivity.
  - apply (proj1 (proj2 (scrape_rejects_bad_requests unknown_scraper_request env_busy
                           started_world))).
    + discriminate.
    + vm_compute. intros H. repeat (apply elem_of_cons in H as [H|H]; [discriminate H|]).
      by apply elem_of_nil in H.
Defined.
